(** * Audio transcription and compliance analyzer: backend/main.py

    A shallow embedding of the transcription pipeline of [backend/main.py]
    (tier selection, chunking, per-chunk transcription, overlap
    reconciliation), of the cached-credential client for the remote
    inference service, and of the HTTP endpoints that chain them.

    Python strings are lists of code points, integers are [Z] (counts are
    [nat]), the two module-level dicts are fields of the program state.
    Functions with effects are computations over that state that return a
    value or raise; every call to the outside (clock, HTTP, files, decoder,
    speech model) is recorded as an event and answered by an environment
    that may depend on all events before it.  Logging is left out, and so
    are the [/] and [/health] endpoints and the middleware. *)

From Stdlib Require Import String Ascii DecimalString ZArith NArith QArith List Bool Lia Lqa.
Import ListNotations.

Local Open Scope Z_scope.

(* ================================================================== *)
(** * Python strings *)

(** A Python [str] is a sequence of Unicode code points. *)
Definition char := N.
Definition str := list char.

(** The code points of an ASCII literal. *)
Definition lit (s : string) : str := map N_of_ascii (list_ascii_of_string s).

(** [str.isspace] on one code point: the code points CPython treats as
    whitespace in [str.split()] and [str.strip()]. *)
Definition isspace (c : char) : bool :=
  ((9 <=? c) && (c <=? 13) || (28 <=? c) && (c <=? 32) ||
   (c =? 133) || (c =? 160) || (c =? 5760) ||
   (8192 <=? c) && (c <=? 8202) || (c =? 8232) || (c =? 8233) ||
   (c =? 8239) || (c =? 8287) || (c =? 12288))%N.

Fixpoint lstrip (s : str) : str :=
  match s with
  | [] => []
  | c :: s' => if isspace c then lstrip s' else s
  end.

Definition rstrip (s : str) : str := rev (lstrip (rev s)).

(** [s.strip()] *)
Definition strip (s : str) : str := rstrip (lstrip s).

(** [s.split()]: maximal runs of non-whitespace, in order.  [cur] is the
    word being read, last character first. *)
Fixpoint split_from (cur : str) (s : str) : list str :=
  match s with
  | [] => match cur with [] => [] | _ => [rev cur] end
  | c :: s' =>
      if isspace c
      then match cur with
           | [] => split_from [] s'
           | _ => rev cur :: split_from [] s'
           end
      else split_from (c :: cur) s'
  end.

Definition split (s : str) : list str := split_from [] s.

(** [sep.join(ws)] *)
Fixpoint join (sep : str) (ws : list str) : str :=
  match ws with
  | [] => []
  | [w] => w
  | w :: ws' => w ++ sep ++ join sep ws'
  end.

Fixpoint str_eqb (a b : str) : bool :=
  match a, b with
  | [], [] => true
  | x :: a', y :: b' => (x =? y)%N && str_eqb a' b'
  | _, _ => false
  end.

(** [==] on lists of strings *)
Fixpoint words_eqb (a b : list str) : bool :=
  match a, b with
  | [], [] => true
  | x :: a', y :: b' => str_eqb x y && words_eqb a' b'
  | _, _ => false
  end.

(** [s.endswith(suffix)] *)
Definition endswith (s suffix : str) : bool :=
  str_eqb (skipn (length s - length suffix) s) suffix.

(** [s.lower()] on the ASCII letters.  Code points above 127 are left as
    they are; none of them lowers to a character of [".mp3"], which is the
    only use the program makes of [lower]. *)
Definition lower_char (c : char) : char :=
  if ((65 <=? c) && (c <=? 90))%N then (c + 32)%N else c.

Definition lower (s : str) : str := map lower_char s.

(** Truth value of a string: [bool(s)] *)
Definition nonempty (s : str) : bool :=
  match s with [] => false | _ => true end.

(** No whitespace at either end. *)
Definition no_leading_space (s : str) : Prop :=
  match s with [] => True | c :: _ => isspace c = false end.

Definition trimmed (s : str) : Prop :=
  no_leading_space s /\ no_leading_space (rev s).

(* ================================================================== *)
(** * Overlap reconciler: [clean_combined_transcription] *)

(** [l[-k:]] for [k >= 0] ([l[-0:]] is all of [l]). *)
Definition last_n {A} (k : nat) (l : list A) : list A :=
  match k with
  | O => l
  | _ => skipn (length l - k) l
  end.

(** The inner [for overlap_len in range(max_overlap, 0, -1)] loop, with
    [overlap_found] initially 0 and a [break] at the first match. *)
Fixpoint find_overlap (combined_words current_words : list str)
    (overlap_len : nat) : nat :=
  match overlap_len with
  | O => O
  | S next =>
      if words_eqb (last_n overlap_len combined_words)
                   (firstn overlap_len current_words)
      then overlap_len
      else find_overlap combined_words current_words next
  end.

Definition max_overlap (combined_words current_words : list str) : nat :=
  Nat.min 10 (Nat.min (length combined_words) (length current_words)).

(** One iteration of the outer loop: the new value of [combined]. *)
Definition merge_step (combined current_transcription : str) : str :=
  let combined_words := split combined in
  let current_words := split current_transcription in
  let overlap_found :=
    find_overlap combined_words current_words
                 (max_overlap combined_words current_words) in
  if (0 <? overlap_found)%nat
  then combined ++ lit " " ++ join (lit " ") (skipn overlap_found current_words)
  else combined ++ lit " " ++ current_transcription.

Definition clean_combined_transcription (transcriptions : list str) : str :=
  match transcriptions with
  | [] => []
  | [only] => only
  | first :: rest => strip (fold_left merge_step rest first)
  end.

(* ================================================================== *)
(** * Exceptions and results *)

(** The exceptions the program distinguishes: FastAPI's [HTTPException],
    [requests.exceptions.RequestException] (and its subclasses), and any
    other [Exception]. *)
Inductive exn : Type :=
| HTTPException (status_code : Z) (detail : str)
| RequestException (message : str)
| Exception (message : str).

(** What running a piece of the program yields: a value, a raised
    exception, or no return at all (a loop that does not end). *)
Inductive result (A : Type) : Type :=
| Ok (value : A)
| Raise (e : exn)
| Diverge.

Arguments Ok {A} value.
Arguments Raise {A} e.
Arguments Diverge {A}.

(** What a call into a library or to the outside yields: it returns or it
    raises. *)
Inductive answer (A : Type) : Type :=
| Returns (value : A)
| Raises (e : exn).

Arguments Returns {A} value.
Arguments Raises {A} e.

Definition result_of {A} (a : answer A) : result A :=
  match a with
  | Returns v => Ok v
  | Raises e => Raise e
  end.

(* ================================================================== *)
(** * Segmentation: the chunking loop *)

Definition len {A} (l : list A) : Z := Z.of_nat (length l).

(** [l[start:stop]] for indices that are not negative (the chunking loop
    never produces a negative one, see [chunk_loop_ranges]). *)
Definition slice {A} (l : list A) (start stop : Z) : list A :=
  firstn (Z.to_nat (stop - start)) (skipn (Z.to_nat start) l).

(** [np.pad(chunk, (0, n), 'constant')] *)
Definition np_pad {A} (zero : A) (chunk : list A) (n : Z) : list A :=
  chunk ++ repeat zero (Z.to_nat n).

(** One appended chunk, with the values [start] and [end] had when it was
    cut.  The program keeps [seg_chunk] only. *)
Record Segment (sample : Type) : Type := {
  seg_start : Z;
  seg_end : Z;
  seg_chunk : list sample
}.

Arguments seg_start {sample} _.
Arguments seg_end {sample} _.
Arguments seg_chunk {sample} _.

Section Chunking.
Context {sample : Type} (zero : sample).

(** The [while start < len(audio_array)] loop shared by
    [transcribe_long_audio] and [transcribe_very_long_audio]; [fuel]
    bounds the number of iterations, [None] is fuel exhausted. *)
Fixpoint chunk_loop (fuel : nat) (audio_array : list sample)
    (chunk_samples overlap_samples start : Z) : option (list (Segment sample)) :=
  match fuel with
  | O => None
  | S fuel' =>
      if start <? len audio_array then
        let stop := Z.min (start + chunk_samples) (len audio_array) in
        let chunk := slice audio_array start stop in
        let chunk :=
          if (len chunk <? chunk_samples) && (0 <? start)
          then np_pad zero chunk (chunk_samples - len chunk)
          else chunk in
        let seg := {| seg_start := start; seg_end := stop; seg_chunk := chunk |} in
        if len audio_array <=? stop then Some [seg]
        else
          option_map (cons seg)
            (chunk_loop fuel' audio_array chunk_samples overlap_samples
                        (stop - overlap_samples))
      else Some []
  end.

(** The loop from [start = 0].  Every iteration but the last moves
    [start] forward, so [len(audio_array) + 1] iterations are enough
    whenever the loop ends at all (see [split_chunks_returns]). *)
Definition split_chunks (audio_array : list sample)
    (chunk_samples overlap_samples : Z) : option (list (Segment sample)) :=
  chunk_loop (S (length audio_array)) audio_array chunk_samples overlap_samples 0.

(** [transcribe_long_audio]: [chunk_length = 30], 2 seconds of overlap. *)
Definition long_chunks (audio_array : list sample) (sampling_rate : Z) :=
  split_chunks audio_array (30 * sampling_rate) (2 * sampling_rate).

(** [transcribe_very_long_audio]: [chunk_length = 20], 1 second of overlap. *)
Definition very_long_chunks (audio_array : list sample) (sampling_rate : Z) :=
  split_chunks audio_array (20 * sampling_rate) (1 * sampling_rate).
End Chunking.

(** Consecutive elements of a list are related by [R]. *)
Fixpoint chain {A} (R : A -> A -> Prop) (l : list A) : Prop :=
  match l with
  | a :: (b :: _) as l' => R a b /\ chain R l'
  | _ => True
  end.

(** Sample index [i] lies in the range of [s]. *)
Definition in_range {sample} (s : Segment sample) (i : Z) : Prop :=
  seg_start s <= i < seg_end s.

(** Number of sample indices the ranges of [a] and [b] share. *)
Definition overlap {sample} (a b : Segment sample) : Z :=
  Z.max 0 (Z.min (seg_end a) (seg_end b) - Z.max (seg_start a) (seg_start b)).

(* ================================================================== *)
(** * Tiers *)

Inductive Tier : Type := SHORT | LONG | VERY_LONG.

(** [duration = len(audio_array) / sampling_rate].  The quotient is a
    float in the program; for lengths below 2^53 the comparisons with 30
    and 600 below give the same answer on the exact quotient. *)
Definition duration {A} (audio_array : list A) (sampling_rate : Z) : Q :=
  (inject_Z (len audio_array) / inject_Z sampling_rate)%Q.

(** [a > b] on durations *)
Definition Qgtb (a b : Q) : bool := negb (Qle_bool a b).

(** The branch [transcribe_audio_file] takes, as a tier. *)
Definition select_tier (duration : Q) : Tier :=
  if Qgtb duration (600 # 1) then VERY_LONG
  else if Qgtb duration (30 # 1) then LONG
  else SHORT.

(* ================================================================== *)
(** * The world the program runs in *)

(** Keyword arguments of [model.generate]. *)
Record DecodeParams : Type := {
  max_length : Z;
  num_beams : Z;
  do_sample : bool;
  gen_temperature : Q;
  early_stopping : bool;
  no_repeat_ngram_size : Z
}.

(** The ["parameters"] entry of a chat payload. *)
Record Parameters : Type := {
  decoding_method : str;
  max_new_tokens : Z;
  temperature : Q;
  top_p : Q;
  repetition_penalty : Q
}.

(** The JSON payload sent to the chat endpoint; a message is a
    (role, content) pair. *)
Record Payload : Type := {
  messages : list (str * str);
  parameters : Parameters;
  model_id : str;
  project_id : str
}.

(** Arithmetic and comparison on the numbers [time.time()] and
    ["expires_in"] are made of; the program uses [+], [-] and [<] on them
    and nothing else. *)
Class PyNumber (num : Type) : Type := {
  num_add : num -> num -> num;
  num_sub : num -> num -> num;
  num_ltb : num -> num -> bool;
  num_of_Z : Z -> num
}.

#[export] Instance PyNumber_Z : PyNumber Z := {
  num_add := Z.add;
  num_sub := Z.sub;
  num_ltb := Z.ltb;
  num_of_Z := fun z => z
}.

(** What the IAM token endpoint's JSON body holds under ["access_token"]
    and ["expires_in"] ([None]: the key is absent).  The values have the
    JSON types of the IAM API: a string and a number. *)
Record TokenData (num : Type) : Type := {
  access_token : option str;
  expires_in : option num
}.

Arguments access_token {num} _.
Arguments expires_in {num} _.

(** Response of the IAM token endpoint: its status and what
    [response.json()] does. *)
Record TokenResponse (num : Type) : Type := {
  token_status_code : Z;
  token_error : str;            (* the message [raise_for_status] builds *)
  token_json : answer (TokenData num)
}.

Arguments token_status_code {num} _.
Arguments token_error {num} _.
Arguments token_json {num} _.

(** A parsed chat completion body other than JSON [null]: whether it is
    falsy (an empty dict), and what
    [result.get("choices", [{}])[0].get("message", {}).get("content", "")]
    evaluates to on it. *)
Record ChatJson : Type := {
  is_empty : bool;
  content_of : answer str
}.

(** Response of the chat endpoint; [response.json()] is [None] when the
    body is the JSON text [null]. *)
Record ChatResponse : Type := {
  status_code : Z;
  text : str;
  json : answer (option ChatJson)
}.

(** The module-level dict [access_token_cache]. *)
Record TokenCache (num : Type) : Type := {
  token : option str;
  expiry : num
}.

Arguments token {num} _.
Arguments expiry {num} _.

(** Every interaction of the program with the outside, in the order it
    happens. *)
Inductive Event (sample : Type) : Type :=
| TimeRead                                        (* time.time() *)
| TokenPost (api_key : str)                       (* POST to the IAM token URL *)
| ChatPost (bearer : str) (payload : Payload)     (* POST to the chat URL *)
| Sleep (seconds : Z)                             (* time.sleep *)
| FileRead                                        (* audio_file.file.read() *)
| ModelLoad                                       (* from_pretrained, twice *)
| TempWrite (content : list Byte.byte)            (* the temporary .mp3 file *)
| AudioLoad (path : str)                          (* librosa.load *)
| Unlink (path : str)                             (* os.unlink *)
| Generate (chunk : list sample) (sampling_rate : Z) (p : DecodeParams).
    (* processor(...), model.generate(...), batch_decode(...) *)

Arguments TimeRead {sample}.
Arguments TokenPost {sample} api_key.
Arguments ChatPost {sample} bearer payload.
Arguments Sleep {sample} seconds.
Arguments FileRead {sample}.
Arguments ModelLoad {sample}.
Arguments TempWrite {sample} content.
Arguments AudioLoad {sample} path.
Arguments Unlink {sample} path.
Arguments Generate {sample} chunk sampling_rate p.

(** An uploaded file: its name and what [file.read()] gives. *)
Record UploadFile : Type := {
  filename : str;
  file : answer (list Byte.byte)
}.

(** Program state: the two module-level caches and the events so far. *)
Record World (num sample : Type) : Type := {
  access_token_cache : TokenCache num;
  whisper_model_cache : bool;           (* processor and model are loaded *)
  events : list (Event sample)
}.

Arguments access_token_cache {num sample} _.
Arguments whisper_model_cache {num sample} _.
Arguments events {num sample} _.

(** The outside: what each interaction answers, given the events before
    it.  Outcomes that are exceptions in Python are [Raises]. *)
Record Env (num sample : Type) : Type := {
  time_time : list (Event sample) -> num;
  post_token : list (Event sample) -> str -> answer (TokenResponse num);
  post_chat : list (Event sample) -> str -> Payload -> answer ChatResponse;
  getenv : str -> option str;
  from_pretrained : list (Event sample) -> answer unit;
  temp_write : list (Event sample) -> list Byte.byte -> answer str;
  librosa_load : list (Event sample) -> str -> answer (list sample * Z);
  librosa_normalize : list sample -> answer (list sample);
  librosa_trim : list sample -> answer (list sample);
  librosa_preemphasis : list sample -> answer (list sample);
  librosa_resample : list sample -> Z -> Z -> answer (list sample);
  whisper : list (Event sample) -> list sample -> Z -> DecodeParams -> answer str;
  exn_str : exn -> str                                   (* str(e) *)
}.

Arguments time_time {num sample} _.
Arguments post_token {num sample} _.
Arguments post_chat {num sample} _.
Arguments getenv {num sample} _.
Arguments from_pretrained {num sample} _.
Arguments temp_write {num sample} _.
Arguments librosa_load {num sample} _.
Arguments librosa_normalize {num sample} _.
Arguments librosa_trim {num sample} _.
Arguments librosa_preemphasis {num sample} _.
Arguments librosa_resample {num sample} _.
Arguments whisper {num sample} _.
Arguments exn_str {num sample} _.

(** A computation: from a world to a result and the world after it. *)
Definition M (num sample A : Type) : Type :=
  World num sample -> result A * World num sample.

Section Monad.
Context {num sample : Type}.
Local Notation "'M'" := (M num sample).

Definition ret {A} (a : A) : M A := fun w => (Ok a, w).

Definition raise {A} (e : exn) : M A := fun w => (Raise e, w).

Definition diverge {A} : M A := fun w => (Diverge, w).

Definition bind {A B} (m : M A) (k : A -> M B) : M B :=
  fun w =>
    match m w with
    | (Ok a, w') => k a w'
    | (Raise e, w') => (Raise e, w')
    | (Diverge, w') => (Diverge, w')
    end.

(** [try: m  except Exception as e: handler e] *)
Definition try_except {A} (m : M A) (handler : exn -> M A) : M A :=
  fun w =>
    match m w with
    | (Raise e, w') => handler e w'
    | other => other
    end.

(** [try: m  finally: cleanup] *)
Definition try_finally {A} (m : M A) (cleanup : M unit) : M A :=
  fun w =>
    match m w with
    | (Ok a, w') =>
        match cleanup w' with
        | (Ok _, w'') => (Ok a, w'')
        | (Raise e, w'') => (Raise e, w'')
        | (Diverge, w'') => (Diverge, w'')
        end
    | (Raise e, w') =>
        match cleanup w' with
        | (Ok _, w'') => (Raise e, w'')
        | (Raise e', w'') => (Raise e', w'')
        | (Diverge, w'') => (Diverge, w'')
        end
    | (Diverge, w') => (Diverge, w')
    end.

(** A library call that touches nothing outside. *)
Definition lift {A} (a : answer A) : M A := fun w => (result_of a, w).

(** Record an event, then answer with what the outside gives. *)
Definition interact {A} (e : Event sample)
    (reply : list (Event sample) -> answer A) : M A :=
  fun w =>
    (result_of (reply (events w)),
     {| access_token_cache := access_token_cache w;
        whisper_model_cache := whisper_model_cache w;
        events := events w ++ [e] |}).

Definition get_token_cache : M (TokenCache num) :=
  fun w => (Ok (access_token_cache w), w).

Definition set_token_cache (c : TokenCache num) : M unit :=
  fun w =>
    (Ok tt,
     {| access_token_cache := c;
        whisper_model_cache := whisper_model_cache w;
        events := events w |}).

Definition get_model_cache : M bool :=
  fun w => (Ok (whisper_model_cache w), w).

Definition set_model_cache (b : bool) : M unit :=
  fun w =>
    (Ok tt,
     {| access_token_cache := access_token_cache w;
        whisper_model_cache := b;
        events := events w |}).
End Monad.

Declare Scope py_scope.
Delimit Scope py_scope with py.
Notation "x <- m ;; k" := (bind m (fun x => k))
  (at level 100, m at next level, right associativity) : py_scope.
Notation "m ;;; k" := (bind m (fun _ => k))
  (at level 100, right associativity) : py_scope.

(* ================================================================== *)
(** * Transcription *)

Definition short_params : DecodeParams :=
  {| max_length := 448; num_beams := 5; do_sample := false;
     gen_temperature := 0; early_stopping := true; no_repeat_ngram_size := 3 |}.

Definition long_params : DecodeParams := short_params.

Definition very_long_params : DecodeParams :=
  {| max_length := 224; num_beams := 3; do_sample := false;
     gen_temperature := 0; early_stopping := true; no_repeat_ngram_size := 2 |}.

Section Transcription.
Context {num sample : Type} (zero : sample) (E : Env num sample).
Local Notation "'M'" := (M num sample).
Local Open Scope py_scope.

(** [except Exception as e: raise HTTPException(500, f"{prefix}{str(e)}")] *)
Definition reraise_500 {A} (prefix : string) (m : M A) : M A :=
  try_except m
    (fun e => raise (HTTPException 500 (lit prefix ++ exn_str E e))).

(** [except HTTPException: raise] followed by
    [except Exception as e: raise HTTPException(500, f"{prefix}{str(e)}")] *)
Definition reraise_http {A} (prefix : string) (m : M A) : M A :=
  try_except m
    (fun e =>
       match e with
       | HTTPException _ _ => raise e
       | _ => raise (HTTPException 500 (lit prefix ++ exn_str E e))
       end).

Definition load_whisper_model : M unit :=
  reraise_500 "Error loading Whisper model: "
    (loaded <- get_model_cache ;;
     if negb loaded
     then (interact ModelLoad (from_pretrained E) ;;; set_model_cache true)
     else ret tt).

Definition preprocess_audio (audio_path : str) : M (list sample * Z) :=
  reraise_500 "Error preprocessing audio: "
    (loaded <- interact (AudioLoad audio_path)
                        (fun h => librosa_load E h audio_path) ;;
     let '(audio, sr) := loaded in
     audio <- lift (librosa_normalize E audio) ;;
     audio <- lift (librosa_trim E audio) ;;
     audio <- lift (librosa_preemphasis E audio) ;;
     audio <- (if negb (sr =? 16000)
               then lift (librosa_resample E audio sr 16000)
               else ret audio) ;;
     ret (audio, 16000)).

(** [processor(...)], [model.generate(...)] and [batch_decode(...)[0]]
    on one array of samples. *)
Definition generate (chunk : list sample) (sampling_rate : Z)
    (p : DecodeParams) : M str :=
  interact (Generate chunk sampling_rate p)
           (fun h => whisper E h chunk sampling_rate p).

Definition transcribe_short_audio (audio_array : list sample)
    (sampling_rate : Z) : M str :=
  reraise_500 "Short audio transcription failed: "
    (transcription <- generate audio_array sampling_rate short_params ;;
     ret (strip transcription)).

(** The body of [for i, chunk in enumerate(chunks)]: the new value of
    [all_transcriptions]. *)
Definition transcribe_chunk (p : DecodeParams) (sampling_rate : Z)
    (all_transcriptions : list str) (chunk : list sample) : M (list str) :=
  try_except
    (chunk_transcription <- generate chunk sampling_rate p ;;
     if nonempty (strip chunk_transcription)
     then ret (all_transcriptions ++ [strip chunk_transcription])
     else ret all_transcriptions)
    (fun chunk_error => ret all_transcriptions).

Fixpoint transcribe_chunks (p : DecodeParams) (sampling_rate : Z)
    (chunks : list (list sample)) (all_transcriptions : list str)
    : M (list str) :=
  match chunks with
  | [] => ret all_transcriptions
  | chunk :: rest =>
      all_transcriptions <-
        transcribe_chunk p sampling_rate all_transcriptions chunk ;;
      transcribe_chunks p sampling_rate rest all_transcriptions
  end.

(** What follows the chunking loop in both chunked transcriptions. *)
Definition transcribe_segments (p : DecodeParams) (sampling_rate : Z)
    (segments : option (list (Segment sample))) : M str :=
  match segments with
  | None => diverge
  | Some segs =>
      all_transcriptions <-
        transcribe_chunks p sampling_rate (map seg_chunk segs) [] ;;
      match all_transcriptions with
      | [] => raise (HTTPException 500 (lit "No successful chunk transcriptions"))
      | _ => ret (clean_combined_transcription all_transcriptions)
      end
  end.

Definition transcribe_long_audio (audio_array : list sample)
    (sampling_rate : Z) : M str :=
  reraise_500 "Long audio transcription failed: "
    (transcribe_segments long_params sampling_rate
       (long_chunks zero audio_array sampling_rate)).

Definition transcribe_very_long_audio (audio_array : list sample)
    (sampling_rate : Z) : M str :=
  reraise_500 "Very long audio transcription failed: "
    (transcribe_segments very_long_params sampling_rate
       (very_long_chunks zero audio_array sampling_rate)).

(** Lines 239-251 of [transcribe_audio_file]: from the temporary file to
    the transcript. *)
Definition transcribe_by_duration (tmp_file_path : str) : M str :=
  preprocessed <- preprocess_audio tmp_file_path ;;
  let '(audio_array, sampling_rate) := preprocessed in
  let duration := duration audio_array sampling_rate in
  if Qgtb duration (600 # 1)
  then transcribe_very_long_audio audio_array sampling_rate
  else if Qgtb duration (30 # 1)
  then transcribe_long_audio audio_array sampling_rate
  else transcribe_short_audio audio_array sampling_rate.

Definition max_size : Z := 100 * 1024 * 1024.

Definition transcribe_audio_file (audio_file : UploadFile) : M str :=
  reraise_http "Critical error in transcription: "
    (content <- interact FileRead (fun _ => file audio_file) ;;
     if max_size <? len content
     then raise (HTTPException 413
            (lit "File too large. Please upload files smaller than 100MB."))
     else
       load_whisper_model ;;;
       tmp_file_path <- interact (TempWrite content)
                                 (fun h => temp_write E h content) ;;
       try_finally
         (transcribe_by_duration tmp_file_path)
         (interact (Unlink tmp_file_path) (fun _ => Returns tt))).
End Transcription.

(* ================================================================== *)
(** * Remote client: credential cache and chat requests *)

(** Truth value of an optional string: neither [None] nor empty. *)
Definition truthy (t : option str) : bool :=
  match t with
  | Some s => nonempty s
  | None => false
  end.

(** [str(n)] for a non-negative integer. *)
Definition str_of_nat (n : nat) : str :=
  lit (NilZero.string_of_uint (Nat.to_uint n)).

(** What an iteration of a [for] loop ends with: [return v] or going on
    to the next iteration. *)
Inductive control (A : Type) : Type :=
| Return (value : A)
| Continue.

Arguments Return {A} value.
Arguments Continue {A}.

Section RemoteClient.
Context {num : Type} `{PyNumber num} {sample : Type} (E : Env num sample).
Local Notation "'M'" := (M num sample).
Local Open Scope py_scope.

Definition set_cache_token (t : option str) : M unit :=
  cache <- get_token_cache ;;
  set_token_cache {| token := t; expiry := expiry cache |}.

Definition set_cache_expiry (x : num) : M unit :=
  cache <- get_token_cache ;;
  set_token_cache {| token := token cache; expiry := x |}.

(** [response.raise_for_status()]: an [HTTPError], which is a
    [RequestException], on a 4xx or 5xx status. *)
Definition raise_for_status (response : TokenResponse num) : M unit :=
  if (400 <=? token_status_code response) && (token_status_code response <? 600)
  then raise (RequestException (token_error response))
  else ret tt.

Definition get_access_token (api_key : str) (force_refresh : bool)
    : M (option str) :=
  reraise_500 E "Error getting access token: "
    (current_time <- interact TimeRead (fun h => Returns (time_time E h)) ;;
     cache <- get_token_cache ;;
     if negb force_refresh && truthy (token cache)
        && num_ltb current_time (expiry cache)
     then ret (token cache)
     else
       response <- interact (TokenPost api_key)
                            (fun h => post_token E h api_key) ;;
       raise_for_status response ;;;
       token_data <- lift (token_json response) ;;
       let access_token := access_token token_data in
       let expires_in :=
         match expires_in token_data with
         | Some seconds => seconds
         | None => num_of_Z 3600
         end in
       if truthy access_token
       then
         set_cache_token access_token ;;;
         set_cache_expiry
           (num_sub (num_add current_time expires_in) (num_of_Z 300)) ;;;
         ret access_token
       else ret None).

(** The [Authorization] header for a token. *)
Definition bearer (access_token : option str) : str :=
  lit "Bearer " ++ match access_token with Some t => t | None => lit "None" end.

(** The body of [for attempt in range(max_retries + 1)]. *)
Definition watsonx_attempt (payload : Payload) (api_key : str)
    (max_retries attempt : nat) : M (control (option ChatJson)) :=
  try_except
    (let force_refresh := (0 <? attempt)%nat in
     access_token <- get_access_token api_key force_refresh ;;
     if negb (truthy access_token)
     then raise (HTTPException 500 (lit "Failed to obtain access token"))
     else
       response <- interact (ChatPost (bearer access_token) payload)
                     (fun h => post_chat E h (bearer access_token) payload) ;;
       if status_code response =? 200
       then
         body <- lift (json response) ;;
         ret (Return body)
       else if (status_code response =? 401) && (attempt <? max_retries)%nat
       then
         set_cache_token None ;;;
         set_cache_expiry (num_of_Z 0) ;;;
         ret Continue
       else
         raise (HTTPException (status_code response)
                  (lit "WatsonX API Error: " ++ text response)))
    (fun e =>
       match e with
       | RequestException _ =>
           if (attempt =? max_retries)%nat
           then raise (HTTPException 500
                  (lit "Failed to connect to WatsonX API after "
                   ++ str_of_nat (max_retries + 1)
                   ++ lit " attempts: " ++ exn_str E e))
           else
             interact (Sleep 1) (fun _ => Returns tt) ;;;
             ret Continue
       | _ => raise e
       end).

(** The loop over [attempt], with [remaining] iterations still to run;
    after the last one the function returns [None]. *)
Fixpoint watsonx_attempts (payload : Payload) (api_key : str)
    (max_retries remaining attempt : nat) : M (option ChatJson) :=
  match remaining with
  | O => ret None
  | S remaining' =>
      outcome <- watsonx_attempt payload api_key max_retries attempt ;;
      match outcome with
      | Return value => ret value
      | Continue =>
          watsonx_attempts payload api_key max_retries remaining' (S attempt)
      end
  end.

Definition make_watsonx_request (payload : Payload) (api_key : str)
    (max_retries : nat) : M (option ChatJson) :=
  watsonx_attempts payload api_key max_retries (max_retries + 1) 0.
End RemoteClient.


(* ================================================================== *)
(** * Endpoints *)

(** The response models. *)
Record TranscriptionResponse : Type := {
  tr_transcription : str;
  tr_success : bool;
  tr_message : str
}.

Record IntentResponse : Type := {
  intent : str;
  ir_success : bool;
  ir_message : str
}.

Record ResolutionResponse : Type := {
  resolution : str;
  rr_success : bool;
  rr_message : str
}.

Record FullAnalysisResponse : Type := {
  fa_transcription : str;
  fa_intent : str;
  fa_resolution : str;
  fa_success : bool;
  fa_message : str
}.

(** [d.get(key)] on a dict with string keys and values. *)
Fixpoint dict_get (d : list (str * str)) (key : str) : option str :=
  match d with
  | [] => None
  | (k, v) :: d' => if str_eqb k key then Some v else dict_get d' key
  end.

(** [d.get(key, "")] *)
Definition dict_get_str (d : list (str * str)) (key : str) : str :=
  match dict_get d key with
  | Some v => v
  | None => []
  end.

(** The value of an environment variable once it is known to be set. *)
Definition env_value (v : option str) : str :=
  match v with
  | Some s => s
  | None => []
  end.

Definition chat_parameters (max_new_tokens : Z) : Parameters :=
  {| decoding_method := lit "greedy";
     max_new_tokens := max_new_tokens;
     temperature := 1 # 10;
     top_p := 9 # 10;
     repetition_penalty := 11 # 10 |}.

(** The system message of [recognize_intent_endpoint]. *)
Definition intent_system_message : str :=
  lit "You are an intent recognition system for business inquiries. 
        Analyze the transcribed text and identify the specific intent category.
        
        Possible intents:
        1. GST_REGISTRATION - Questions about GST registration process
        2. GST_COMPLIANCE - GST compliance issues or requirements
        3. GST_CALCULATION - GST calculation or tax amount queries
        4. LICENSE_APPLICATION - License application processes
        5. LICENSE_RENEWAL - License renewal or validity issues
        6. LICENSE_COMPLIANCE - License compliance requirements
        7. TAX_FILING - Tax filing procedures or deadlines
        8. BUSINESS_SETUP - General business setup queries
        9. DOCUMENTATION - Document requirements or submission
        10. OTHER - Any other business-related query
        
        Respond with ONLY the intent category (e.g., " ++ [34%N] ++ lit "GST_REGISTRATION" ++ [34%N] ++ lit ") and a brief 1-sentence description of what the user is asking about.".

(** The dict [resolution_templates] of [generate_resolution_endpoint], in
    source order. *)
Definition resolution_templates : list (str * str) :=
  [ (lit "GST_REGISTRATION",
     lit "You are a GST registration expert. Provide detailed step-by-step guidance for GST registration including:
            - Required documents and eligibility criteria
            - Online registration process on GST portal
            - Timeline and fees involved
            - Common issues and solutions");
    (lit "GST_COMPLIANCE",
     lit "You are a GST compliance specialist. Provide comprehensive compliance guidance including:
            - Monthly/quarterly filing requirements
            - Record keeping obligations
            - Compliance deadlines and penalties
            - Best practices for maintaining compliance");
    (lit "GST_CALCULATION",
     lit "You are a GST calculation expert. Provide detailed calculation guidance including:
            - GST rate applicable to specific goods/services
            - Input tax credit calculations
            - Reverse charge mechanism
            - Examples with step-by-step calculations");
    (lit "LICENSE_APPLICATION",
     lit "You are a business licensing expert. Provide comprehensive license application guidance including:
            - Types of licenses required for the business
            - Application process and required documents
            - Timelines and fees
            - Authority contacts and follow-up procedures");
    (lit "LICENSE_RENEWAL",
     lit "You are a license renewal specialist. Provide detailed renewal guidance including:
            - Renewal timelines and advance notice requirements
            - Required documents and fees
            - Online vs offline renewal processes
            - Consequences of delayed renewal");
    (lit "LICENSE_COMPLIANCE",
     lit "You are a license compliance expert. Provide comprehensive compliance guidance including:
            - Ongoing compliance requirements
            - Regular submissions and renewals
            - Inspection readiness
            - Penalty avoidance strategies");
    (lit "TAX_FILING",
     lit "You are a tax filing expert. Provide detailed filing guidance including:
            - Filing deadlines and procedures
            - Required forms and documents
            - Online filing process
            - Common errors and how to avoid them");
    (lit "BUSINESS_SETUP",
     lit "You are a business setup consultant. Provide comprehensive setup guidance including:
            - Business registration requirements
            - Legal structure recommendations
            - Required licenses and permits
            - Tax registrations needed");
    (lit "DOCUMENTATION",
     lit "You are a documentation specialist. Provide detailed document guidance including:
            - Required documents for specific processes
            - Document formats and specifications
            - Submission procedures
            - Document validity and renewal requirements");
    (lit "OTHER",
     lit "You are a general business consultant. Analyze the query and provide relevant business guidance including:
            - Understanding the specific requirement
            - Applicable regulations and procedures
            - Step-by-step action plan
            - Resources and contacts for further assistance") ].

(** The f-string [user_message] of [generate_resolution_endpoint]. *)
Definition resolution_user_message (intent content : str) : str :=
  lit "
        Identified Intent: "
  ++ intent
  ++ lit "
        
        Original Query: "
  ++ content
  ++ lit "
        
        Please provide a detailed, actionable resolution for this query. Include:
        1. Immediate steps to take
        2. Required documents or information
        3. Relevant deadlines or timelines
        4. Contact information or resources
        5. Potential challenges and solutions
        
        Format your response in a clear, professional manner suitable for business implementation.
        ".

(** The payload [recognize_intent_endpoint] sends. *)
Definition intent_payload (text_content model_id project_id : str) : Payload :=
  {| messages :=
       [ (lit "system", intent_system_message);
         (lit "user",
          lit "Identify the intent in this transcribed text: " ++ text_content) ];
     parameters := chat_parameters 100;
     model_id := model_id;
     project_id := project_id |}.

(** The payload [generate_resolution_endpoint] sends. *)
Definition resolution_payload (system_message intent content model_id project_id : str)
    : Payload :=
  {| messages :=
       [ (lit "system", system_message);
         (lit "user", resolution_user_message intent content) ];
     parameters := chat_parameters 1500;
     model_id := model_id;
     project_id := project_id |}.

Definition missing_environment : exn :=
  HTTPException 500
    (lit "Missing required environment variables (API_KEY, PROJECT_ID, MODEL_ID)").

Section Endpoints.
Context {num : Type} `{PyNumber num} {sample : Type} (zero : sample)
        (E : Env num sample).
Local Notation "'M'" := (M num sample).
Local Open Scope py_scope.

Definition transcribe_audio_endpoint (upload : UploadFile)
    : M TranscriptionResponse :=
  reraise_http E "Transcription failed: "
    (if negb (endswith (lower (filename upload)) (lit ".mp3"))
     then raise (HTTPException 400 (lit "Only MP3 files are supported"))
     else
       transcription <- transcribe_audio_file zero E upload ;;
       ret {| tr_transcription := transcription;
              tr_success := true;
              tr_message := lit "Transcription completed successfully" |}).

Definition recognize_intent_endpoint (content : list (str * str))
    : M IntentResponse :=
  reraise_http E "Intent recognition failed: "
    (let api_key := getenv E (lit "API_KEY") in
     let project_id := getenv E (lit "PROJECT_ID") in
     let model_id := getenv E (lit "MODEL_ID") in
     if negb (truthy api_key && truthy project_id && truthy model_id)
     then raise missing_environment
     else
       let text_content := dict_get_str content (lit "text") in
       if negb (nonempty text_content)
       then raise (HTTPException 400 (lit "Text content is required"))
       else
         let payload :=
           intent_payload text_content (env_value model_id) (env_value project_id) in
         result <- make_watsonx_request E payload (env_value api_key) 2 ;;
         match result with
         | Some body =>
             if is_empty body
             then raise (HTTPException 500
                           (lit "Failed to get intent recognition response"))
             else
               intent_response <- lift (content_of body) ;;
               ret {| intent := strip intent_response;
                      ir_success := true;
                      ir_message := lit "Intent recognition completed successfully" |}
         | None =>
             raise (HTTPException 500
                      (lit "Failed to get intent recognition response"))
         end).

Definition generate_resolution_endpoint (data : list (str * str))
    : M ResolutionResponse :=
  reraise_http E "Resolution generation failed: "
    (let api_key := getenv E (lit "API_KEY") in
     let project_id := getenv E (lit "PROJECT_ID") in
     let model_id := getenv E (lit "MODEL_ID") in
     if negb (truthy api_key && truthy project_id && truthy model_id)
     then raise missing_environment
     else
       let content := dict_get_str data (lit "content") in
       let intent := dict_get_str data (lit "intent") in
       if negb (nonempty content) || negb (nonempty intent)
       then raise (HTTPException 400 (lit "Both content and intent are required"))
       else
         (* intent.split()[0] if intent else "OTHER" *)
         intent_category <-
           (if nonempty intent
            then match split intent with
                 | first :: _ => ret first
                 | [] => raise (Exception (lit "list index out of range"))
                 end
            else ret (lit "OTHER")) ;;
         let intent_category :=
           match dict_get resolution_templates intent_category with
           | Some _ => intent_category
           | None => lit "OTHER"
           end in
         system_message <-
           match dict_get resolution_templates intent_category with
           | Some template => ret template
           | None => raise (Exception intent_category)       (* KeyError *)
           end ;;
         let payload :=
           resolution_payload system_message intent content
             (env_value model_id) (env_value project_id) in
         result <- make_watsonx_request E payload (env_value api_key) 2 ;;
         match result with
         | Some body =>
             if is_empty body
             then raise (HTTPException 500 (lit "Failed to get resolution response"))
             else
               resolution_response <- lift (content_of body) ;;
               ret {| resolution := strip resolution_response;
                      rr_success := true;
                      rr_message := lit "Resolution generated successfully" |}
         | None =>
             raise (HTTPException 500 (lit "Failed to get resolution response"))
         end).

Definition full_analysis_endpoint (upload : UploadFile)
    : M FullAnalysisResponse :=
  reraise_http E "Full analysis failed: "
    (if negb (endswith (lower (filename upload)) (lit ".mp3"))
     then raise (HTTPException 400 (lit "Only MP3 files are supported"))
     else
       let api_key := getenv E (lit "API_KEY") in
       if negb (truthy api_key)
       then raise (HTTPException 500
                     (lit "API_KEY not found in environment variables"))
       else
         (* Step 1: transcribe audio *)
         transcription <- transcribe_audio_file zero E upload ;;
         (* Step 2: recognize intent *)
         intent_result <-
           recognize_intent_endpoint [(lit "text", transcription)] ;;
         (* Step 3: generate resolution *)
         resolution_result <-
           generate_resolution_endpoint
             [(lit "content", transcription);
              (lit "intent", intent intent_result)] ;;
         ret {| fa_transcription := transcription;
                fa_intent := intent intent_result;
                fa_resolution := resolution resolution_result;
                fa_success := true;
                fa_message := lit "Full analysis completed successfully" |}).
End Endpoints.


(* ================================================================== *)
(** * Notions the statements use *)

(** The range of [s] is the window that starts at [seg_start s]: it lies
    inside the waveform and is cut at [chunk_samples] or at the end. *)
Definition window {sample} (audio_array : list sample) (chunk_samples : Z)
    (s : Segment sample) : Prop :=
  0 <= seg_start s < seg_end s /\
  seg_end s = Z.min (seg_start s + chunk_samples) (len audio_array).

(** The samples of [s]: its range of the waveform, followed by zeros up to
    [chunk_samples] unless it is the chunk that starts at 0. *)
Definition padded_slice {sample} (zero : sample) (audio_array : list sample)
    (chunk_samples : Z) (s : Segment sample) : Prop :=
  seg_chunk s =
  slice audio_array (seg_start s) (seg_end s)
  ++ repeat zero
       (Z.to_nat (if 0 <? seg_start s
                  then chunk_samples - (seg_end s - seg_start s)
                  else 0)).

(** [b] starts [overlap_samples] before the end of [a], and the two ranges
    share exactly that many samples. *)
Definition overlaps_by {sample} (overlap_samples : Z) (a b : Segment sample) : Prop :=
  seg_start b = seg_end a - overlap_samples /\
  overlap a b = overlap_samples.

(** Every sample index of [[lo, hi)] lies in the range of some segment. *)
Definition covers {sample} (lo hi : Z) (segs : list (Segment sample)) : Prop :=
  forall i, lo <= i < hi -> Exists (fun s => in_range s i) segs.

(** A plan for the whole waveform. *)
Definition good_plan {sample} (zero : sample) (audio_array : list sample)
    (chunk_samples overlap_samples : Z) (segs : list (Segment sample)) : Prop :=
  covers 0 (len audio_array) segs /\
  Forall (window audio_array chunk_samples) segs /\
  Forall (padded_slice zero audio_array chunk_samples) segs /\
  chain (overlaps_by overlap_samples) segs.

(** The world [w] after the events [evs], caches untouched. *)
Definition log {num sample} (w : World num sample) (evs : list (Event sample))
    : World num sample :=
  {| access_token_cache := access_token_cache w;
     whisper_model_cache := whisper_model_cache w;
     events := events w ++ evs |}.

(** The transcription function [transcribe_audio_file] calls for a tier. *)
Definition transcribe_tier {num sample} (zero : sample) (E : Env num sample)
    (t : Tier) : list sample -> Z -> M num sample str :=
  match t with
  | SHORT => transcribe_short_audio E
  | LONG => transcribe_long_audio zero E
  | VERY_LONG => transcribe_very_long_audio zero E
  end.

(** What one chunk yields when the model is called on it after the events
    [history]: its stripped transcript, or nothing when the call raises
    or the transcript is blank. *)
Definition chunk_result {num sample} (E : Env num sample) (p : DecodeParams)
    (sampling_rate : Z) (history : list (Event sample)) (chunk : list sample)
    : option str :=
  match whisper E history chunk sampling_rate p with
  | Returns transcription =>
      if nonempty (strip transcription) then Some (strip transcription) else None
  | Raises _ => None
  end.

(** The results of the chunks, in chunk order; each call is one more
    event for the next. *)
Fixpoint chunk_results {num sample} (E : Env num sample) (p : DecodeParams)
    (sampling_rate : Z) (history : list (Event sample))
    (chunks : list (list sample)) : list (option str) :=
  match chunks with
  | [] => []
  | chunk :: rest =>
      chunk_result E p sampling_rate history chunk
      :: chunk_results E p sampling_rate
           (history ++ [Generate chunk sampling_rate p]) rest
  end.

(** The transcripts that are there, in the order of the list. *)
Fixpoint survivors (results : list (option str)) : list str :=
  match results with
  | [] => []
  | Some t :: rest => t :: survivors rest
  | None :: rest => survivors rest
  end.

(** The events of transcribing [chunks] one after the other. *)
Definition generate_events {sample} (p : DecodeParams) (sampling_rate : Z)
    (chunks : list (list sample)) : list (Event sample) :=
  map (fun chunk => Generate chunk sampling_rate p) chunks.

(** The error a chunked transcription ends with when no chunk gave a
    transcript: the inner [HTTPException], wrapped by the handler of the
    function. *)
Definition no_transcription_produced {num sample} (E : Env num sample)
    (prefix : string) : exn :=
  HTTPException 500
    (lit prefix
     ++ exn_str E (HTTPException 500 (lit "No successful chunk transcriptions"))).

(** What a chunked transcription of [segs] from the world [w] must give. *)
Definition batch_outcome {num sample} (E : Env num sample) (p : DecodeParams)
    (sampling_rate : Z) (prefix : string) (segs : list (Segment sample))
    (w : World num sample) (out : result str * World num sample) : Prop :=
  let chunks := map seg_chunk segs in
  let results := chunk_results E p sampling_rate (events w) chunks in
  snd out = log w (generate_events p sampling_rate chunks) /\
  (Forall (fun r => r = None) results ->
   fst out = Raise (no_transcription_produced E prefix)) /\
  (Exists (fun r => r <> None) results ->
   fst out = Ok (clean_combined_transcription (survivors results))).


(** The world [w] with the credential cache replaced by [c]. *)
Definition with_cache {num sample} (w : World num sample) (c : TokenCache num)
    : World num sample :=
  {| access_token_cache := c;
     whisper_model_cache := whisper_model_cache w;
     events := events w |}.

(** [get_access_token] answers from the cache: no refresh is forced, a
    token is cached and the time read is before its expiry. *)
Definition cache_hit {num} `{PyNumber num} (force_refresh : bool)
    (cache : TokenCache num) (now : num) : bool :=
  negb force_refresh && truthy (token cache) && num_ltb now (expiry cache).

(** [raise_for_status] raises on this status. *)
Definition error_status (status : Z) : bool :=
  (400 <=? status) && (status <? 600).

(** The error [get_access_token] raises for the exception [e]. *)
Definition token_error_for {num sample} (E : Env num sample) (e : exn) : exn :=
  HTTPException 500 (lit "Error getting access token: " ++ exn_str E e).

(** ["expires_in"] with its default. *)
Definition expires_in_or_default {num} `{PyNumber num} (data : TokenData num) : num :=
  match expires_in data with
  | Some seconds => seconds
  | None => num_of_Z 3600
  end.

(** Running [m] adds events that all satisfy [P], whatever the world. *)
Definition emits {num sample A} (P : Event sample -> Prop)
    (m : M num sample A) : Prop :=
  forall w, exists evs,
    events (snd (m w)) = events w ++ evs /\ Forall P evs.

(** An event of the transcription pipeline: neither a credential exchange
    nor a chat request. *)
Definition local_event {sample} (e : Event sample) : Prop :=
  match e with
  | TokenPost _ | ChatPost _ _ => False
  | _ => True
  end.

(** An event that is not a chat request, or is one with [payload]. *)
Definition posts_only {sample} (payload : Payload) (e : Event sample) : Prop :=
  match e with
  | ChatPost _ sent => sent = payload
  | _ => True
  end.

(** The 400 error of the two upload endpoints. *)
Definition only_mp3 : exn :=
  HTTPException 400 (lit "Only MP3 files are supported").

(** Number of chat requests among the events. *)
Fixpoint chat_posts {sample} (history : list (Event sample)) : nat :=
  match history with
  | [] => O
  | ChatPost _ _ :: rest => S (chat_posts rest)
  | _ :: rest => chat_posts rest
  end.

(** Number of credential exchanges among the events. *)
Fixpoint token_posts {sample} (history : list (Event sample)) : nat :=
  match history with
  | [] => O
  | TokenPost _ :: rest => S (token_posts rest)
  | _ :: rest => token_posts rest
  end.

(** The payloads of the chat requests among the events, in order. *)
Fixpoint chat_payloads {sample} (history : list (Event sample)) : list Payload :=
  match history with
  | [] => []
  | ChatPost _ payload :: rest => payload :: chat_payloads rest
  | _ :: rest => chat_payloads rest
  end.

(** Running [m] adds at most [n] chat requests, whatever the world. *)
Definition posts_at_most {num sample A} (n : nat) (m : M num sample A) : Prop :=
  forall w, exists evs,
    events (snd (m w)) = events w ++ evs /\ (chat_posts evs <= n)%nat.

(** An event other than a chat request. *)
Definition not_chat_post {sample} (e : Event sample) : Prop :=
  match e with
  | ChatPost _ _ => False
  | _ => True
  end.

(** The credential cache after [make_watsonx_request] saw a 401. *)
Definition cleared_cache {num} `{PyNumber num} : TokenCache num :=
  {| token := None; expiry := num_of_Z 0 |}.

(** The world in which a call [make_watsonx_request(payload, api_key,
    max_retries)] that starts in [w0] comes to iteration [attempt] of its
    loop, if it does: every iteration before ended without returning or
    raising, and was not the last of [range(max_retries + 1)]. *)
Fixpoint attempt_world {num} `{PyNumber num} {sample} (E : Env num sample)
    (payload : Payload) (api_key : str) (max_retries attempt : nat)
    (w0 : World num sample) : option (World num sample) :=
  match attempt with
  | O => Some w0
  | S before =>
      match attempt_world E payload api_key max_retries before w0 with
      | Some w =>
          match watsonx_attempt E payload api_key max_retries before w with
          | (Ok Continue, w') =>
              if (before <? max_retries)%nat then Some w' else None
          | _ => None
          end
      | None => None
      end
  end.

(** The cache holds no token or a non-empty one: what the program calls a
    cached token is then any token in the cache. *)
Definition token_cached_ok {num sample} (w : World num sample) : Prop :=
  forall tok, token (access_token_cache w) = Some tok -> tok <> [].

(** Running [m] keeps [token_cached_ok]. *)
Definition keeps_token_ok {num sample A} (m : M num sample A) : Prop :=
  forall w, token_cached_ok w -> token_cached_ok (snd (m w)).

(* ================================================================== *)
(** * Example inputs *)

(** Half a million silent samples: 31.25 seconds at 16 kHz. *)
Definition silence_31s : list Z := repeat 0 (Z.to_nat 500000).


(** Seventy samples [0; 1; ...; 69]. *)
Definition ramp70 : list Z := map Z.of_nat (seq 0 70).

(** [str(e)] as Starlette and Python have it. *)
Definition example_exn_str (e : exn) : str :=
  match e with
  | HTTPException status_code detail =>
      str_of_nat (Z.to_nat status_code) ++ lit ": " ++ detail
  | RequestException message => message
  | Exception message => message
  end.

(** A token response with status 200 and the given body. *)
Definition token_ok (data : TokenData Z) : answer (TokenResponse Z) :=
  Returns {| token_status_code := 200; token_error := [];
             token_json := Returns data |}.

(** A chat response with the given status; its body is [reply]. *)
Definition chat_reply (status : Z) (reply : string) : answer ChatResponse :=
  Returns {| status_code := status; text := lit reply;
             json := Returns (Some {| is_empty := false;
                                      content_of := Returns (lit reply) |}) |}.

(** An outside with all three environment variables set, where the clock
    advances by one second per event from 1000, the uploaded audio decodes
    to [ramp70] at 16 kHz, and the IAM endpoint, the chat endpoint and the
    speech model answer as the arguments say. *)
Definition example_env
    (tokens : list (Event Z) -> answer (TokenResponse Z))
    (chat : list (Event Z) -> answer ChatResponse)
    (model : list (Event Z) -> list Z -> answer str) : Env Z Z :=
  {| time_time := fun history => 1000 + len history;
     post_token := fun history _ => tokens history;
     post_chat := fun history _ _ => chat history;
     getenv := fun name => Some (lit "value-of-" ++ name);
     from_pretrained := fun _ => Returns tt;
     temp_write := fun _ _ => Returns (lit "/tmp/tmpa1b2c3.mp3");
     librosa_load := fun _ _ => Returns (ramp70, 16000);
     librosa_normalize := fun audio => Returns audio;
     librosa_trim := fun audio => Returns audio;
     librosa_preemphasis := fun audio => Returns audio;
     librosa_resample := fun audio _ _ => Returns audio;
     whisper := fun history chunk _ _ => model history chunk;
     exn_str := example_exn_str |}.

(** The IAM endpoint hands out tokens ["token-0"], ["token-1"], ... that
    last an hour. *)
Definition fresh_tokens (history : list (Event Z)) : answer (TokenResponse Z) :=
  token_ok {| access_token := Some (lit "token-" ++ str_of_nat (token_posts history));
              expires_in := Some 3600 |}.

(** The IAM endpoint answers 200 with a body that has no token. *)
Definition tokenless (history : list (Event Z)) : answer (TokenResponse Z) :=
  token_ok {| access_token := None; expires_in := None |}.

(** The IAM endpoint answers 302 with a body that holds a token. *)
Definition redirected (history : list (Event Z)) : answer (TokenResponse Z) :=
  Returns {| token_status_code := 302; token_error := [];
             token_json := Returns {| access_token := Some (lit "token-302");
                                      expires_in := Some 3600 |} |}.

(** The IAM endpoint answers 503. *)
Definition unavailable (history : list (Event Z)) : answer (TokenResponse Z) :=
  Returns {| token_status_code := 503;
             token_error := lit "503 Server Error: Service Unavailable";
             token_json := Raises (Exception (lit "Expecting value")) |}.

(** The IAM endpoint cannot be reached. *)
Definition unreachable (history : list (Event Z)) : answer (TokenResponse Z) :=
  Raises (RequestException (lit "Connection refused")).

(** The chat endpoint answers 401 to the first request and 200 after. *)
Definition chat_401_then_ok (history : list (Event Z)) : answer ChatResponse :=
  match chat_posts history with
  | O => chat_reply 401 "token expired"
  | _ => chat_reply 200 "GST_REGISTRATION The caller asks how to register."
  end.

(** The chat endpoint answers every request with [status]. *)
Definition chat_always (status : Z) (history : list (Event Z)) : answer ChatResponse :=
  chat_reply status "GST_REGISTRATION The caller asks how to register.".

(** The chat endpoint cannot be reached at first and answers 200 after. *)
Definition chat_down_then_ok (history : list (Event Z)) : answer ChatResponse :=
  match chat_posts history with
  | O => Raises (RequestException (lit "Connection reset by peer"))
  | _ => chat_reply 200 "GST_REGISTRATION The caller asks how to register."
  end.

(** The speech model: the chunk that starts at sample 28 cannot be
    decoded, the one at 0 reads "the quick brown fox", the others "brown
    fox jumps over". *)
Definition model_middle_fails (history : list (Event Z)) (chunk : list Z)
    : answer str :=
  match chunk with
  | 0 :: _ => Returns (lit " the quick brown fox ")
  | 28 :: _ => Raises (Exception (lit "CUDA out of memory"))
  | _ => Returns (lit "brown fox jumps over")
  end.

(** The speech model fails on every input. *)
Definition model_fails (history : list (Event Z)) (chunk : list Z) : answer str :=
  Raises (Exception (lit "CUDA out of memory")).

(** The speech model hears one sentence whatever the input. *)
Definition model_hears (history : list (Event Z)) (chunk : list Z) : answer str :=
  Returns (lit " How do I register for GST? ").

(** The world when the process starts. *)
Definition initial_world : World Z Z :=
  {| access_token_cache := {| token := None; expiry := 0 |};
     whisper_model_cache := false;
     events := [] |}.

(** A world with a cached token that expires at time [expires]. *)
Definition cached_world (expires : Z) : World Z Z :=
  {| access_token_cache := {| token := Some (lit "cached-token"); expiry := expires |};
     whisper_model_cache := true;
     events := [] |}.

Definition example_payload : Payload :=
  intent_payload (lit "How do I register for GST?") (lit "model") (lit "project").

Definition mp3_upload : UploadFile :=
  {| filename := lit "Call-0042.MP3"; file := Returns [] |}.

Definition wav_upload : UploadFile :=
  {| filename := lit "call-0042.wav"; file := Returns [] |}.


(** Fresh tokens, a chat endpoint that rejects the first token. *)
Definition retry_env : Env Z Z :=
  example_env fresh_tokens chat_401_then_ok model_hears.

(** The world after the first token of [retry_env] was fetched. *)
Definition first_token_world : World Z Z :=
  snd (get_access_token retry_env (lit "key") false initial_world).

(** The 401 response of [retry_env]. *)
Definition rejected : ChatResponse :=
  {| status_code := 401; text := lit "token expired";
     json := Returns (Some {| is_empty := false;
                              content_of := Returns (lit "token expired") |}) |}.

(** The speech model fails; the chat endpoint would answer. *)
Definition deaf_env : Env Z Z :=
  example_env fresh_tokens (chat_always 200) model_fails.

(** The speech model hears the question; the chat endpoint answers 500. *)
Definition broken_chat_env : Env Z Z :=
  example_env fresh_tokens (chat_always 500) model_hears.


(* ================================================================== *)
(** * Further notions *)

(** The waveform read back from the chunks of a plan: the first chunk,
    then every later chunk without its first [overlap_samples] samples,
    cut at [n] samples. *)
Definition reassemble {A} (overlap_samples n : Z) (chunks : list (list A)) : list A :=
  match chunks with
  | [] => []
  | first :: rest =>
      firstn (Z.to_nat n)
        (first ++ concat (map (skipn (Z.to_nat overlap_samples)) rest))
  end.

(** The number of chunks the loop cuts from [n > 0] samples. *)
Definition chunk_count (n chunk_samples overlap_samples : Z) : Z :=
  1 + Z.max 0 ((n - overlap_samples - 1) / (chunk_samples - overlap_samples)).

(** The reconciler's step seen on word lists: the words of [next] after
    the overlap found are appended to the combined words. *)
Definition merge_words (combined_words next_words : list str) : list str :=
  combined_words
  ++ skipn (find_overlap combined_words next_words
              (max_overlap combined_words next_words))
           next_words.

(** Number of [time.sleep] calls among the events. *)
Fixpoint sleeps {sample} (history : list (Event sample)) : nat :=
  match history with
  | [] => O
  | Sleep _ :: rest => S (sleeps rest)
  | _ :: rest => sleeps rest
  end.

(** The error [make_watsonx_request] ends with when the chat endpoint
    could not be reached in any attempt. *)
Definition failed_to_connect {num sample} (E : Env num sample)
    (max_retries : nat) (last : exn) : exn :=
  HTTPException 500
    (lit "Failed to connect to WatsonX API after "
     ++ str_of_nat (max_retries + 1) ++ lit " attempts: " ++ exn_str E last).

(** The IAM endpoint answers every exchange of [api_key] with a token. *)
Definition always_grants {num sample} (E : Env num sample) (api_key : str) : Prop :=
  forall history, exists response data,
    post_token E history api_key = Returns response /\
    error_status (token_status_code response) = false /\
    token_json response = Returns data /\
    truthy (access_token data) = true.

(** The chat endpoint cannot be reached, whatever is sent. *)
Definition chat_unreachable {num sample} (E : Env num sample) : Prop :=
  forall history bearer payload, exists message,
    post_chat E history bearer payload = Raises (RequestException message).

(** The chat endpoint is never reachable. *)
Definition chat_down (history : list (Event Z)) : answer ChatResponse :=
  Raises (RequestException (lit "Connection refused")).

Definition offline_env : Env Z Z := example_env fresh_tokens chat_down model_hears.

(** The chat endpoint answers every request with status 401. *)
Definition chat_rejects {num sample} (E : Env num sample) : Prop :=
  forall history bearer payload, exists response,
    post_chat E history bearer payload = Returns response /\
    status_code response = 401.

(** [e] is a [RequestException]. *)
Definition is_request_exception (e : exn) : Prop :=
  match e with
  | RequestException _ => True
  | _ => False
  end.

(** The last event is the chat request that carried [tok]. *)
Definition last_post_carried {sample} (history : list (Event sample))
    (payload : Payload) (tok : str) : Prop :=
  exists before, history = before ++ [ChatPost (bearer (Some tok)) payload].

(** The last event is a chat request that was answered 200 with the JSON
    body [null]. *)
Definition null_body_answered {num sample} (E : Env num sample)
    (payload : Payload) (history : list (Event sample)) : Prop :=
  exists before auth response,
    history = before ++ [ChatPost auth payload] /\
    post_chat E before auth payload = Returns response /\
    status_code response = 200 /\
    json response = Returns None.

(* ================================================================== *)
(** * The health endpoint *)

(** The JSON object [/health] returns, flattened. *)
Record HealthResponse : Type := {
  health_status : str;
  api_key_configured : bool;
  project_id_configured : bool;
  model_id_configured : bool;
  has_cached_token : bool;
  token_valid : bool
}.

Section Health.
Context {num : Type} `{PyNumber num} {sample : Type} (E : Env num sample).
Local Open Scope py_scope.

Definition health_check : M num sample HealthResponse :=
  let api_key := getenv E (lit "API_KEY") in
  let project_id := getenv E (lit "PROJECT_ID") in
  let model_id := getenv E (lit "MODEL_ID") in
  cache <- get_token_cache ;;
  (* time.time() < cache["expiry"] if cache["token"] else False *)
  valid <-
    (if truthy (token cache)
     then (now <- interact TimeRead (fun h => Returns (time_time E h)) ;;
           ret (num_ltb now (expiry cache)))
     else ret false) ;;
  ret {| health_status := lit "healthy";
         api_key_configured := truthy api_key;
         project_id_configured := truthy project_id;
         model_id_configured := truthy model_id;
         has_cached_token := truthy (token cache);
         token_valid := valid |}.
End Health.

(* ================================================================== *)
(** * Notions for the further properties *)

(** Running [m] always ends: it returns or raises. *)
Definition always_ends {num sample A} (m : M num sample A) : Prop :=
  forall w, fst (m w) <> Diverge.

(** An [HTTPException] with status 500. *)
Definition is_http_500 (e : exn) : Prop :=
  exists detail, e = HTTPException 500 detail.

(** An [HTTPException], whatever its status. *)
Definition is_http (e : exn) : Prop :=
  match e with
  | HTTPException _ _ => True
  | _ => False
  end.

(** The 413 error of [transcribe_audio_file]. *)
Definition file_too_large : exn :=
  HTTPException 413
    (lit "File too large. Please upload files smaller than 100MB.").

(** What leaves the handlers [except HTTPException: raise] and
    [except Exception as e: raise HTTPException(500, f"{prefix}{str(e)}")]
    when [e] is raised under them. *)
Definition passed_on {num sample} (E : Env num sample) (prefix : string)
    (e : exn) : exn :=
  match e with
  | HTTPException _ _ => e
  | _ => HTTPException 500 (lit prefix ++ exn_str E e)
  end.

(** An event of decoding and transcribing: loading the audio or calling
    the speech model. *)
Definition decoding_event {sample} (e : Event sample) : Prop :=
  match e with
  | AudioLoad _ | Generate _ _ _ => True
  | _ => False
  end.

(** The speech model returns only whitespace, whatever it hears. *)
Definition model_silent (history : list (Event Z)) (chunk : list Z) : answer str :=
  Returns (lit "   ").

(** The speech model hears nothing; the chat endpoint would answer. *)
Definition silent_env : Env Z Z :=
  example_env fresh_tokens (chat_always 200) model_silent.

(** The chat endpoint answers 200 with a blank reply. *)
Definition chat_blank (history : list (Event Z)) : answer ChatResponse :=
  chat_reply 200 "  ".

Definition blank_intent_env : Env Z Z :=
  example_env fresh_tokens chat_blank model_hears.

(** All three environment variables the chat endpoints need are set. *)
Definition environment_set {num sample} (E : Env num sample) : bool :=
  truthy (getenv E (lit "API_KEY")) && truthy (getenv E (lit "PROJECT_ID"))
  && truthy (getenv E (lit "MODEL_ID")).

(** The 400 errors of the two chat endpoints. *)
Definition text_required : exn :=
  HTTPException 400 (lit "Text content is required").

Definition content_and_intent_required : exn :=
  HTTPException 400 (lit "Both content and intent are required").

(** An outside like [example_env] with no [PROJECT_ID] set. *)
Definition no_project_env : Env Z Z :=
  {| time_time := fun history => 1000 + len history;
     post_token := fun history _ => fresh_tokens history;
     post_chat := fun history _ _ => chat_always 200 history;
     getenv := fun name => if str_eqb name (lit "PROJECT_ID") then None
                           else Some (lit "value-of-" ++ name);
     from_pretrained := fun _ => Returns tt;
     temp_write := fun _ _ => Returns (lit "/tmp/tmpa1b2c3.mp3");
     librosa_load := fun _ _ => Returns (ramp70, 16000);
     librosa_normalize := fun audio => Returns audio;
     librosa_trim := fun audio => Returns audio;
     librosa_preemphasis := fun audio => Returns audio;
     librosa_resample := fun audio _ _ => Returns audio;
     whisper := fun history chunk _ _ => model_hears history chunk;
     exn_str := example_exn_str |}.

(** A request body for [/generate-resolution]. *)
Definition resolution_request (content intent : string) : list (str * str) :=
  [(lit "content", lit content); (lit "intent", lit intent)].



(** The chat endpoint answers 200 with the JSON body [null]. *)
Definition chat_null (history : list (Event Z)) : answer ChatResponse :=
  Returns {| status_code := 200; text := lit "null"; json := Returns None |}.

Definition null_body_env : Env Z Z :=
  example_env fresh_tokens chat_null model_hears.

(* ================================================================== *)
(** * Theorems *)


(* ------------------------------------------------------------------ *)
(** ** Tier selection *)

Lemma duration_gtb {A} (audio_array : list A) (sampling_rate k : Z) :
  0 < sampling_rate ->
  Qgtb (duration audio_array sampling_rate) (k # 1)
  = (k * sampling_rate <? len audio_array).
Proof.
  intros Hsr. unfold Qgtb, duration, Qle_bool.
  destruct sampling_rate as [|p|p]; try lia.
  cbn [Qdiv Qinv Qmult inject_Z Qnum Qden].
  rewrite Pos.mul_1_l, !Z.mul_1_r.
  destruct (Z.leb_spec (len audio_array) (k * Z.pos p));
    destruct (Z.ltb_spec (k * Z.pos p) (len audio_array)); cbn; lia.
Qed.

Lemma select_tier_duration {A} (audio_array : list A) (sampling_rate : Z) :
  0 < sampling_rate ->
  select_tier (duration audio_array sampling_rate)
  = if 600 * sampling_rate <? len audio_array then VERY_LONG
    else if 30 * sampling_rate <? len audio_array then LONG
    else SHORT.
Proof.
  intros Hsr. unfold select_tier. now rewrite !duration_gtb.
Qed.

(* ------------------------------------------------------------------ *)
(** ** The chunking loop *)

Lemma len_nonneg {A} (l : list A) : 0 <= len l.
Proof. unfold len. lia. Qed.

Lemma slice_len {A} (l : list A) (start stop : Z) :
  0 <= start <= stop -> stop <= len l -> len (slice l start stop) = stop - start.
Proof.
  unfold len, slice. intros H1 H2.
  rewrite length_firstn, length_skipn. lia.
Qed.

Section ChunkLoop.
Context {sample : Type} (zero : sample).
Variables (audio_array : list sample) (chunk_samples overlap_samples : Z).
Hypothesis Hov : 0 <= overlap_samples < chunk_samples.

Let n := len audio_array.

(** With enough fuel the loop returns, and what it returns from [start]
    is a chain of windows that reaches the end of the waveform. *)
Lemma chunk_loop_ranges (fuel : nat) (start : Z) :
  0 <= start < n ->
  (Z.to_nat (n - start) <= fuel)%nat ->
  exists s rest,
    chunk_loop zero fuel audio_array chunk_samples overlap_samples start
    = Some (s :: rest) /\
    seg_start s = start /\
    covers start n (s :: rest) /\
    Forall (window audio_array chunk_samples) (s :: rest) /\
    Forall (padded_slice zero audio_array chunk_samples) (s :: rest) /\
    chain (overlaps_by overlap_samples) (s :: rest).
Proof.
  revert start. induction fuel as [|fuel IH]; intros start Hs Hfuel; [lia|].
  cbn [chunk_loop]. fold n.
  destruct (Z.ltb_spec start n) as [_|]; [|lia].
  set (stop := Z.min (start + chunk_samples) n).
  assert (Hlen : len (slice audio_array start stop) = stop - start)
    by (apply slice_len; subst stop n; lia).
  rewrite Hlen.
  set (chunk := if (stop - start <? chunk_samples) && (0 <? start)
                then _ else _).
  set (seg := {| seg_start := start; seg_end := stop; seg_chunk := chunk |}).
  assert (Hwin : window audio_array chunk_samples seg)
    by (unfold window; cbn; fold n; subst stop; lia).
  assert (Hpad : padded_slice zero audio_array chunk_samples seg).
  { unfold padded_slice; cbn. subst chunk.
    destruct (Z.ltb_spec (stop - start) chunk_samples);
      destruct (Z.ltb_spec 0 start); cbn [andb]; unfold np_pad;
      rewrite ?Hlen; try reflexivity.
    - now rewrite app_nil_r.
    - replace (chunk_samples - (stop - start)) with 0 by (subst stop; lia).
      now rewrite app_nil_r.
    - now rewrite app_nil_r. }
  destruct (Z.leb_spec n stop) as [Hend|Hmore].
  - exists seg, []. repeat split; auto.
    intros i Hi. constructor. unfold in_range; cbn. lia.
  - assert (Hstop : stop = start + chunk_samples) by (subst stop; lia).
    destruct (IH (stop - overlap_samples)) as (s & rest & -> & Hs0 & Hcov & Hw & Hp & Hch);
      [lia | lia |].
    exists seg, (s :: rest). cbn [option_map]. repeat split; auto.
    + intros i Hi. destruct (Z.lt_ge_cases i stop).
      * constructor. unfold in_range; cbn. lia.
      * apply Exists_cons_tl, Hcov. lia.
    + unfold overlap. cbn [seg_start seg_end seg].
      inversion Hw as [|? ? [Hr He] _]; subst.
      rewrite Hs0 in *. fold n in He. lia.
Qed.

(** The loop of the program, from [start = 0], returns a good plan for
    every waveform that is not empty. *)
Lemma split_chunks_returns :
  0 < n ->
  exists segs,
    split_chunks zero audio_array chunk_samples overlap_samples = Some segs /\
    good_plan zero audio_array chunk_samples overlap_samples segs.
Proof.
  intros Hn. unfold split_chunks.
  destruct (chunk_loop_ranges (S (length audio_array)) 0)
    as (s & rest & -> & _ & Hcov & Hw & Hp & Hch).
  - lia.
  - subst n. unfold len. lia.
  - exists (s :: rest). repeat split; auto.
Qed.
End ChunkLoop.

(** C1. For every waveform that [transcribe_audio_file] hands to
    [transcribe_long_audio] (tier LONG) or [transcribe_very_long_audio]
    (tier VERY_LONG), the chunking loop returns, the ranges of its chunks
    cover every sample index of [[0, len(waveform))], each range is the
    window of [chunk_samples] at its start cut at the end of the waveform,
    each chunk is its range of the waveform followed by the zero padding,
    and every two consecutive ranges share exactly [overlap_samples]
    samples: 2 seconds for LONG, 1 second for VERY_LONG.  The padding of
    the last chunk lies past the end of the waveform, so the last pair
    shares exactly [overlap_samples] samples of the waveform as well. *)
Theorem chunk_plan_covers_and_overlaps {sample} (zero : sample)
    (audio_array : list sample) (sampling_rate : Z) :
  0 < sampling_rate ->
  (select_tier (duration audio_array sampling_rate) = LONG ->
   exists segs,
     long_chunks zero audio_array sampling_rate = Some segs /\
     good_plan zero audio_array (30 * sampling_rate) (2 * sampling_rate) segs)
  /\
  (select_tier (duration audio_array sampling_rate) = VERY_LONG ->
   exists segs,
     very_long_chunks zero audio_array sampling_rate = Some segs /\
     good_plan zero audio_array (20 * sampling_rate) (1 * sampling_rate) segs).
Proof.
  intros Hsr. rewrite select_tier_duration by assumption.
  pose proof (len_nonneg audio_array) as Hn.
  split; intros Htier.
  - apply split_chunks_returns; [lia|].
    destruct (600 * sampling_rate <? len audio_array); [discriminate|].
    destruct (Z.ltb_spec (30 * sampling_rate) (len audio_array));
      [lia | discriminate].
  - apply split_chunks_returns; [lia|].
    destruct (Z.ltb_spec (600 * sampling_rate) (len audio_array)); [lia|].
    destruct (30 * sampling_rate <? len audio_array); discriminate.
Qed.

Lemma chunk_plan_covers_and_overlaps_witness :
  exists segs,
    long_chunks 0 silence_31s 16000 = Some segs /\
    good_plan 0 silence_31s (30 * 16000) (2 * 16000) segs.
Proof.
  refine (proj1 (chunk_plan_covers_and_overlaps 0 silence_31s 16000 _) _).
  - reflexivity.
  - vm_compute. reflexivity.
Defined.

(* ------------------------------------------------------------------ *)
(** ** Strings *)

Lemma str_eqb_eq (a b : str) : str_eqb a b = true <-> a = b.
Proof.
  revert b. induction a as [|x a IH]; destruct b as [|y b]; cbn;
    try (split; (discriminate || reflexivity)).
  rewrite andb_true_iff, N.eqb_eq, IH. split.
  - intros [-> ->]. reflexivity.
  - intros [= -> ->]. auto.
Qed.

Lemma words_eqb_eq (a b : list str) : words_eqb a b = true <-> a = b.
Proof.
  revert b. induction a as [|x a IH]; destruct b as [|y b]; cbn;
    try (split; (discriminate || reflexivity)).
  rewrite andb_true_iff, str_eqb_eq, IH. split.
  - intros [-> ->]. reflexivity.
  - intros [= -> ->]. auto.
Qed.

Lemma lstrip_no_leading_space (s : str) : no_leading_space (lstrip s).
Proof.
  induction s as [|c s IH]; cbn; [exact I|].
  destruct (isspace c) eqn:Hc; [exact IH | exact Hc].
Qed.

(** [lstrip] removes a prefix and nothing else. *)
Lemma lstrip_suffix (s : str) : exists spaces, s = spaces ++ lstrip s.
Proof.
  induction s as [|c s [spaces IH]]; cbn.
  - exists []. reflexivity.
  - destruct (isspace c).
    + exists (c :: spaces). cbn. now rewrite <- IH.
    + exists []. reflexivity.
Qed.

Lemma rstrip_keeps_head (s : str) :
  no_leading_space s -> no_leading_space (rstrip s).
Proof.
  unfold rstrip. intros Hs.
  destruct (lstrip_suffix (rev s)) as [spaces Hsp].
  apply (f_equal (@rev char)) in Hsp.
  rewrite rev_involutive, rev_app_distr in Hsp.
  destruct (rev (lstrip (rev s))) as [|c r]; [exact I|].
  rewrite Hsp in Hs. exact Hs.
Qed.

Lemma strip_trimmed (s : str) : trimmed (strip s).
Proof.
  unfold strip. split.
  - apply rstrip_keeps_head, lstrip_no_leading_space.
  - unfold rstrip. rewrite rev_involutive. apply lstrip_no_leading_space.
Qed.

(* ------------------------------------------------------------------ *)
(** ** Overlap reconciler *)

(** The search returns the largest overlap length, at most [bound], at
    which the two word lists agree, and 0 when there is none. *)
Lemma find_overlap_largest (combined_words current_words : list str) (bound : nat) :
  let k := find_overlap combined_words current_words bound in
  (k <= bound)%nat /\
  ((0 < k)%nat -> last_n k combined_words = firstn k current_words) /\
  (forall j, (k < j <= bound)%nat ->
             last_n j combined_words <> firstn j current_words).
Proof.
  induction bound as [|b IH]; cbn [find_overlap].
  - cbn. repeat split; intros; lia.
  - destruct (words_eqb _ _) eqn:Heq.
    + apply words_eqb_eq in Heq. cbn zeta. repeat split; auto. intros; lia.
    + cbn zeta in *. destruct IH as (Hle & Hk & Hno). repeat split; auto.
      intros j Hj. destruct (Nat.eq_dec j (S b)) as [->|].
      * intros Habs. apply words_eqb_eq in Habs. congruence.
      * apply Hno. lia.
Qed.

(** C2. [clean_combined_transcription(["the quick brown fox", "brown fox
    jumps over"])] is exactly ["the quick brown fox jumps over"].  The
    overlap is found by the search from [min(10, |combined|, |next|)] down
    to 1 for the largest [k] at which the last [k] words of the combined
    text are the first [k] words of the next transcript (here it stops at
    [k = 2], the words "brown fox"), and when such a [k] exists only the
    words of the next transcript after position [k] are appended. *)
Theorem reconcile_overlapping_pair :
  clean_combined_transcription
    [lit "the quick brown fox"; lit "brown fox jumps over"]
  = lit "the quick brown fox jumps over"
  /\
  find_overlap (split (lit "the quick brown fox")) (split (lit "brown fox jumps over"))
    (max_overlap (split (lit "the quick brown fox")) (split (lit "brown fox jumps over")))
  = 2%nat
  /\
  (forall combined next : str,
     let combined_words := split combined in
     let next_words := split next in
     let bound := Nat.min 10 (Nat.min (length combined_words) (length next_words)) in
     let k := find_overlap combined_words next_words
                (max_overlap combined_words next_words) in
     (k <= bound)%nat /\
     ((0 < k)%nat -> last_n k combined_words = firstn k next_words) /\
     (forall j, (k < j <= bound)%nat ->
                last_n j combined_words <> firstn j next_words) /\
     ((0 < k)%nat ->
      merge_step combined next
      = combined ++ lit " " ++ join (lit " ") (skipn k next_words)) /\
     (k = 0%nat -> merge_step combined next = combined ++ lit " " ++ next)).
Proof.
  split; [vm_compute; reflexivity|].
  split; [vm_compute; reflexivity|].
  intros combined next combined_words next_words bound k.
  destruct (find_overlap_largest combined_words next_words
              (max_overlap combined_words next_words)) as (Hle & Hk & Hno).
  fold k in Hle, Hk, Hno.
  repeat split; auto.
  - intros Hpos. unfold merge_step. fold combined_words next_words k.
    destruct (Nat.ltb_spec 0 k); [reflexivity | lia].
  - intros Hzero. unfold merge_step. fold combined_words next_words k.
    rewrite Hzero. reflexivity.
Qed.

(** C9, as the program has it.  A single transcript is returned as it is,
    so the result then has whitespace at its ends exactly when the
    transcript has; for every other sequence of transcripts (two or more,
    or none) the result has no whitespace at either end.  Hence transcripts
    that are stripped, as the pipeline's are, always give a stripped
    result. *)
Theorem reconciled_trimmed_unless_single (transcriptions : list str) :
  (forall only, transcriptions = [only] ->
                clean_combined_transcription transcriptions = only) /\
  (length transcriptions <> 1%nat ->
   trimmed (clean_combined_transcription transcriptions)) /\
  (Forall trimmed transcriptions ->
   trimmed (clean_combined_transcription transcriptions)).
Proof.
  assert (Hmany : length transcriptions <> 1%nat ->
                  trimmed (clean_combined_transcription transcriptions)).
  { destruct transcriptions as [|t0 [|t1 rest]]; cbn [length]; intros Hlen.
    - split; exact I.
    - congruence.
    - apply strip_trimmed. }
  split; [|split].
  - intros only ->. reflexivity.
  - apply Hmany.
  - intros Hall. destruct transcriptions as [|t0 [|t1 rest]].
    + split; exact I.
    + inversion Hall; assumption.
    + apply Hmany. cbn. lia.
Qed.

(** C9 fails as stated: a one-element sequence holding the non-empty
    transcript [" hello "] is returned with its whitespace. *)
Lemma reconciled_single_keeps_whitespace :
  [lit " hello "] <> [] /\
  Forall (fun t : str => t <> []) [lit " hello "] /\
  clean_combined_transcription [lit " hello "] = lit " hello " /\
  ~ trimmed (clean_combined_transcription [lit " hello "]).
Proof.
  repeat split.
  - discriminate.
  - repeat constructor. discriminate.
  - intros [Hhead _]. cbn in Hhead. discriminate.
Qed.

(* ------------------------------------------------------------------ *)
(** ** Running the program *)

Lemma log_nil {num sample} (w : World num sample) : log w [] = w.
Proof. destruct w. unfold log. cbn. now rewrite app_nil_r. Qed.

Lemma log_log {num sample} (w : World num sample) (a b : list (Event sample)) :
  log (log w a) b = log w (a ++ b).
Proof. unfold log. cbn. now rewrite app_assoc. Qed.

Lemma select_tier_bounds (d : Q) :
  ((select_tier d = SHORT <-> d <= 30 # 1) /\
   (select_tier d = LONG <-> 30 # 1 < d /\ d <= 600 # 1) /\
   (select_tier d = VERY_LONG <-> 600 # 1 < d))%Q.
Proof.
  unfold select_tier, Qgtb.
  destruct (Qle_bool d (600 # 1)) eqn:H600;
    destruct (Qle_bool d (30 # 1)) eqn:H30; cbn [negb];
    repeat match goal with
           | H : Qle_bool _ _ = true |- _ => apply Qle_bool_iff in H
           | H : Qle_bool _ _ = false |- _ =>
               assert (~ (_ <= _)%Q) by (rewrite <- Qle_bool_iff, H; discriminate);
               clear H
           end;
    repeat split; intros; try discriminate; try reflexivity; try lra.
Qed.

Section Running.
Context {num : Type} `{PyNumber num} {sample : Type} (zero : sample)
        (E : Env num sample).

Lemma transcribe_short_audio_run (audio_array : list sample)
    (sampling_rate : Z) (w : World num sample) :
  transcribe_short_audio E audio_array sampling_rate w
  = (match whisper E (events w) audio_array sampling_rate short_params with
     | Returns transcription => Ok (strip transcription)
     | Raises e =>
         Raise (HTTPException 500
                  (lit "Short audio transcription failed: " ++ exn_str E e))
     end,
     log w [Generate audio_array sampling_rate short_params]).
Proof.
  unfold transcribe_short_audio, reraise_500, try_except, bind, generate,
    interact, ret, raise, log.
  destruct (whisper E (events w) audio_array sampling_rate short_params);
    reflexivity.
Qed.

Lemma preprocess_audio_rate (path : str) (w w1 : World num sample)
    (audio_array : list sample) (sampling_rate : Z) :
  preprocess_audio E path w = (Ok (audio_array, sampling_rate), w1) ->
  sampling_rate = 16000.
Proof.
  unfold preprocess_audio, reraise_500, try_except, bind, interact, lift,
    ret, raise.
  destruct (librosa_load E (events w) path) as [[audio sr]|]; cbn;
    [|discriminate].
  destruct (librosa_normalize E audio) as [a1|]; cbn; [|discriminate].
  destruct (librosa_trim E a1) as [a2|]; cbn; [|discriminate].
  destruct (librosa_preemphasis E a2) as [a3|]; cbn; [|discriminate].
  destruct (negb (sr =? 16000)); cbn.
  - destruct (librosa_resample E a3 sr 16000); cbn; [|discriminate].
    now intros [= _ <- _].
  - now intros [= _ <- _].
Qed.

Lemma transcribe_by_duration_tier (path : str) (w w1 : World num sample)
    (audio_array : list sample) (sampling_rate : Z) :
  preprocess_audio E path w = (Ok (audio_array, sampling_rate), w1) ->
  transcribe_by_duration zero E path w
  = transcribe_tier zero E (select_tier (duration audio_array 16000))
      audio_array 16000 w1.
Proof.
  intros Hpre. pose proof (preprocess_audio_rate _ _ _ _ _ Hpre) as ->.
  unfold transcribe_by_duration, bind. rewrite Hpre.
  unfold select_tier.
  destruct (Qgtb (duration audio_array 16000) (600 # 1)); [reflexivity|].
  destruct (Qgtb (duration audio_array 16000) (30 # 1)); reflexivity.
Qed.
End Running.

(** C3. The tier is a function of the duration alone: SHORT when the
    duration is at most 30 seconds, LONG when it is above 30 and at most
    600, VERY_LONG above 600; the duration is [len(waveform) / 16000], so
    in samples the bounds are 480000 and 9600000; [transcribe_audio_file]
    runs the transcription function of that tier on the preprocessed
    waveform.  Under SHORT the model is called exactly once, on the whole
    waveform as it is (no chunk is cut, nothing is padded), and the result
    is the stripped transcript of that call. *)
Theorem tier_by_duration_short_is_whole {num sample : Type} (zero : sample)
    (E : Env num sample) :
  (forall d : Q,
     (select_tier d = SHORT <-> d <= 30 # 1) /\
     (select_tier d = LONG <-> 30 # 1 < d /\ d <= 600 # 1) /\
     (select_tier d = VERY_LONG <-> 600 # 1 < d))%Q
  /\
  (forall audio_array : list sample,
     select_tier (duration audio_array 16000)
     = if 9600000 <? len audio_array then VERY_LONG
       else if 480000 <? len audio_array then LONG
       else SHORT)
  /\
  (forall path (w w1 : World num sample) audio_array sampling_rate,
     preprocess_audio E path w = (Ok (audio_array, sampling_rate), w1) ->
     sampling_rate = 16000 /\
     transcribe_by_duration zero E path w
     = transcribe_tier zero E (select_tier (duration audio_array 16000))
         audio_array 16000 w1)
  /\
  (forall audio_array sampling_rate (w : World num sample),
     transcribe_tier zero E SHORT audio_array sampling_rate w
     = (match whisper E (events w) audio_array sampling_rate short_params with
        | Returns transcription => Ok (strip transcription)
        | Raises e =>
            Raise (HTTPException 500
                     (lit "Short audio transcription failed: " ++ exn_str E e))
        end,
        log w [Generate audio_array sampling_rate short_params])).
Proof.
  split; [exact select_tier_bounds|].
  split; [intros; apply (select_tier_duration audio_array 16000); lia|].
  split.
  - intros path w w1 audio_array sampling_rate Hpre. split.
    + eapply preprocess_audio_rate; eassumption.
    + eapply transcribe_by_duration_tier; eassumption.
  - intros. apply transcribe_short_audio_run.
Qed.

(* ------------------------------------------------------------------ *)
(** ** Chunked transcription *)

Lemma survivors_app (a b : list (option str)) :
  survivors (a ++ b) = survivors a ++ survivors b.
Proof.
  induction a as [|[t|] a IH]; cbn; [reflexivity | now rewrite IH | exact IH].
Qed.

Lemma survivors_none (results : list (option str)) :
  Forall (fun r => r = None) results -> survivors results = [].
Proof.
  induction 1 as [|r rs -> _ IH]; [reflexivity | exact IH].
Qed.

Lemma survivors_some (results : list (option str)) :
  Exists (fun r => r <> None) results -> survivors results <> [].
Proof.
  induction 1 as [[t|] rs Hr | [t|] rs _ IH]; cbn; try discriminate; auto.
Qed.

Section Batch.
Context {num sample : Type} (zero : sample) (E : Env num sample).
Variables (p : DecodeParams) (sampling_rate : Z).

(** One chunk: the model is called once, and the transcript kept is the
    result of the chunk. *)
Lemma transcribe_chunk_run (all_transcriptions : list str)
    (chunk : list sample) (w : World num sample) :
  transcribe_chunk E p sampling_rate all_transcriptions chunk w
  = (Ok (all_transcriptions
         ++ survivors [chunk_result E p sampling_rate (events w) chunk]),
     log w [Generate chunk sampling_rate p]).
Proof.
  unfold transcribe_chunk, try_except, bind, generate, interact, ret,
    chunk_result, log.
  destruct (whisper E (events w) chunk sampling_rate p) as [t|e]; cbn.
  - destruct (nonempty (strip t)); cbn; [reflexivity|].
    now rewrite app_nil_r.
  - now rewrite app_nil_r.
Qed.

(** The loop over the chunks never raises: it calls the model once per
    chunk, in order, and collects the results that are there. *)
Lemma transcribe_chunks_run (chunks : list (list sample))
    (all_transcriptions : list str) (w : World num sample) :
  transcribe_chunks E p sampling_rate chunks all_transcriptions w
  = (Ok (all_transcriptions
         ++ survivors (chunk_results E p sampling_rate (events w) chunks)),
     log w (generate_events p sampling_rate chunks)).
Proof.
  revert all_transcriptions w.
  induction chunks as [|chunk rest IH]; intros acc w; cbn.
  - unfold ret. now rewrite app_nil_r, log_nil.
  - unfold bind. rewrite transcribe_chunk_run, IH, log_log.
    cbn [events log]. f_equal. f_equal.
    destruct (chunk_result E p sampling_rate (events w) chunk); cbn.
    + now rewrite <- app_assoc.
    + now rewrite app_nil_r.
Qed.

Lemma transcribe_segments_outcome (prefix : string)
    (segs : list (Segment sample)) (w : World num sample) :
  batch_outcome E p sampling_rate prefix segs w
    (reraise_500 E prefix
       (transcribe_segments E p sampling_rate (Some segs)) w).
Proof.
  unfold batch_outcome, reraise_500, try_except, transcribe_segments, bind.
  rewrite transcribe_chunks_run. cbn [app].
  set (results := chunk_results E p sampling_rate (events w) (map seg_chunk segs)).
  destruct (survivors results) as [|t ts] eqn:Hs; cbn.
  - repeat split. intros Hex. apply survivors_some in Hex. congruence.
  - repeat split. intros Hall. apply survivors_none in Hall. congruence.
Qed.
End Batch.

(** C6. In a LONG or VERY_LONG transcription the model is called once on
    every chunk, in chunk order, and a chunk gives no result when the call
    raises or its transcript is blank.  If every chunk gives no result the
    function raises the "No successful chunk transcriptions" error (status
    500, under the prefix of the function); if some chunk gives a result,
    the function returns the reconciliation of the transcripts of the
    surviving chunks, taken in chunk order. *)
Theorem chunk_failures_dropped_or_fatal {num sample : Type} (zero : sample)
    (E : Env num sample) (audio_array : list sample) (sampling_rate : Z)
    (w : World num sample) :
  0 < sampling_rate ->
  (exists segs,
     long_chunks zero audio_array sampling_rate = Some segs /\
     batch_outcome E long_params sampling_rate
       "Long audio transcription failed: " segs w
       (transcribe_long_audio zero E audio_array sampling_rate w))
  /\
  (exists segs,
     very_long_chunks zero audio_array sampling_rate = Some segs /\
     batch_outcome E very_long_params sampling_rate
       "Very long audio transcription failed: " segs w
       (transcribe_very_long_audio zero E audio_array sampling_rate w)).
Proof.
  intros Hsr.
  assert (Hplan : forall chunk_samples overlap_samples,
             0 <= overlap_samples < chunk_samples ->
             exists segs,
               split_chunks zero audio_array chunk_samples overlap_samples
               = Some segs).
  { intros cs ov Hov. destruct audio_array as [|x rest] eqn:Ha.
    - exists []. reflexivity.
    - destruct (split_chunks_returns zero (x :: rest) cs ov Hov) as (segs & Hsegs & _).
      + unfold len. cbn [length]. lia.
      + exists segs. exact Hsegs. }
  split.
  - destruct (Hplan (30 * sampling_rate) (2 * sampling_rate)) as [segs Hsegs]; [lia|].
    exists segs. split; [exact Hsegs|].
    unfold transcribe_long_audio, long_chunks. rewrite Hsegs.
    apply transcribe_segments_outcome.
  - destruct (Hplan (20 * sampling_rate) (1 * sampling_rate)) as [segs Hsegs]; [lia|].
    exists segs. split; [exact Hsegs|].
    unfold transcribe_very_long_audio, very_long_chunks. rewrite Hsegs.
    apply transcribe_segments_outcome.
Qed.

Lemma chunk_failures_dropped_or_fatal_witness :
  exists segs,
    long_chunks 0 ramp70 1 = Some segs /\
    batch_outcome (example_env fresh_tokens (chat_always 200) model_middle_fails)
      long_params 1 "Long audio transcription failed: " segs initial_world
      (transcribe_long_audio 0
         (example_env fresh_tokens (chat_always 200) model_middle_fails)
         ramp70 1 initial_world).
Proof.
  exact (proj1 (chunk_failures_dropped_or_fatal 0
                  (example_env fresh_tokens (chat_always 200) model_middle_fails)
                  ramp70 1 initial_world eq_refl)).
Defined.

(** Seventy seconds at one sample per second: three chunks, the last one
    padded. *)
Example ramp70_ranges :
  option_map (map (fun s => (seg_start s, seg_end s, len (seg_chunk s))))
    (long_chunks 0 ramp70 1)
  = Some [(0, 30, 30); (28, 58, 30); (56, 70, 30)].
Proof. vm_compute. reflexivity. Qed.

(** The middle chunk fails: the transcript is built from the first and
    the third. *)
Example middle_chunk_dropped :
  fst (transcribe_long_audio 0
         (example_env fresh_tokens (chat_always 200) model_middle_fails)
         ramp70 1 initial_world)
  = Ok (lit "the quick brown fox jumps over").
Proof. vm_compute. reflexivity. Qed.

(** Every chunk fails. *)
Example all_chunks_fail :
  fst (transcribe_long_audio 0
         (example_env fresh_tokens (chat_always 200) model_fails)
         ramp70 1 initial_world)
  = Raise (HTTPException 500
             (lit "Long audio transcription failed: 500: No successful chunk transcriptions")).
Proof. vm_compute. reflexivity. Qed.

(* ------------------------------------------------------------------ *)
(** ** Credential cache *)

Section Credential.
Context {num : Type} `{PyNumber num} {sample : Type} (E : Env num sample).
Variables (api_key : str) (force_refresh : bool) (w : World num sample).

Let now := time_time E (events w).
Let cache := access_token_cache w.
Let asked := log w [TimeRead; TokenPost api_key].

(** Served from the cache: the time is read and nothing else happens. *)
Lemma get_access_token_hit :
  cache_hit force_refresh cache now = true ->
  get_access_token E api_key force_refresh w
  = (Ok (token cache), log w [TimeRead]).
Proof.
  unfold cache_hit. intros Hhit.
  unfold get_access_token, reraise_500, try_except, bind, interact,
    get_token_cache, ret. cbn.
  fold now cache. rewrite Hhit. reflexivity.
Qed.

(** Not served from the cache: one exchange, and what comes of it. *)
Lemma get_access_token_miss :
  cache_hit force_refresh cache now = false ->
  get_access_token E api_key force_refresh w
  = match post_token E (events w ++ [TimeRead]) api_key with
    | Raises e => (Raise (token_error_for E e), asked)
    | Returns response =>
        if error_status (token_status_code response)
        then (Raise (token_error_for E (RequestException (token_error response))),
              asked)
        else
          match token_json response with
          | Raises e => (Raise (token_error_for E e), asked)
          | Returns data =>
              if truthy (access_token data)
              then (Ok (access_token data),
                    with_cache asked
                      {| token := access_token data;
                         expiry := num_sub (num_add now (expires_in_or_default data))
                                           (num_of_Z 300) |})
              else (Ok None, asked)
          end
    end.
Proof.
  unfold cache_hit. intros Hmiss.
  unfold get_access_token, reraise_500, try_except, bind, interact,
    get_token_cache, ret. cbn.
  fold now cache. rewrite Hmiss. cbn.
  unfold asked, log, token_error_for. cbn. rewrite <- app_assoc. cbn.
  destruct (post_token E (events w ++ [TimeRead]) api_key) as [response|e];
    cbn; [|reflexivity].
  unfold raise_for_status, error_status.
  destruct ((400 <=? token_status_code response)
            && (token_status_code response <? 600)); cbn; [reflexivity|].
  unfold lift. destruct (token_json response) as [data|e]; cbn; [|reflexivity].
  destruct (truthy (access_token data)); cbn; reflexivity.
Qed.
End Credential.

(** C4. A call [get_access_token(api_key, force_refresh=False)] reads the
    time [now].  If a token is cached and [now] is before the cached
    expiry, the call returns that token, performs no credential exchange
    (reading the time is its only event) and leaves the cache as it was.
    Otherwise it performs one exchange, and when the exchange succeeds (no
    error status, a body with a token) it returns the new token and the
    cache holds that token with expiry [now + expires_in - 300]. *)
Theorem cached_token_reused_until_expiry {num : Type} `{PyNumber num}
    {sample : Type} (E : Env num sample) (api_key : str) (w : World num sample) :
  (forall tok,
     token (access_token_cache w) = Some tok -> tok <> [] ->
     num_ltb (time_time E (events w)) (expiry (access_token_cache w)) = true ->
     exists w',
       get_access_token E api_key false w = (Ok (Some tok), w') /\
       events w' = events w ++ [TimeRead] /\
       access_token_cache w' = access_token_cache w)
  /\
  (truthy (token (access_token_cache w)) = false \/
   num_ltb (time_time E (events w)) (expiry (access_token_cache w)) = false ->
   exists r w',
     get_access_token E api_key false w = (r, w') /\
     events w' = events w ++ [TimeRead; TokenPost api_key] /\
     forall response data tok,
       post_token E (events w ++ [TimeRead]) api_key = Returns response ->
       error_status (token_status_code response) = false ->
       token_json response = Returns data ->
       access_token data = Some tok -> tok <> [] ->
       r = Ok (Some tok) /\
       access_token_cache w'
       = {| token := Some tok;
            expiry := num_sub (num_add (time_time E (events w))
                                       (expires_in_or_default data))
                              (num_of_Z 300) |}).
Proof.
  split.
  - intros tok Htok Hne Hlt. exists (log w [TimeRead]).
    rewrite get_access_token_hit.
    + rewrite Htok. auto.
    + unfold cache_hit. rewrite Htok, Hlt. cbn.
      destruct tok; [congruence | reflexivity].
  - intros Hmiss.
    assert (Hc : cache_hit false (access_token_cache w) (time_time E (events w)) = false).
    { unfold cache_hit. cbn. destruct Hmiss as [-> | ->]; [reflexivity|].
      apply andb_false_r. }
    rewrite get_access_token_miss by exact Hc.
    destruct (post_token E (events w ++ [TimeRead]) api_key) as [response|e].
    + destruct (error_status (token_status_code response)) eqn:Hst.
      * eexists _, _. split; [reflexivity|]. split; [reflexivity|].
        intros ? ? ? [= <-]. congruence.
      * destruct (token_json response) as [data|e] eqn:Hjson.
        -- destruct (truthy (access_token data)) eqn:Htr.
           ++ eexists _, _. split; [reflexivity|]. split; [reflexivity|].
              intros ? ? ? [= <-] _. rewrite Hjson. intros [= <-] Htok _.
              rewrite Htok. auto.
           ++ eexists _, _. split; [reflexivity|]. split; [reflexivity|].
              intros ? ? tok [= <-] _. rewrite Hjson. intros [= <-] Htok Hne.
              rewrite Htok in Htr. destruct tok; [congruence | discriminate].
        -- eexists _, _. split; [reflexivity|]. split; [reflexivity|].
           intros ? ? ? [= <-] _. rewrite Hjson. discriminate.
    + eexists _, _. split; [reflexivity|]. split; [reflexivity|].
      discriminate.
Qed.

(** At time 1000 a token that expires at 5000 is served from the cache. *)
Example cached_token_served :
  get_access_token retry_env (lit "key") false (cached_world 5000)
  = (Ok (Some (lit "cached-token")), log (cached_world 5000) [TimeRead]).
Proof. vm_compute. reflexivity. Qed.

(** At time 1000 a token that expired at 500 is replaced: the new one
    lasts 3600 seconds and is cached until 1000 + 3600 - 300. *)
Example expired_token_replaced :
  get_access_token retry_env (lit "key") false (cached_world 500)
  = (Ok (Some (lit "token-0")),
     with_cache (log (cached_world 500) [TimeRead; TokenPost (lit "key")])
       {| token := Some (lit "token-0"); expiry := 4300 |}).
Proof. vm_compute. reflexivity. Qed.

(** A call that comes to iteration [attempt] goes on as the loop from
    there, with the iterations that are left. *)
Lemma attempt_world_run {num : Type} `{PyNumber num} {sample : Type}
    (E : Env num sample) (payload : Payload) (api_key : str)
    (max_retries attempt : nat) (w0 w : World num sample) :
  attempt_world E payload api_key max_retries attempt w0 = Some w ->
  (attempt <= max_retries)%nat /\
  make_watsonx_request E payload api_key max_retries w0
  = watsonx_attempts E payload api_key max_retries
      (S (max_retries - attempt)) attempt w.
Proof.
  revert w. induction attempt as [|before IH]; intros w; cbn [attempt_world].
  - intros [= <-]. split; [lia|].
    unfold make_watsonx_request. now rewrite Nat.add_1_r, Nat.sub_0_r.
  - destruct (attempt_world E payload api_key max_retries before w0)
      as [w1|]; [|discriminate].
    destruct (IH w1 eq_refl) as [_ Hrun].
    destruct (watsonx_attempt E payload api_key max_retries before w1)
      as [[[value|]|e|] w2] eqn:Hstep; try discriminate.
    destruct (Nat.ltb_spec before max_retries); [|discriminate].
    intros [= <-]. split; [lia|].
    rewrite Hrun.
    replace (max_retries - before)%nat with (S (max_retries - S before)) by lia.
    cbn [watsonx_attempts]. unfold bind at 1. rewrite Hstep. reflexivity.
Qed.
(** C7, as the program has it.  When [get_access_token] performs an
    exchange that fails, the cached token and expiry stay as they were:
    a network error and a 4xx or 5xx status (the statuses
    [raise_for_status] rejects) make it raise a status-500 "Error getting
    access token" error; a response with any other status whose body has
    no token, or an empty one, makes it return [None] without raising, and
    it is the caller, [make_watsonx_request], that then raises a
    status-500 "Failed to obtain access token" error: a call of
    [make_watsonx_request] that comes, in its first or a later iteration,
    to such an exchange ends with that error in the world the exchange
    left. *)
Theorem failed_exchange_keeps_cache {num : Type} `{PyNumber num}
    {sample : Type} (E : Env num sample) (api_key : str) (force_refresh : bool)
    (w : World num sample) :
  cache_hit force_refresh (access_token_cache w) (time_time E (events w)) = false ->
  let asked := log w [TimeRead; TokenPost api_key] in
  access_token_cache asked = access_token_cache w /\
  (forall e,
     post_token E (events w ++ [TimeRead]) api_key = Raises e ->
     get_access_token E api_key force_refresh w
     = (Raise (token_error_for E e), asked)) /\
  (forall response,
     post_token E (events w ++ [TimeRead]) api_key = Returns response ->
     error_status (token_status_code response) = true ->
     get_access_token E api_key force_refresh w
     = (Raise (token_error_for E (RequestException (token_error response))), asked)) /\
  (forall response data,
     post_token E (events w ++ [TimeRead]) api_key = Returns response ->
     error_status (token_status_code response) = false ->
     token_json response = Returns data ->
     truthy (access_token data) = false ->
     get_access_token E api_key force_refresh w = (Ok None, asked)) /\
  (forall response data payload max_retries attempt w0,
     attempt_world E payload api_key max_retries attempt w0 = Some w ->
     force_refresh = (0 <? attempt)%nat ->
     post_token E (events w ++ [TimeRead]) api_key = Returns response ->
     error_status (token_status_code response) = false ->
     token_json response = Returns data ->
     truthy (access_token data) = false ->
     make_watsonx_request E payload api_key max_retries w0
     = (Raise (HTTPException 500 (lit "Failed to obtain access token")), asked)).
Proof.
  intros Hmiss asked. split; [reflexivity|].
  repeat split.
  - intros e He. rewrite get_access_token_miss, He by exact Hmiss. reflexivity.
  - intros response Hr Hst.
    rewrite get_access_token_miss, Hr, Hst by exact Hmiss. reflexivity.
  - intros response data Hr Hst Hj Htr.
    rewrite get_access_token_miss, Hr, Hst, Hj, Htr by exact Hmiss. reflexivity.
  - intros response data payload max_retries attempt w0 Hreach Hforce Hr Hst Hj Htr.
    destruct (attempt_world_run E payload api_key max_retries attempt w0 w Hreach)
      as [_ ->].
    cbn [watsonx_attempts]. unfold bind at 1.
    unfold watsonx_attempt, try_except, bind. rewrite <- Hforce.
    rewrite get_access_token_miss, Hr, Hst, Hj, Htr by exact Hmiss. reflexivity.
Qed.

Lemma failed_exchange_keeps_cache_witness :
  access_token_cache (log (cached_world 500) [TimeRead; TokenPost (lit "key")])
  = access_token_cache (cached_world 500) /\
  get_access_token (example_env tokenless (chat_always 200) model_hears)
    (lit "key") false (cached_world 500)
  = (Ok None, log (cached_world 500) [TimeRead; TokenPost (lit "key")]) /\
  make_watsonx_request (example_env tokenless (chat_always 200) model_hears)
    example_payload (lit "key") 2 (cached_world 500)
  = (Raise (HTTPException 500 (lit "Failed to obtain access token")),
     log (cached_world 500) [TimeRead; TokenPost (lit "key")]).
Proof.
  pose proof (failed_exchange_keeps_cache
                (example_env tokenless (chat_always 200) model_hears)
                (lit "key") false (cached_world 500) eq_refl)
    as (Hcache & _ & _ & Hnone & Hcaller).
  split; [exact Hcache|]. split.
  - eapply Hnone; reflexivity.
  - eapply (Hcaller _ _ example_payload 2%nat 0%nat); reflexivity.
Defined.

(** C7 fails as stated.  A 200 response without a token makes
    [get_access_token] return [None]: it does not fail with an error.
    And a status outside 2xx is not always a failure: a 302 response whose
    body holds a token is accepted and replaces the cached credential. *)
Lemma missing_token_is_not_an_error :
  get_access_token (example_env tokenless (chat_always 200) model_hears)
    (lit "key") false initial_world
  = (Ok None, log initial_world [TimeRead; TokenPost (lit "key")]) /\
  (forall e,
     fst (get_access_token (example_env tokenless (chat_always 200) model_hears)
            (lit "key") false initial_world) <> Raise e) /\
  get_access_token (example_env redirected (chat_always 200) model_hears)
    (lit "key") false (cached_world 500)
  = (Ok (Some (lit "token-302")),
     with_cache (log (cached_world 500) [TimeRead; TokenPost (lit "key")])
       {| token := Some (lit "token-302"); expiry := 4300 |}).
Proof.
  split; [vm_compute; reflexivity|].
  split; [intros e; vm_compute; discriminate|].
  vm_compute; reflexivity.
Qed.

(* ------------------------------------------------------------------ *)
(** ** Events of a computation *)

Section Emits.
Context {num sample : Type}.
Variable P : Event sample -> Prop.

Lemma emits_ret {A} (a : A) : emits (num := num) P (ret a).
Proof. intros w. exists []. cbn. now rewrite app_nil_r. Qed.

Lemma emits_raise {A} (e : exn) : emits (num := num) (A := A) P (raise e).
Proof. intros w. exists []. cbn. now rewrite app_nil_r. Qed.

Lemma emits_diverge {A} : emits (num := num) (A := A) P diverge.
Proof. intros w. exists []. cbn. now rewrite app_nil_r. Qed.

Lemma emits_lift {A} (a : answer A) : emits (num := num) P (lift a).
Proof. intros w. exists []. cbn. now rewrite app_nil_r. Qed.

Lemma emits_get_token_cache : emits (num := num) P get_token_cache.
Proof. intros w. exists []. cbn. now rewrite app_nil_r. Qed.

Lemma emits_set_token_cache (c : TokenCache num) : emits P (set_token_cache c).
Proof. intros w. exists []. cbn. now rewrite app_nil_r. Qed.

Lemma emits_get_model_cache : emits (num := num) P get_model_cache.
Proof. intros w. exists []. cbn. now rewrite app_nil_r. Qed.

Lemma emits_set_model_cache (b : bool) : emits (num := num) P (set_model_cache b).
Proof. intros w. exists []. cbn. now rewrite app_nil_r. Qed.

Lemma emits_interact {A} (e : Event sample)
    (reply : list (Event sample) -> answer A) :
  P e -> emits (num := num) P (interact e reply).
Proof. intros He w. exists [e]. cbn. auto. Qed.

Lemma emits_bind {A B} (m : M num sample A) (k : A -> M num sample B) :
  emits P m -> (forall a, emits P (k a)) -> emits P (bind m k).
Proof.
  intros Hm Hk w. unfold bind.
  destruct (Hm w) as (e1 & He1 & HP1).
  destruct (m w) as [[a|e|] w1]; cbn in *; try (exists e1; now split).
  destruct (Hk a w1) as (e2 & He2 & HP2).
  exists (e1 ++ e2). rewrite He2, He1, app_assoc. split; [reflexivity|].
  apply Forall_app. now split.
Qed.

Lemma emits_try_except {A} (m : M num sample A) (handler : exn -> M num sample A) :
  emits P m -> (forall e, emits P (handler e)) -> emits P (try_except m handler).
Proof.
  intros Hm Hh w. unfold try_except.
  destruct (Hm w) as (e1 & He1 & HP1).
  destruct (m w) as [[a|e|] w1]; cbn in *; try (exists e1; now split).
  destruct (Hh e w1) as (e2 & He2 & HP2).
  exists (e1 ++ e2). rewrite He2, He1, app_assoc. split; [reflexivity|].
  apply Forall_app. now split.
Qed.

Lemma emits_try_finally {A} (m : M num sample A) (cleanup : M num sample unit) :
  emits P m -> emits P cleanup -> emits P (try_finally m cleanup).
Proof.
  intros Hm Hc w. unfold try_finally.
  destruct (Hm w) as (e1 & He1 & HP1).
  destruct (m w) as [[a|e|] w1]; cbn in *; try (exists e1; now split);
    destruct (Hc w1) as (e2 & He2 & HP2);
    destruct (cleanup w1) as [[[]|e'|] w2]; cbn in *;
    exists (e1 ++ e2); rewrite He2, He1, app_assoc;
    (split; [reflexivity | apply Forall_app; now split]).
Qed.

Lemma emits_reraise_500 {A} (E : Env num sample) (prefix : string)
    (m : M num sample A) :
  emits P m -> emits P (reraise_500 E prefix m).
Proof. intros Hm. apply emits_try_except; [exact Hm|]. intros e. apply emits_raise. Qed.

Lemma emits_reraise_http {A} (E : Env num sample) (prefix : string)
    (m : M num sample A) :
  emits P m -> emits P (reraise_http E prefix m).
Proof.
  intros Hm. apply emits_try_except; [exact Hm|].
  intros [| |]; intros; apply emits_raise.
Qed.
End Emits.

(** Splits a computation along its binds and handlers. *)
Ltac emits_step :=
  first
    [ apply emits_bind; [|intros ?]
    | apply emits_try_except; [|intros ?]
    | apply emits_try_finally
    | apply emits_reraise_500
    | apply emits_reraise_http
    | apply emits_interact
    | apply emits_ret | apply emits_raise | apply emits_diverge
    | apply emits_lift
    | apply emits_get_token_cache | apply emits_set_token_cache
    | apply emits_get_model_cache | apply emits_set_model_cache
    | match goal with
      | |- emits _ (if ?b then _ else _) => destruct b
      | |- emits _ (match ?x with _ => _ end) => destruct x
      | |- emits _ (let '(_, _) := ?x in _) => destruct x
      end ].

Ltac emits_auto := repeat emits_step; auto; try exact I.


Lemma chat_posts_app {sample} (a b : list (Event sample)) :
  chat_posts (a ++ b) = (chat_posts a + chat_posts b)%nat.
Proof.
  induction a as [|e a IH]; [reflexivity|].
  destruct e; cbn; rewrite ?IH; reflexivity.
Qed.

Lemma chat_posts_none {sample} (evs : list (Event sample)) :
  Forall not_chat_post evs -> chat_posts evs = 0%nat.
Proof.
  induction 1 as [|e evs He _ IH]; [reflexivity|].
  destruct e; cbn in *; (exact IH || contradiction).
Qed.

Lemma chat_payloads_app {sample} (a b : list (Event sample)) :
  chat_payloads (a ++ b) = chat_payloads a ++ chat_payloads b.
Proof.
  induction a as [|e a IH]; [reflexivity|].
  destruct e; cbn; rewrite ?IH; reflexivity.
Qed.

Lemma chat_payloads_local {sample} (evs : list (Event sample)) :
  Forall local_event evs -> chat_payloads evs = [].
Proof.
  induction 1 as [|e evs He _ IH]; [reflexivity|].
  destruct e; cbn in *; (exact IH || contradiction).
Qed.

Lemma chat_payloads_only {sample} (payload : Payload) (evs : list (Event sample)) :
  Forall (posts_only payload) evs ->
  Forall (fun sent => sent = payload) (chat_payloads evs).
Proof.
  induction 1 as [|e evs He _ IH]; [constructor|].
  destruct e; cbn in *; auto.
Qed.

Section PostsAtMost.
Context {num sample : Type}.

Lemma posts_none {A} (m : M num sample A) :
  emits not_chat_post m -> posts_at_most 0 m.
Proof.
  intros Hm w. destruct (Hm w) as (evs & He & HP).
  exists evs. split; [exact He|]. now rewrite chat_posts_none.
Qed.

Lemma posts_weaken {A} (n n' : nat) (m : M num sample A) :
  (n <= n')%nat -> posts_at_most n m -> posts_at_most n' m.
Proof.
  intros Hle Hm w. destruct (Hm w) as (evs & He & HP).
  exists evs. split; [exact He | lia].
Qed.

Lemma posts_interact {A} (e : Event sample)
    (reply : list (Event sample) -> answer A) :
  posts_at_most (num := num) 1 (interact e reply).
Proof. intros w. exists [e]. split; [reflexivity|]. destruct e; cbn; lia. Qed.

Lemma posts_bind {A B} (a b : nat) (m : M num sample A) (k : A -> M num sample B) :
  posts_at_most a m -> (forall x, posts_at_most b (k x)) ->
  posts_at_most (a + b) (bind m k).
Proof.
  intros Hm Hk w. unfold bind.
  destruct (Hm w) as (e1 & He1 & HP1).
  destruct (m w) as [[x|e|] w1]; cbn in *; try (exists e1; split; [assumption | lia]).
  destruct (Hk x w1) as (e2 & He2 & HP2).
  exists (e1 ++ e2). rewrite He2, He1, app_assoc, chat_posts_app.
  split; [reflexivity | lia].
Qed.

Lemma posts_try_except {A} (a b : nat) (m : M num sample A)
    (handler : exn -> M num sample A) :
  posts_at_most a m -> (forall e, posts_at_most b (handler e)) ->
  posts_at_most (a + b) (try_except m handler).
Proof.
  intros Hm Hh w. unfold try_except.
  destruct (Hm w) as (e1 & He1 & HP1).
  destruct (m w) as [[x|e|] w1]; cbn in *; try (exists e1; split; [assumption | lia]).
  destruct (Hh e w1) as (e2 & He2 & HP2).
  exists (e1 ++ e2). rewrite He2, He1, app_assoc, chat_posts_app.
  split; [reflexivity | lia].
Qed.
End PostsAtMost.

(* ------------------------------------------------------------------ *)
(** ** Chat requests *)

Section Watsonx.
Context {num : Type} `{PyNumber num} {sample : Type} (E : Env num sample).
Variables (payload : Payload) (api_key : str) (max_retries : nat).

(** [get_access_token] reads the time and may exchange the key. *)
Lemma get_access_token_emits (P : Event sample -> Prop) (force_refresh : bool) :
  P TimeRead -> P (TokenPost api_key) ->
  emits P (get_access_token E api_key force_refresh).
Proof.
  intros Htime Hpost. unfold get_access_token, raise_for_status,
    set_cache_token, set_cache_expiry.
  emits_auto.
Qed.

Lemma watsonx_attempt_emits (attempt : nat) :
  emits (posts_only payload)
    (watsonx_attempt E payload api_key max_retries attempt).
Proof.
  unfold watsonx_attempt, set_cache_token, set_cache_expiry.
  apply emits_try_except.
  - apply emits_bind; [apply get_access_token_emits; exact I|].
    intros tok. emits_auto. reflexivity.
  - intros e. emits_auto.
Qed.

Lemma watsonx_attempts_emits (remaining attempt : nat) :
  emits (posts_only payload)
    (watsonx_attempts E payload api_key max_retries remaining attempt).
Proof.
  revert attempt. induction remaining as [|r IH]; intros attempt; cbn.
  - apply emits_ret.
  - apply emits_bind; [apply watsonx_attempt_emits|].
    intros [v|]; [apply emits_ret | apply IH].
Qed.

(** One attempt sends at most one chat request. *)
Lemma watsonx_attempt_posts (attempt : nat) :
  posts_at_most 1 (watsonx_attempt E payload api_key max_retries attempt).
Proof.
  unfold watsonx_attempt.
  apply (posts_try_except 1 0).
  - apply (posts_bind 0 1).
    + apply posts_none, get_access_token_emits; exact I.
    + intros tok. destruct (negb (truthy tok)).
      * apply (posts_weaken 0); [lia|]. apply posts_none, emits_raise.
      * apply (posts_bind 1 0); [apply posts_interact|].
        intros response. apply posts_none.
        unfold set_cache_token, set_cache_expiry. emits_auto.
  - intros e. apply posts_none. emits_auto.
Qed.

Lemma watsonx_attempts_posts (remaining attempt : nat) :
  posts_at_most remaining
    (watsonx_attempts E payload api_key max_retries remaining attempt).
Proof.
  revert attempt. induction remaining as [|r IH]; intros attempt; cbn.
  - apply posts_none, emits_ret.
  - apply (posts_bind 1 r); [apply watsonx_attempt_posts|].
    intros [v|]; [|apply IH].
    apply (posts_weaken 0); [lia|]. apply posts_none, emits_ret.
Qed.

(** An attempt that gets a token and a response from the chat endpoint. *)
Lemma watsonx_attempt_response (attempt : nat) (w w1 : World num sample)
    (tok : str) (response : ChatResponse) :
  get_access_token E api_key (0 <? attempt)%nat w = (Ok (Some tok), w1) ->
  tok <> [] ->
  post_chat E (events w1) (bearer (Some tok)) payload = Returns response ->
  let sent := log w1 [ChatPost (bearer (Some tok)) payload] in
  watsonx_attempt E payload api_key max_retries attempt w
  = if status_code response =? 200
    then
      match json response with
      | Returns body => (Ok (Return body), sent)
      | Raises (RequestException message) =>
          if (attempt =? max_retries)%nat
          then (Raise (HTTPException 500
                         (lit "Failed to connect to WatsonX API after "
                          ++ str_of_nat (max_retries + 1)
                          ++ lit " attempts: "
                          ++ exn_str E (RequestException message))),
                sent)
          else (Ok Continue, log sent [Sleep 1])
      | Raises e => (Raise e, sent)
      end
    else if (status_code response =? 401) && (attempt <? max_retries)%nat
    then (Ok Continue, with_cache sent cleared_cache)
    else (Raise (HTTPException (status_code response)
                   (lit "WatsonX API Error: " ++ text response)),
          sent).
Proof.
  intros Hget Hne Hpost sent.
  unfold watsonx_attempt, try_except, bind. rewrite Hget.
  assert (Htr : truthy (Some tok) = true) by (destruct tok; [congruence | reflexivity]).
  rewrite Htr. cbn [negb]. unfold interact. rewrite Hpost. cbn [result_of].
  fold (log w1 [ChatPost (bearer (Some tok)) payload]). fold sent.
  destruct (status_code response =? 200).
  - unfold lift. destruct (json response) as [body|[| |]]; cbn; try reflexivity.
    destruct (attempt =? max_retries)%nat; reflexivity.
  - destruct ((status_code response =? 401) && (attempt <? max_retries)%nat);
      reflexivity.
Qed.
End Watsonx.


(** The cache never holds an empty token: the client, which alone writes
    the cache, keeps it so. *)
Lemma get_access_token_keeps_token_ok {num : Type} `{PyNumber num}
    {sample : Type} (E : Env num sample) (api_key : str) (force_refresh : bool) :
  keeps_token_ok (get_access_token E api_key force_refresh).
Proof.
  intros w Hok.
  destruct (cache_hit force_refresh (access_token_cache w) (time_time E (events w)))
    eqn:Hhit.
  - rewrite get_access_token_hit by exact Hhit. exact Hok.
  - rewrite get_access_token_miss by exact Hhit.
    destruct (post_token E (events w ++ [TimeRead]) api_key) as [response|e];
      [|exact Hok].
    destruct (error_status (token_status_code response)); [exact Hok|].
    destruct (token_json response) as [data|e]; [|exact Hok].
    destruct (truthy (access_token data)) eqn:Htr; [|exact Hok].
    intros tok Htok. cbn in Htok. rewrite Htok in Htr.
    destruct tok; [discriminate | congruence].
Qed.

Lemma keeps_token_ok_bind {num sample A B} (m : M num sample A)
    (k : A -> M num sample B) :
  keeps_token_ok m -> (forall a, keeps_token_ok (k a)) ->
  keeps_token_ok (bind m k).
Proof.
  intros Hm Hk w Hok. unfold bind. specialize (Hm w Hok).
  destruct (m w) as [[a|e|] w1]; cbn in *; auto. now apply Hk.
Qed.

Lemma keeps_token_ok_try_except {num sample A} (m : M num sample A)
    (handler : exn -> M num sample A) :
  keeps_token_ok m -> (forall e, keeps_token_ok (handler e)) ->
  keeps_token_ok (try_except m handler).
Proof.
  intros Hm Hh w Hok. unfold try_except. specialize (Hm w Hok).
  destruct (m w) as [[a|e|] w1]; cbn in *; auto. now apply Hh.
Qed.

Lemma watsonx_attempt_keeps_token_ok {num : Type} `{PyNumber num}
    {sample : Type} (E : Env num sample) (payload : Payload) (api_key : str)
    (max_retries attempt : nat) :
  keeps_token_ok (watsonx_attempt E payload api_key max_retries attempt).
Proof.
  unfold watsonx_attempt.
  apply keeps_token_ok_try_except.
  - apply keeps_token_ok_bind; [apply get_access_token_keeps_token_ok|].
    intros tok. destruct (negb (truthy tok)); [intros w Hok; exact Hok|].
    apply keeps_token_ok_bind; [intros w Hok; exact Hok|].
    intros response. destruct (status_code response =? 200).
    + intros w Hok. unfold bind, lift.
      destruct (json response); exact Hok.
    + destruct ((status_code response =? 401) && (attempt <? max_retries)%nat);
        [|intros w Hok; exact Hok].
      intros w Hok tok'. cbn. discriminate.
  - intros [c d|msg|msg]; try (intros w Hok; exact Hok).
    destruct (attempt =? max_retries)%nat; intros w Hok; exact Hok.
Qed.

Lemma watsonx_attempts_keeps_token_ok {num : Type} `{PyNumber num}
    {sample : Type} (E : Env num sample) (payload : Payload) (api_key : str)
    (max_retries remaining attempt : nat) :
  keeps_token_ok (watsonx_attempts E payload api_key max_retries remaining attempt).
Proof.
  revert attempt. induction remaining as [|r IH]; intros attempt; cbn.
  - intros w Hok. exact Hok.
  - apply keeps_token_ok_bind; [apply watsonx_attempt_keeps_token_ok|].
    intros [v|]; [intros w Hok; exact Hok | apply IH].
Qed.

Lemma make_watsonx_request_keeps_token_ok {num : Type} `{PyNumber num}
    {sample : Type} (E : Env num sample) (payload : Payload) (api_key : str)
    (max_retries : nat) :
  keeps_token_ok (make_watsonx_request E payload api_key max_retries).
Proof. apply watsonx_attempts_keeps_token_ok. Qed.

(** A forced refresh always exchanges the key. *)
Lemma forced_refresh_exchanges {num : Type} `{PyNumber num} {sample : Type}
    (E : Env num sample) (api_key : str) (w : World num sample) :
  events (snd (get_access_token E api_key true w))
  = events w ++ [TimeRead; TokenPost api_key].
Proof.
  rewrite get_access_token_miss by reflexivity.
  destruct (post_token E (events w ++ [TimeRead]) api_key) as [response|e];
    [|reflexivity].
  destruct (error_status (token_status_code response)); [reflexivity|].
  destruct (token_json response) as [data|e]; [|reflexivity].
  destruct (truthy (access_token data)); reflexivity.
Qed.

(** What a computation adds to the events is added after what its first
    part added. *)
Lemma bind_extends {num sample A B} (P : Event sample -> Prop)
    (m : M num sample A) (k : A -> M num sample B) (w : World num sample) :
  (forall a, emits P (k a)) ->
  exists evs, events (snd (bind m k w)) = events (snd (m w)) ++ evs.
Proof.
  intros Hk. unfold bind.
  destruct (m w) as [[a|e|] w1]; cbn [snd];
    try (exists []; now rewrite app_nil_r).
  destruct (Hk a w1) as (evs & Hevs & _). eauto.
Qed.

Lemma try_except_extends {num sample A} (P : Event sample -> Prop)
    (m : M num sample A) (handler : exn -> M num sample A)
    (w : World num sample) :
  (forall e, emits P (handler e)) ->
  exists evs, events (snd (try_except m handler w)) = events (snd (m w)) ++ evs.
Proof.
  intros Hh. unfold try_except.
  destruct (m w) as [[a|e|] w1]; cbn [snd];
    try (exists []; now rewrite app_nil_r).
  destruct (Hh e w1) as (evs & Hevs & _). eauto.
Qed.

Section Retry.
Context {num : Type} `{PyNumber num} {sample : Type} (E : Env num sample).
Variables (payload : Payload) (api_key : str) (max_retries : nat).

(** A loop that has iterations left starts with a token fetch; with a
    forced refresh that is an exchange of the key. *)
Lemma watsonx_attempts_start_forced (remaining attempt : nat)
    (w : World num sample) :
  exists evs,
    events (snd (watsonx_attempts E payload api_key max_retries (S remaining)
                   (S attempt) w))
    = events w ++ [TimeRead; TokenPost api_key] ++ evs.
Proof.
  cbn [watsonx_attempts].
  destruct (bind_extends (posts_only payload)
              (watsonx_attempt E payload api_key max_retries (S attempt))
              (fun outcome =>
                 match outcome with
                 | Return value => ret value
                 | Continue =>
                     watsonx_attempts E payload api_key max_retries remaining
                       (S (S attempt))
                 end) w) as (e3 & ->).
  { intros [value|]; [apply emits_ret | apply watsonx_attempts_emits]. }
  unfold watsonx_attempt at 1.
  match goal with
  | |- context [try_except ?m ?h w] =>
      destruct (try_except_extends (posts_only payload) m h w) as (e2 & ->)
  end.
  { intros e. emits_auto. }
  match goal with
  | |- context [bind ?m ?k w] =>
      destruct (bind_extends (posts_only payload) m k w) as (e1 & ->)
  end.
  { intros tok. unfold set_cache_token, set_cache_expiry.
    emits_auto; reflexivity. }
  change (0 <? S attempt)%nat with true.
  rewrite forced_refresh_exchanges.
  exists (e1 ++ e2 ++ e3). now rewrite <- !app_assoc.
Qed.

End Retry.

(** C5. Take a call of [make_watsonx_request] that comes to an iteration
    of its loop, the first or a later one, in which a token is got and the
    chat endpoint answers.  If the status is 401 and attempts remain, the
    cached token and expiry are cleared and the call goes on with the next
    iteration, whose token fetch is a forced refresh: the next events of
    the call are a time read and an exchange of the key.  If the status is
    200 the call returns the parsed body.  On any other status, such as
    403 or 500, and on 401 at the last attempt, the call raises at once an
    error with the status of the response and its body, and sends nothing
    more.  A call sends at most [max_retries + 1] chat requests, so at
    most [max_retries] (2 for the endpoints) after the first. *)
Theorem watsonx_retries_on_401_only {num : Type} `{PyNumber num}
    {sample : Type} (E : Env num sample) (payload : Payload) (api_key : str)
    (max_retries attempt : nat) (w0 w w1 : World num sample)
    (tok : str) (response : ChatResponse) :
  attempt_world E payload api_key max_retries attempt w0 = Some w ->
  get_access_token E api_key (0 <? attempt)%nat w = (Ok (Some tok), w1) ->
  tok <> [] ->
  post_chat E (events w1) (bearer (Some tok)) payload = Returns response ->
  let sent := log w1 [ChatPost (bearer (Some tok)) payload] in
  (status_code response = 401 -> (attempt < max_retries)%nat ->
   attempt_world E payload api_key max_retries (S attempt) w0
   = Some (with_cache sent cleared_cache)
   /\
   exists evs,
     events (snd (make_watsonx_request E payload api_key max_retries w0))
     = events sent ++ [TimeRead; TokenPost api_key] ++ evs)
  /\
  (status_code response <> 200 ->
   ~ (status_code response = 401 /\ (attempt < max_retries)%nat) ->
   make_watsonx_request E payload api_key max_retries w0
   = (Raise (HTTPException (status_code response)
               (lit "WatsonX API Error: " ++ text response)),
      sent))
  /\
  (forall body,
     status_code response = 200 -> json response = Returns body ->
     make_watsonx_request E payload api_key max_retries w0 = (Ok body, sent))
  /\
  (chat_posts (events (snd (make_watsonx_request E payload api_key max_retries w0)))
   <= chat_posts (events w0) + (max_retries + 1))%nat.
Proof.
  intros Hreach Hget Hne Hpost sent.
  destruct (attempt_world_run E payload api_key max_retries attempt w0 w Hreach)
    as [Hle Hcall].
  pose proof (watsonx_attempt_response E payload api_key max_retries attempt
                w w1 tok response Hget Hne Hpost) as Hrun.
  fold sent in Hrun. cbn zeta in Hrun.
  split; [|split; [|split]].
  - intros H401 Hleft.
    assert (Hstep : watsonx_attempt E payload api_key max_retries attempt w
                    = (Ok Continue, with_cache sent cleared_cache)).
    { apply Nat.ltb_lt in Hleft. rewrite Hrun, H401, Hleft. reflexivity. }
    assert (Hnext : attempt_world E payload api_key max_retries (S attempt) w0
                    = Some (with_cache sent cleared_cache)).
    { cbn [attempt_world]. rewrite Hreach, Hstep.
      apply Nat.ltb_lt in Hleft. now rewrite Hleft. }
    split; [exact Hnext|].
    destruct (attempt_world_run E payload api_key max_retries (S attempt) w0 _ Hnext)
      as [_ ->].
    destruct (watsonx_attempts_start_forced E payload api_key max_retries
                (max_retries - S attempt) attempt (with_cache sent cleared_cache))
      as (evs & ->).
    exists evs. reflexivity.
  - intros H200 Hnot. rewrite Hcall.
    cbn [watsonx_attempts]. unfold bind at 1. rewrite Hrun.
    destruct (Z.eqb_spec (status_code response) 200); [contradiction|].
    destruct (Z.eqb_spec (status_code response) 401);
      destruct (Nat.ltb_spec attempt max_retries); cbn [andb];
      try reflexivity.
    exfalso. apply Hnot. now split.
  - intros body H200 Hjson. rewrite Hcall.
    cbn [watsonx_attempts]. unfold bind at 1. rewrite Hrun, H200, Hjson.
    reflexivity.
  - unfold make_watsonx_request.
    destruct (watsonx_attempts_posts E payload api_key max_retries
                (max_retries + 1) 0 w0) as (evs & -> & Hposts).
    rewrite chat_posts_app. lia.
Qed.

(** In [retry_env] the first request is answered 401: the call goes on to
    a second iteration, which exchanges the key again, is answered 200 and
    makes the call return. *)
Lemma watsonx_retries_on_401_only_witness :
  (exists evs,
     events (snd (make_watsonx_request retry_env example_payload (lit "key") 2
                    initial_world))
     = events first_token_world
       ++ [ChatPost (bearer (Some (lit "token-0"))) example_payload]
       ++ [TimeRead; TokenPost (lit "key")] ++ evs)
  /\
  exists body,
    fst (make_watsonx_request retry_env example_payload (lit "key") 2 initial_world)
    = Ok (Some body).
Proof.
  split.
  - destruct (watsonx_retries_on_401_only retry_env example_payload (lit "key")
                2 0 initial_world initial_world first_token_world
                (lit "token-0") rejected) as [Hretry _].
    + reflexivity.
    + vm_compute. reflexivity.
    + discriminate.
    + vm_compute. reflexivity.
    + destruct (Hretry eq_refl ltac:(lia)) as [_ [evs Hevs]].
      exists evs. rewrite Hevs. cbn [log events]. now rewrite <- app_assoc.
  - pose (second := with_cache
                      (log first_token_world
                         [ChatPost (bearer (Some (lit "token-0"))) example_payload])
                      cleared_cache).
    destruct (watsonx_retries_on_401_only retry_env example_payload (lit "key")
                2 1 initial_world second
                (snd (get_access_token retry_env (lit "key") true second))
                (lit "token-1")
                {| status_code := 200;
                   text := lit "GST_REGISTRATION The caller asks how to register.";
                   json := Returns (Some
                     {| is_empty := false;
                        content_of :=
                          Returns (lit "GST_REGISTRATION The caller asks how to register.") |}) |})
      as (_ & _ & Hbody & _).
    + vm_compute. reflexivity.
    + vm_compute. reflexivity.
    + discriminate.
    + vm_compute. reflexivity.
    + eexists. rewrite (Hbody _ eq_refl eq_refl). reflexivity.
Defined.

(** One 401, then 200: two chat requests, two exchanges, success. *)
Example retried_once_after_401 :
  let out := make_watsonx_request retry_env example_payload (lit "key") 2 initial_world in
  (exists body, fst out = Ok (Some body)) /\
  chat_posts (events (snd out)) = 2%nat /\
  token_posts (events (snd out)) = 2%nat.
Proof. vm_compute. eauto. Qed.

(** A 403 and a 500 are not retried: one chat request, and the error
    carries the status and the body. *)
Example not_retried_on_403_or_500 :
  let out403 := make_watsonx_request
                  (example_env fresh_tokens (chat_always 403) model_hears)
                  example_payload (lit "key") 2 initial_world in
  let out500 := make_watsonx_request
                  (example_env fresh_tokens (chat_always 500) model_hears)
                  example_payload (lit "key") 2 initial_world in
  fst out403
  = Raise (HTTPException 403
             (lit "WatsonX API Error: GST_REGISTRATION The caller asks how to register.")) /\
  chat_posts (events (snd out403)) = 1%nat /\
  fst out500
  = Raise (HTTPException 500
             (lit "WatsonX API Error: GST_REGISTRATION The caller asks how to register.")) /\
  chat_posts (events (snd out500)) = 1%nat.
Proof. vm_compute. auto. Qed.

(** A 401 to every request: three chat requests, then the 401 is raised. *)
Example gives_up_after_three_401 :
  let out := make_watsonx_request
               (example_env fresh_tokens (chat_always 401) model_hears)
               example_payload (lit "key") 2 initial_world in
  fst out
  = Raise (HTTPException 401
             (lit "WatsonX API Error: GST_REGISTRATION The caller asks how to register.")) /\
  chat_posts (events (snd out)) = 3%nat.
Proof. vm_compute. auto. Qed.

(** Apart from the responses, an attempt whose request fails at the
    network level is followed by a sleep of one second and another
    attempt. *)
Example network_error_retried_after_sleep :
  let out := make_watsonx_request
               (example_env fresh_tokens chat_down_then_ok model_hears)
               example_payload (lit "key") 2 initial_world in
  (exists body, fst out = Ok (Some body)) /\
  chat_posts (events (snd out)) = 2%nat /\
  In (Sleep 1) (events (snd out)).
Proof. vm_compute. split; [eauto|]. split; [reflexivity|]. tauto. Qed.

(* ------------------------------------------------------------------ *)
(** ** The full pipeline *)

Section Pipeline.
Context {num : Type} `{PyNumber num} {sample : Type} (zero : sample)
        (E : Env num sample).

(** What passes the handlers of an endpoint is an [HTTPException], and
    it passes a second such handler unchanged. *)
Lemma reraise_http_raises {A} (prefix : string) (m : M num sample A)
    (w w' : World num sample) (e : exn) :
  reraise_http E prefix m w = (Raise e, w') ->
  exists status_code detail, e = HTTPException status_code detail.
Proof.
  unfold reraise_http, try_except, raise.
  destruct (m w) as [[a|[c d|msg|msg]|] w1]; intros [= <- <-]; eauto.
Qed.

Lemma transcribe_chunks_emits (p : DecodeParams) (sampling_rate : Z)
    (chunks : list (list sample)) (acc : list str) :
  emits local_event (transcribe_chunks E p sampling_rate chunks acc).
Proof.
  revert acc. induction chunks as [|chunk rest IH]; intros acc; cbn.
  - apply emits_ret.
  - apply emits_bind; [|intros; apply IH].
    unfold transcribe_chunk, generate. emits_auto.
Qed.

Lemma transcribe_segments_emits (p : DecodeParams) (sampling_rate : Z)
    (segments : option (list (Segment sample))) :
  emits local_event (transcribe_segments E p sampling_rate segments).
Proof.
  unfold transcribe_segments. destruct segments; [|apply emits_diverge].
  apply emits_bind; [apply transcribe_chunks_emits|].
  intros [|]; emits_auto.
Qed.

(** Transcription talks to the file, the decoder and the speech model,
    never to the IAM or chat endpoints. *)
Lemma transcribe_audio_file_emits (upload : UploadFile) :
  emits local_event (transcribe_audio_file zero E upload).
Proof.
  unfold transcribe_audio_file, load_whisper_model.
  apply emits_reraise_http.
  apply emits_bind; [emits_auto|]. intros content.
  destruct (max_size <? len content); [apply emits_raise|].
  apply emits_bind; [emits_auto|]. intros _.
  apply emits_bind; [emits_auto|]. intros path.
  apply emits_try_finally; [|emits_auto].
  unfold transcribe_by_duration.
  apply emits_bind; [unfold preprocess_audio; emits_auto|].
  intros [audio sr].
  unfold transcribe_very_long_audio, transcribe_long_audio,
    transcribe_short_audio, generate.
  destruct (Qgtb _ _); [|destruct (Qgtb _ _)];
    apply emits_reraise_500; try apply transcribe_segments_emits.
  emits_auto.
Qed.

(** Intent recognition sends its own payload to the chat endpoint and no
    other. *)
Lemma recognize_intent_emits (text_content : str) :
  emits (posts_only
           (intent_payload text_content
              (env_value (getenv E (lit "MODEL_ID")))
              (env_value (getenv E (lit "PROJECT_ID")))))
    (recognize_intent_endpoint E [(lit "text", text_content)]).
Proof.
  unfold recognize_intent_endpoint. apply emits_reraise_http.
  destruct (negb _); [apply emits_raise|].
  replace (dict_get_str [(lit "text", text_content)] (lit "text"))
    with text_content by reflexivity.
  destruct (negb (nonempty text_content)); [apply emits_raise|].
  apply emits_bind; [apply watsonx_attempts_emits|].
  intros [body|]; emits_auto.
Qed.
End Pipeline.

Lemma intent_payload_not_resolution
    (text_content model project system_message intent content model' project' : str) :
  intent_payload text_content model project
  <> resolution_payload system_message intent content model' project'.
Proof. intros Heq. apply (f_equal (fun p => max_new_tokens (parameters p))) in Heq. discriminate. Qed.

(** C8. In [full_analysis_endpoint], past the file name and API key
    checks: if transcription raises, the endpoint raises the same error
    in the world transcription left, and no chat request was sent, neither
    for the intent nor for the resolution; if transcription returns and
    intent recognition raises, the endpoint raises the same error in the
    world intent recognition left, and every chat request sent carries the
    intent payload, which no resolution payload equals. *)
Theorem full_analysis_short_circuits {num : Type} `{PyNumber num}
    {sample : Type} (zero : sample) (E : Env num sample) (upload : UploadFile)
    (w : World num sample) :
  endswith (lower (filename upload)) (lit ".mp3") = true ->
  truthy (getenv E (lit "API_KEY")) = true ->
  (forall e w1,
     transcribe_audio_file zero E upload w = (Raise e, w1) ->
     full_analysis_endpoint zero E upload w = (Raise e, w1) /\
     chat_payloads (events w1) = chat_payloads (events w))
  /\
  (forall transcription w1 e w2,
     transcribe_audio_file zero E upload w = (Ok transcription, w1) ->
     recognize_intent_endpoint E [(lit "text", transcription)] w1 = (Raise e, w2) ->
     full_analysis_endpoint zero E upload w = (Raise e, w2) /\
     exists sent,
       chat_payloads (events w2) = chat_payloads (events w) ++ sent /\
       Forall (fun payload =>
                 payload = intent_payload transcription
                             (env_value (getenv E (lit "MODEL_ID")))
                             (env_value (getenv E (lit "PROJECT_ID"))) /\
                 forall system_message intent content model project,
                   payload <> resolution_payload system_message intent content
                                model project)
              sent).
Proof.
  intros Hname Hkey. split.
  - intros e w1 Hfail.
    destruct (reraise_http_raises E _ _ _ _ _ Hfail) as (c & d & ->).
    split.
    + unfold full_analysis_endpoint, reraise_http at 1, try_except, bind.
      rewrite Hname, Hkey. cbn [negb]. rewrite Hfail. reflexivity.
    + destruct (transcribe_audio_file_emits zero E upload w) as (evs & Hev & Hloc).
      rewrite Hfail in Hev. cbn [snd] in Hev.
      rewrite Hev, chat_payloads_app, (chat_payloads_local evs Hloc).
      apply app_nil_r.
  - intros transcription w1 e w2 Hok Hfail.
    destruct (reraise_http_raises E _ _ _ _ _ Hfail) as (c & d & ->).
    split.
    + unfold full_analysis_endpoint, reraise_http at 1, try_except, bind.
      rewrite Hname, Hkey. cbn [negb]. rewrite Hok, Hfail. reflexivity.
    + destruct (transcribe_audio_file_emits zero E upload w) as (evs & Hev & Hloc).
      rewrite Hok in Hev. cbn [snd] in Hev.
      destruct (recognize_intent_emits E transcription w1) as (evs' & Hev' & Honly).
      rewrite Hfail in Hev'. cbn [snd] in Hev'.
      exists (chat_payloads evs'). split.
      * rewrite Hev', Hev, !chat_payloads_app, (chat_payloads_local evs Hloc).
        now rewrite app_nil_r.
      * apply chat_payloads_only in Honly.
        eapply Forall_impl; [|exact Honly].
        intros payload ->. split; [reflexivity|].
        intros. apply intent_payload_not_resolution.
Qed.

Lemma full_analysis_short_circuits_witness :
  full_analysis_endpoint 0 deaf_env mp3_upload initial_world
  = (Raise (HTTPException 500
              (lit "Short audio transcription failed: CUDA out of memory")),
     snd (transcribe_audio_file 0 deaf_env mp3_upload initial_world)) /\
  chat_payloads (events (snd (transcribe_audio_file 0 deaf_env mp3_upload initial_world)))
  = chat_payloads (events initial_world).
Proof.
  apply (proj1 (full_analysis_short_circuits 0 deaf_env mp3_upload initial_world
                  eq_refl eq_refl)).
  vm_compute. reflexivity.
Defined.

(** The speech model fails: no token is fetched and no chat request sent. *)
Example transcription_failure_stops_pipeline :
  let out := full_analysis_endpoint 0 deaf_env mp3_upload initial_world in
  fst out = Raise (HTTPException 500
                     (lit "Short audio transcription failed: CUDA out of memory")) /\
  chat_posts (events (snd out)) = 0%nat /\
  token_posts (events (snd out)) = 0%nat.
Proof. vm_compute. auto. Qed.

(** The chat endpoint answers 500 to the intent request: that is the only
    chat request sent. *)
Example intent_failure_stops_pipeline :
  let out := full_analysis_endpoint 0 broken_chat_env mp3_upload initial_world in
  fst out
  = Raise (HTTPException 500
             (lit "WatsonX API Error: GST_REGISTRATION The caller asks how to register.")) /\
  chat_payloads (events (snd out))
  = [intent_payload (lit "How do I register for GST?")
       (lit "value-of-MODEL_ID") (lit "value-of-PROJECT_ID")].
Proof. vm_compute. auto. Qed.

(** Everything answers: three chat requests (the first intent request is
    rejected with 401, the second succeeds, then the resolution). *)
Example full_pipeline_runs :
  let out := full_analysis_endpoint 0 retry_env mp3_upload initial_world in
  (exists response,
     fst out = Ok response /\
     fa_transcription response = lit "How do I register for GST?" /\
     fa_intent response = lit "GST_REGISTRATION The caller asks how to register.") /\
  map (fun payload => max_new_tokens (parameters payload))
      (chat_payloads (events (snd out)))
  = [100; 100; 1500].
Proof. vm_compute. eauto. Qed.

(* ------------------------------------------------------------------ *)
(** ** Upload endpoints: the file name check *)

(** C10. When the name of the uploaded file, lowercased, does not end in
    [".mp3"], [/transcribe] and [/analyze] raise the status-400 error
    "Only MP3 files are supported" and nothing has happened by then: no
    event at all, so the file was not read (the size check comes after
    the read), nothing was decoded and no model was loaded or called. *)
Theorem non_mp3_rejected_first {num : Type} `{PyNumber num} {sample : Type}
    (zero : sample) (E : Env num sample) (upload : UploadFile)
    (w : World num sample) :
  endswith (lower (filename upload)) (lit ".mp3") = false ->
  transcribe_audio_endpoint zero E upload w = (Raise only_mp3, w) /\
  full_analysis_endpoint zero E upload w = (Raise only_mp3, w).
Proof.
  intros Hname.
  unfold transcribe_audio_endpoint, full_analysis_endpoint, reraise_http,
    try_except. rewrite Hname. split; reflexivity.
Qed.

Lemma non_mp3_rejected_first_witness :
  transcribe_audio_endpoint 0
    (example_env fresh_tokens (chat_always 200) model_hears) wav_upload initial_world
  = (Raise only_mp3, initial_world) /\
  full_analysis_endpoint 0
    (example_env fresh_tokens (chat_always 200) model_hears) wav_upload initial_world
  = (Raise only_mp3, initial_world).
Proof.
  apply (non_mp3_rejected_first 0
           (example_env fresh_tokens (chat_always 200) model_hears)
           wav_upload initial_world).
  vm_compute. reflexivity.
Defined.

(** The check ignores case: ["Call-0042.MP3"] passes it. *)
Example mp3_name_any_case :
  endswith (lower (filename mp3_upload)) (lit ".mp3") = true.
Proof. vm_compute. reflexivity. Qed.

(* ================================================================== *)
(** * Further properties *)

(* ------------------------------------------------------------------ *)
(** ** More on the chunking loop *)

Lemma slice_skipn {A} (l : list A) (start stop : Z) :
  0 <= start <= stop -> stop <= len l ->
  slice l start stop ++ skipn (Z.to_nat stop) l = skipn (Z.to_nat start) l.
Proof.
  unfold slice, len. intros H1 H2.
  rewrite <- (firstn_skipn (Z.to_nat (stop - start)) (skipn (Z.to_nat start) l)) at 2.
  f_equal. rewrite skipn_skipn. f_equal. lia.
Qed.

Lemma slice_to_end {A} (l : list A) (start : Z) :
  0 <= start <= len l -> slice l start (len l) = skipn (Z.to_nat start) l.
Proof.
  unfold slice, len. intros Hs. apply firstn_all2.
  rewrite length_skipn. lia.
Qed.

Lemma slice_whole {A} (l : list A) : slice l 0 (len l) = l.
Proof. rewrite slice_to_end by (unfold len; lia). reflexivity. Qed.

Lemma skipn_slice {A} (l : list A) (start stop k : Z) :
  0 <= start -> 0 <= k -> start + k <= stop -> stop <= len l ->
  skipn (Z.to_nat k) (slice l start stop) = slice l (start + k) stop.
Proof.
  unfold slice, len. intros H1 H2 H3 H4.
  rewrite skipn_firstn_comm, skipn_skipn. f_equal; [lia|]. f_equal. lia.
Qed.

Section ChunkLoopMore.
Context {sample : Type} (zero : sample).
Variables (audio_array : list sample) (chunk_samples overlap_samples : Z).
Hypothesis Hov : 0 <= overlap_samples < chunk_samples.

Let n := len audio_array.

(** What the chunks cut from [start > 0] on hold past their first
    [overlap_samples] samples: the rest of the waveform, then padding. *)
Lemma chunk_loop_tail (fuel : nat) (start : Z) (segs : list (Segment sample)) :
  0 < start -> start + overlap_samples < n ->
  chunk_loop zero fuel audio_array chunk_samples overlap_samples start = Some segs ->
  exists padding,
    concat (map (skipn (Z.to_nat overlap_samples)) (map seg_chunk segs))
    = skipn (Z.to_nat (start + overlap_samples)) audio_array ++ repeat zero padding.
Proof.
  revert start segs. induction fuel as [|fuel IH]; intros start segs Hs Hn;
    [discriminate|].
  cbn [chunk_loop]. fold n.
  destruct (Z.ltb_spec start n) as [_|]; [|lia].
  set (stop := Z.min (start + chunk_samples) n).
  assert (Hlen : len (slice audio_array start stop) = stop - start)
    by (apply slice_len; subst stop n; lia).
  rewrite Hlen.
  destruct (Z.ltb_spec 0 start) as [_|]; [|lia].
  destruct (Z.leb_spec n stop) as [Hend|Hmore].
  - intros [= <-]. cbn [map concat seg_chunk]. rewrite app_nil_r.
    assert (Hstop : stop = n) by (subst stop; lia).
    destruct (Z.ltb_spec (stop - start) chunk_samples); cbn [andb].
    + exists (Z.to_nat (chunk_samples - (stop - start))). unfold np_pad.
      rewrite skipn_app.
      replace (Z.to_nat overlap_samples - length (slice audio_array start stop))%nat
        with 0%nat by (unfold len in Hlen; lia).
      cbn [skipn]. f_equal.
      rewrite skipn_slice by (subst n; lia).
      rewrite Hstop. apply slice_to_end. subst n. lia.
    + exists 0%nat. cbn [repeat]. rewrite app_nil_r.
      rewrite skipn_slice by (subst n; lia).
      rewrite Hstop. apply slice_to_end. subst n. lia.
  - assert (Hstop : stop = start + chunk_samples) by (subst stop; lia).
    destruct (chunk_loop zero fuel audio_array chunk_samples overlap_samples
                (stop - overlap_samples)) as [rest|] eqn:Hrest; [|discriminate].
    intros [= <-].
    destruct (IH (stop - overlap_samples) rest ltac:(lia) ltac:(lia) Hrest)
      as [padding Hpad].
    exists padding. cbn [map concat seg_chunk]. rewrite Hpad.
    destruct (Z.ltb_spec (stop - start) chunk_samples); [lia|]. cbn [andb].
    rewrite skipn_slice by (subst n; lia).
    replace (stop - overlap_samples + overlap_samples) with stop by lia.
    rewrite app_assoc. f_equal.
    apply slice_skipn; subst n; lia.
Qed.

(** Nothing is lost: the waveform can be read back from the chunks. *)
Lemma split_chunks_reassemble (segs : list (Segment sample)) :
  split_chunks zero audio_array chunk_samples overlap_samples = Some segs ->
  reassemble overlap_samples n (map seg_chunk segs) = audio_array.
Proof.
  unfold split_chunks. cbn [chunk_loop]. fold n.
  destruct (Z.ltb_spec 0 n) as [Hn|Hn].
  - set (stop := Z.min (0 + chunk_samples) n).
    assert (Hlen : len (slice audio_array 0 stop) = stop - 0)
      by (apply slice_len; subst stop n; lia).
    rewrite Hlen. rewrite andb_false_r.
    destruct (Z.leb_spec n stop) as [Hend|Hmore].
    + intros [= <-]. cbn. rewrite app_nil_r.
      assert (Hstop : stop = n) by (subst stop; lia).
      rewrite Hstop. subst n. rewrite slice_whole.
      apply firstn_all2. unfold len. lia.
    + assert (Hstop : stop = chunk_samples) by (subst stop; lia).
      destruct (chunk_loop zero (length audio_array) audio_array chunk_samples
                  overlap_samples (stop - overlap_samples)) as [rest|] eqn:Hrest;
        [|discriminate].
      intros [= <-].
      destruct (chunk_loop_tail (length audio_array) (stop - overlap_samples) rest
                  ltac:(lia) ltac:(lia) Hrest) as [padding Hpad].
      cbn [map reassemble seg_chunk]. rewrite Hpad.
      replace (stop - overlap_samples + overlap_samples) with stop by lia.
      rewrite app_assoc, slice_skipn by (subst n; lia).
      cbn [Z.to_nat skipn].
      rewrite firstn_app.
      replace (Z.to_nat n - length audio_array)%nat with 0%nat by (subst n; unfold len; lia).
      cbn [firstn]. rewrite app_nil_r.
      apply firstn_all2. subst n. unfold len. lia.
  - intros [= <-]. cbn. destruct audio_array; [reflexivity|].
    subst n. unfold len in Hn. cbn in Hn. lia.
Qed.

(** How many chunks the loop cuts from [start] on. *)
Lemma chunk_loop_count (fuel : nat) (start : Z) (segs : list (Segment sample)) :
  0 <= start < n ->
  chunk_loop zero fuel audio_array chunk_samples overlap_samples start = Some segs ->
  len segs = chunk_count (n - start) chunk_samples overlap_samples.
Proof.
  unfold chunk_count.
  revert start segs. induction fuel as [|fuel IH]; intros start segs Hs;
    [discriminate|].
  cbn [chunk_loop]. fold n.
  destruct (Z.ltb_spec start n) as [_|]; [|lia].
  set (stop := Z.min (start + chunk_samples) n).
  set (d := chunk_samples - overlap_samples).
  assert (Hd : 0 < d) by (subst d; lia).
  destruct (Z.leb_spec n stop) as [Hend|Hmore].
  - intros [= <-]. unfold len. cbn [length].
    assert ((n - start - overlap_samples - 1) / d <= 0).
    { apply Z.lt_succ_r. apply Z.div_lt_upper_bound; subst d stop; lia. }
    lia.
  - assert (Hstop : stop = start + chunk_samples) by (subst stop; lia).
    destruct (chunk_loop zero fuel audio_array chunk_samples overlap_samples
                (stop - overlap_samples)) as [rest|] eqn:Hrest; [|discriminate].
    intros [= <-].
    specialize (IH (stop - overlap_samples) rest ltac:(lia) Hrest).
    unfold len in *. cbn [length]. rewrite Nat2Z.inj_succ, IH.
    replace (n - start - overlap_samples - 1)
      with ((n - (stop - overlap_samples) - overlap_samples - 1) + 1 * d)
      by (subst d; lia).
    rewrite Z.div_add by lia.
    assert (0 <= (n - (stop - overlap_samples) - overlap_samples - 1) / d)
      by (apply Z.div_pos; lia).
    subst d. lia.
Qed.
End ChunkLoopMore.

(** The chunking loop returns for every waveform when the window is
    longer than the overlap. *)
Lemma split_chunks_total {sample} (zero : sample) (audio_array : list sample)
    (chunk_samples overlap_samples : Z) :
  0 <= overlap_samples < chunk_samples ->
  exists segs,
    split_chunks zero audio_array chunk_samples overlap_samples = Some segs.
Proof.
  intros Hov. destruct audio_array as [|x rest] eqn:Ha.
  - exists []. reflexivity.
  - destruct (split_chunks_returns zero (x :: rest) chunk_samples overlap_samples Hov)
      as (segs & Hsegs & _).
    + unfold len. cbn [length]. lia.
    + exists segs. exact Hsegs.
Qed.

(** In a good plan of a waveform longer than one window every chunk has
    the length of the window. *)
Lemma good_plan_chunk_length {sample} (zero : sample) (audio_array : list sample)
    (chunk_samples overlap_samples : Z) (segs : list (Segment sample)) :
  0 <= overlap_samples < chunk_samples ->
  chunk_samples < len audio_array ->
  good_plan zero audio_array chunk_samples overlap_samples segs ->
  Forall (fun s => len (seg_chunk s) = chunk_samples) segs.
Proof.
  intros Hov Hlong (_ & Hwin & Hpad & _).
  rewrite Forall_forall in *. intros s Hs.
  destruct (Hwin s Hs) as [Hrange Hend]. rewrite (Hpad s Hs).
  unfold len at 1. rewrite length_app, repeat_length, Nat2Z.inj_add.
  fold (len (slice audio_array (seg_start s) (seg_end s))).
  rewrite slice_len by lia.
  destruct (Z.ltb_spec 0 (seg_start s)); lia.
Qed.

(** X1. In the LONG and VERY_LONG tiers every chunk the loop appends, the
    first, the middle ones and the padded last one, has exactly
    [chunk_samples] samples: 30 seconds, respectively 20 seconds, of
    samples. *)
Theorem tier_chunks_have_window_length {sample} (zero : sample)
    (audio_array : list sample) (sampling_rate : Z) :
  0 < sampling_rate ->
  (select_tier (duration audio_array sampling_rate) = LONG ->
   exists segs,
     long_chunks zero audio_array sampling_rate = Some segs /\
     Forall (fun s => len (seg_chunk s) = 30 * sampling_rate) segs)
  /\
  (select_tier (duration audio_array sampling_rate) = VERY_LONG ->
   exists segs,
     very_long_chunks zero audio_array sampling_rate = Some segs /\
     Forall (fun s => len (seg_chunk s) = 20 * sampling_rate) segs).
Proof.
  intros Hsr. rewrite select_tier_duration by assumption.
  split; intros Htier.
  - assert (Hlong : 30 * sampling_rate < len audio_array).
    { destruct (600 * sampling_rate <? len audio_array); [discriminate|].
      destruct (Z.ltb_spec (30 * sampling_rate) (len audio_array));
        [assumption | discriminate]. }
    destruct (split_chunks_returns zero audio_array (30 * sampling_rate)
                (2 * sampling_rate)) as (segs & Hsegs & Hplan); [lia | lia |].
    exists segs. split; [exact Hsegs|].
    eapply good_plan_chunk_length; [| |exact Hplan]; lia.
  - assert (Hlong : 600 * sampling_rate < len audio_array).
    { destruct (Z.ltb_spec (600 * sampling_rate) (len audio_array)); [assumption|].
      destruct (30 * sampling_rate <? len audio_array); discriminate. }
    destruct (split_chunks_returns zero audio_array (20 * sampling_rate)
                (1 * sampling_rate)) as (segs & Hsegs & Hplan); [lia | lia |].
    exists segs. split; [exact Hsegs|].
    eapply good_plan_chunk_length; [| |exact Hplan]; lia.
Qed.

Lemma tier_chunks_have_window_length_witness :
  exists segs,
    long_chunks 0 silence_31s 16000 = Some segs /\
    Forall (fun s => len (seg_chunk s) = 30 * 16000) segs.
Proof.
  refine (proj1 (tier_chunks_have_window_length 0 silence_31s 16000 _) _).
  - reflexivity.
  - vm_compute. reflexivity.
Defined.

(** X2. The chunking loop loses no sample: the first chunk followed by
    every later chunk without its first [overlap_samples] samples, cut at
    the length of the waveform (which drops the padding of the last
    chunk), is the waveform again.  This holds for both chunked
    transcriptions and every waveform. *)
Theorem chunks_reassemble_waveform {sample} (zero : sample)
    (audio_array : list sample) (sampling_rate : Z) :
  0 < sampling_rate ->
  (exists segs,
     long_chunks zero audio_array sampling_rate = Some segs /\
     reassemble (2 * sampling_rate) (len audio_array) (map seg_chunk segs)
     = audio_array)
  /\
  (exists segs,
     very_long_chunks zero audio_array sampling_rate = Some segs /\
     reassemble (1 * sampling_rate) (len audio_array) (map seg_chunk segs)
     = audio_array).
Proof.
  intros Hsr. split.
  - destruct (split_chunks_total zero audio_array (30 * sampling_rate)
                (2 * sampling_rate)) as [segs Hsegs]; [lia|].
    exists segs. split; [exact Hsegs|].
    apply (split_chunks_reassemble zero audio_array (30 * sampling_rate)); [lia|].
    exact Hsegs.
  - destruct (split_chunks_total zero audio_array (20 * sampling_rate)
                (1 * sampling_rate)) as [segs Hsegs]; [lia|].
    exists segs. split; [exact Hsegs|].
    apply (split_chunks_reassemble zero audio_array (20 * sampling_rate)); [lia|].
    exact Hsegs.
Qed.

Lemma chunks_reassemble_waveform_witness :
  exists segs,
    long_chunks 0 ramp70 1 = Some segs /\
    reassemble (2 * 1) (len ramp70) (map seg_chunk segs) = ramp70.
Proof.
  exact (proj1 (chunks_reassemble_waveform 0 ramp70 1 eq_refl)).
Defined.

(** The chunks of [ramp70] at one sample per second, and the waveform
    read back from them. *)
Example ramp70_reassembled :
  option_map (fun segs => reassemble 2 70 (map seg_chunk segs)) (long_chunks 0 ramp70 1)
  = Some ramp70.
Proof. vm_compute. reflexivity. Qed.

Lemma split_chunks_count {sample} (zero : sample) (audio_array : list sample)
    (chunk_samples overlap_samples : Z) (segs : list (Segment sample)) :
  0 <= overlap_samples < chunk_samples ->
  0 < len audio_array ->
  split_chunks zero audio_array chunk_samples overlap_samples = Some segs ->
  len (map seg_chunk segs)
  = chunk_count (len audio_array) chunk_samples overlap_samples.
Proof.
  intros Hov Hn Hsegs. unfold len at 1. rewrite length_map.
  fold (len segs).
  rewrite (chunk_loop_count zero audio_array chunk_samples overlap_samples Hov
             (S (length audio_array)) 0 segs); [|lia|exact Hsegs].
  now rewrite Z.sub_0_r.
Qed.

Lemma chunked_transcription_events {num sample : Type} (E : Env num sample)
    (p : DecodeParams) (sampling_rate : Z) (prefix : string)
    (segs : list (Segment sample)) (w : World num sample) :
  snd (reraise_500 E prefix (transcribe_segments E p sampling_rate (Some segs)) w)
  = log w (generate_events p sampling_rate (map seg_chunk segs)).
Proof. apply (transcribe_segments_outcome E p sampling_rate prefix segs w). Qed.

(** X3. A chunked transcription of [n > 0] samples calls the model
    exactly [1 + max(0, (n - overlap_samples - 1) // (chunk_samples -
    overlap_samples))] times, once per chunk, and does nothing else to the
    outside.  Hence a LONG transcription takes between 2 and 22 model
    calls, and a VERY_LONG one at least 32. *)
Theorem chunked_transcription_call_count {num sample : Type} (zero : sample)
    (E : Env num sample) (audio_array : list sample) (sampling_rate : Z)
    (w : World num sample) :
  0 < sampling_rate ->
  0 < len audio_array ->
  (exists chunks,
     snd (transcribe_long_audio zero E audio_array sampling_rate w)
     = log w (generate_events long_params sampling_rate chunks) /\
     len chunks
     = chunk_count (len audio_array) (30 * sampling_rate) (2 * sampling_rate) /\
     (select_tier (duration audio_array sampling_rate) = LONG ->
      2 <= len chunks <= 22))
  /\
  (exists chunks,
     snd (transcribe_very_long_audio zero E audio_array sampling_rate w)
     = log w (generate_events very_long_params sampling_rate chunks) /\
     len chunks
     = chunk_count (len audio_array) (20 * sampling_rate) (1 * sampling_rate) /\
     (select_tier (duration audio_array sampling_rate) = VERY_LONG ->
      32 <= len chunks)).
Proof.
  intros Hsr Hn. rewrite select_tier_duration by assumption. split.
  - destruct (split_chunks_total zero audio_array (30 * sampling_rate)
                (2 * sampling_rate)) as [segs Hsegs]; [lia|].
    exists (map seg_chunk segs).
    rewrite (split_chunks_count zero audio_array (30 * sampling_rate)
               (2 * sampling_rate) segs ltac:(lia) Hn Hsegs).
    split; [|split; [reflexivity|]].
    + unfold transcribe_long_audio, long_chunks. rewrite Hsegs.
      apply chunked_transcription_events.
    + intros Htier. unfold chunk_count.
      destruct (Z.ltb_spec (600 * sampling_rate) (len audio_array)); [discriminate|].
      destruct (Z.ltb_spec (30 * sampling_rate) (len audio_array)); [|discriminate].
      replace (30 * sampling_rate - 2 * sampling_rate) with (28 * sampling_rate) by lia.
      assert (1 <= (len audio_array - 2 * sampling_rate - 1) / (28 * sampling_rate))
        by (apply Z.div_le_lower_bound; lia).
      assert ((len audio_array - 2 * sampling_rate - 1) / (28 * sampling_rate) < 22)
        by (apply Z.div_lt_upper_bound; lia).
      lia.
  - destruct (split_chunks_total zero audio_array (20 * sampling_rate)
                (1 * sampling_rate)) as [segs Hsegs]; [lia|].
    exists (map seg_chunk segs).
    rewrite (split_chunks_count zero audio_array (20 * sampling_rate)
               (1 * sampling_rate) segs ltac:(lia) Hn Hsegs).
    split; [|split; [reflexivity|]].
    + unfold transcribe_very_long_audio, very_long_chunks. rewrite Hsegs.
      apply chunked_transcription_events.
    + intros Htier. unfold chunk_count.
      destruct (Z.ltb_spec (600 * sampling_rate) (len audio_array)); [|
        destruct (30 * sampling_rate <? len audio_array); discriminate].
      replace (20 * sampling_rate - 1 * sampling_rate) with (19 * sampling_rate) by lia.
      assert (31 <= (len audio_array - 1 * sampling_rate - 1) / (19 * sampling_rate))
        by (apply Z.div_le_lower_bound; lia).
      lia.
Qed.

Lemma chunked_transcription_call_count_witness :
  exists chunks,
    snd (transcribe_long_audio 0 deaf_env ramp70 1 initial_world)
    = log initial_world (generate_events long_params 1 chunks) /\
    len chunks = chunk_count (len ramp70) (30 * 1) (2 * 1) /\
    (select_tier (duration ramp70 1) = LONG -> 2 <= len chunks <= 22).
Proof.
  refine (proj1 (chunked_transcription_call_count 0 deaf_env ramp70 1
                   initial_world _ _)).
  - reflexivity.
  - vm_compute. reflexivity.
Defined.

(** The shortest LONG and the longest LONG waveform at 16 kHz. *)
Example call_counts_at_16k :
  chunk_count 480001 480000 32000 = 2 /\
  chunk_count 9600000 480000 32000 = 22 /\
  chunk_count 9600001 320000 16000 = 32.
Proof. vm_compute. auto. Qed.

(** X4. A waveform that fits in one window is not split and not padded
    when one of the chunked transcriptions is called on it: its only chunk
    is the waveform itself, the model is called once on it, and the result
    is that transcript stripped (or the "No successful chunk
    transcriptions" error when the call fails or the transcript is
    blank).  On an empty waveform there is no chunk and no model call, and
    the error is raised at once. *)
Theorem single_window_is_whole {num sample : Type} (zero : sample)
    (E : Env num sample) (audio_array : list sample) (sampling_rate : Z)
    (w : World num sample) :
  0 < sampling_rate ->
  (0 < len audio_array <= 30 * sampling_rate ->
   long_chunks zero audio_array sampling_rate
   = Some [{| seg_start := 0; seg_end := len audio_array;
              seg_chunk := audio_array |}] /\
   transcribe_long_audio zero E audio_array sampling_rate w
   = (match chunk_result E long_params sampling_rate (events w) audio_array with
      | Some transcript => Ok transcript
      | None => Raise (no_transcription_produced E "Long audio transcription failed: ")
      end,
      log w [Generate audio_array sampling_rate long_params]))
  /\
  (0 < len audio_array <= 20 * sampling_rate ->
   very_long_chunks zero audio_array sampling_rate
   = Some [{| seg_start := 0; seg_end := len audio_array;
              seg_chunk := audio_array |}] /\
   transcribe_very_long_audio zero E audio_array sampling_rate w
   = (match chunk_result E very_long_params sampling_rate (events w) audio_array with
      | Some transcript => Ok transcript
      | None =>
          Raise (no_transcription_produced E "Very long audio transcription failed: ")
      end,
      log w [Generate audio_array sampling_rate very_long_params]))
  /\
  (transcribe_long_audio zero E [] sampling_rate w
   = (Raise (no_transcription_produced E "Long audio transcription failed: "), w) /\
   transcribe_very_long_audio zero E [] sampling_rate w
   = (Raise (no_transcription_produced E "Very long audio transcription failed: "), w)).
Proof.
  intros Hsr.
  assert (Hone : forall chunk_samples overlap_samples,
             0 < len audio_array <= chunk_samples ->
             split_chunks zero audio_array chunk_samples overlap_samples
             = Some [{| seg_start := 0; seg_end := len audio_array;
                        seg_chunk := audio_array |}]).
  { intros cs ov Hn. unfold split_chunks. cbn [chunk_loop].
    destruct (Z.ltb_spec 0 (len audio_array)); [|lia].
    replace (Z.min (0 + cs) (len audio_array)) with (len audio_array) by lia.
    rewrite slice_whole, andb_false_r.
    destruct (Z.leb_spec (len audio_array) (len audio_array)); [reflexivity | lia]. }
  assert (Hrun : forall p prefix,
             reraise_500 E prefix
               (transcribe_segments E p sampling_rate
                  (Some [{| seg_start := 0; seg_end := len audio_array;
                            seg_chunk := audio_array |}])) w
             = (match chunk_result E p sampling_rate (events w) audio_array with
                | Some transcript => Ok transcript
                | None => Raise (no_transcription_produced E prefix)
                end,
                log w [Generate audio_array sampling_rate p])).
  { intros p prefix.
    unfold reraise_500, try_except, transcribe_segments, bind.
    rewrite transcribe_chunks_run. cbn.
    destruct (chunk_result E p sampling_rate (events w) audio_array); reflexivity. }
  split; [|split].
  - intros Hn. split; [apply Hone; lia|].
    unfold transcribe_long_audio, long_chunks. rewrite Hone by lia. apply Hrun.
  - intros Hn. split; [apply Hone; lia|].
    unfold transcribe_very_long_audio, very_long_chunks. rewrite Hone by lia.
    apply Hrun.
  - split; reflexivity.
Qed.

Lemma single_window_is_whole_witness :
  long_chunks 0 [3; 1; 4; 1; 5] 1
  = Some [{| seg_start := 0; seg_end := len [3; 1; 4; 1; 5];
             seg_chunk := [3; 1; 4; 1; 5] |}] /\
  transcribe_long_audio 0 retry_env [3; 1; 4; 1; 5] 1 initial_world
  = (match chunk_result retry_env long_params 1 (events initial_world) [3; 1; 4; 1; 5] with
     | Some transcript => Ok transcript
     | None => Raise (no_transcription_produced retry_env "Long audio transcription failed: ")
     end,
     log initial_world [Generate [3; 1; 4; 1; 5] 1 long_params]).
Proof.
  apply (proj1 (single_window_is_whole 0 retry_env [3; 1; 4; 1; 5] 1
                  initial_world eq_refl)).
  vm_compute. split; [reflexivity | discriminate].
Defined.

(* ------------------------------------------------------------------ *)
(** ** The reconciler on words *)

Lemma split_from_app_space (cur a b : str) (sp : char) :
  isspace sp = true ->
  split_from cur (a ++ sp :: b) = split_from cur a ++ split_from [] b.
Proof.
  intros Hsp. revert cur. induction a as [|c a IH]; intros cur; cbn.
  - rewrite Hsp. destruct cur; reflexivity.
  - destruct (isspace c); [|apply IH].
    destruct cur; rewrite IH; reflexivity.
Qed.

Lemma split_from_spaces (cur a spaces : str) :
  Forall (fun c => isspace c = true) spaces ->
  split_from cur (a ++ spaces) = split_from cur a.
Proof.
  intros Hsp. revert cur a. induction Hsp as [|sp rest Hsp _ IH]; intros cur a.
  - now rewrite app_nil_r.
  - rewrite split_from_app_space by exact Hsp.
    specialize (IH [] []). cbn [app] in IH. rewrite IH. cbn. apply app_nil_r.
Qed.

Lemma split_from_word (cur w : str) :
  Forall (fun c => isspace c = false) w ->
  cur <> [] \/ w <> [] ->
  split_from cur w = [rev cur ++ w].
Proof.
  intros Hw. revert cur. induction Hw as [|c w Hc _ IH]; intros cur Hne.
  - cbn. destruct cur; [destruct Hne; congruence|]. now rewrite app_nil_r.
  - cbn. rewrite Hc, IH by (left; discriminate).
    cbn. now rewrite <- app_assoc.
Qed.

(** A word: not empty, no whitespace in it. *)
Lemma split_from_gives_words (cur s : str) :
  Forall (fun c => isspace c = false) cur ->
  Forall (fun w => w <> [] /\ Forall (fun c => isspace c = false) w)
         (split_from cur s).
Proof.
  revert cur. induction s as [|c s IH]; intros cur Hcur; cbn.
  - destruct cur as [|x cur]; constructor; [|constructor].
    split.
    + intros Hnil. apply (f_equal (@rev char)) in Hnil.
      rewrite rev_involutive in Hnil. discriminate.
    + apply Forall_rev. exact Hcur.
  - destruct (isspace c) eqn:Hc.
    + destruct cur as [|x cur]; [apply IH; constructor|].
      constructor; [|apply IH; constructor].
      split.
      * intros Hnil. apply (f_equal (@rev char)) in Hnil.
        rewrite rev_involutive in Hnil. discriminate.
      * apply Forall_rev. exact Hcur.
    + apply IH. constructor; assumption.
Qed.

Lemma split_join (ws : list str) :
  Forall (fun w => w <> [] /\ Forall (fun c => isspace c = false) w) ws ->
  split (join (lit " ") ws) = ws.
Proof.
  induction 1 as [|w ws [Hne Hw] Hws IH]; [reflexivity|].
  destruct ws as [|w' ws'].
  - cbn [join]. unfold split. rewrite split_from_word by auto. reflexivity.
  - change (join (lit " ") (w :: w' :: ws'))
      with (w ++ 32%N :: join (lit " ") (w' :: ws')).
    unfold split in *.
    rewrite split_from_app_space by reflexivity.
    rewrite split_from_word by auto. rewrite IH. reflexivity.
Qed.

Lemma split_app_space (a b : str) :
  split (a ++ lit " " ++ b) = split a ++ split b.
Proof.
  unfold split. change (lit " " ++ b) with (32%N :: b).
  now apply split_from_app_space.
Qed.

Lemma Forall_skipn {A} (P : A -> Prop) (k : nat) (l : list A) :
  Forall P l -> Forall P (skipn k l).
Proof.
  intros Hl. rewrite <- (firstn_skipn k l) in Hl.
  apply Forall_app in Hl. tauto.
Qed.

Lemma In_skipn {A} (x : A) (k : nat) (l : list A) : In x (skipn k l) -> In x l.
Proof.
  intros Hx. rewrite <- (firstn_skipn k l). apply in_or_app. now right.
Qed.

(** The step of the reconciler acts on words. *)
Lemma merge_step_words (combined next : str) :
  split (merge_step combined next) = merge_words (split combined) (split next).
Proof.
  unfold merge_step, merge_words.
  destruct (Nat.ltb_spec 0 (find_overlap (split combined) (split next)
                              (max_overlap (split combined) (split next))))
    as [Hpos|Hzero].
  - rewrite split_app_space, split_join; [reflexivity|].
    apply Forall_skipn, split_from_gives_words. constructor.
  - rewrite split_app_space.
    replace (find_overlap _ _ _) with 0%nat by lia. reflexivity.
Qed.

Lemma lstrip_spaces (s : str) :
  exists spaces,
    s = spaces ++ lstrip s /\ Forall (fun c => isspace c = true) spaces.
Proof.
  induction s as [|c s (spaces & IH & Hsp)]; cbn.
  - exists []. split; [reflexivity | constructor].
  - destruct (isspace c) eqn:Hc.
    + exists (c :: spaces). split; [cbn; now rewrite <- IH | now constructor].
    + exists []. split; [reflexivity | constructor].
Qed.

Lemma split_lstrip (s : str) : split (lstrip s) = split s.
Proof.
  induction s as [|c s IH]; [reflexivity|].
  cbn [lstrip]. unfold split in *.
  destruct (isspace c) eqn:Hc; [|reflexivity].
  cbn [split_from]. rewrite Hc. exact IH.
Qed.

Lemma split_rstrip (s : str) : split (rstrip s) = split s.
Proof.
  unfold rstrip. destruct (lstrip_spaces (rev s)) as (spaces & Hs & Hsp).
  apply (f_equal (@rev char)) in Hs.
  rewrite rev_involutive, rev_app_distr in Hs.
  rewrite Hs at 2. unfold split.
  symmetry. apply split_from_spaces, Forall_rev, Hsp.
Qed.

Lemma split_strip (s : str) : split (strip s) = split s.
Proof. unfold strip. now rewrite split_rstrip, split_lstrip. Qed.

Lemma fold_merge_step_words (rest : list str) (combined : str) :
  split (fold_left merge_step rest combined)
  = fold_left merge_words (map split rest) (split combined).
Proof.
  revert combined. induction rest as [|next rest IH]; intros combined; cbn;
    [reflexivity|].
  now rewrite IH, merge_step_words.
Qed.

Lemma fold_merge_words_prefix (rest : list (list str)) (combined_words : list str) :
  exists tail, fold_left merge_words rest combined_words = combined_words ++ tail.
Proof.
  revert combined_words. induction rest as [|next rest IH]; intros cw; cbn.
  - exists []. now rewrite app_nil_r.
  - destruct (IH (merge_words cw next)) as [tail ->].
    unfold merge_words. rewrite <- app_assoc. eauto.
Qed.

Lemma fold_merge_words_in (rest : list (list str)) (combined_words : list str)
    (w : str) :
  In w (fold_left merge_words rest combined_words) ->
  In w combined_words \/ exists next, In next rest /\ In w next.
Proof.
  revert combined_words. induction rest as [|next rest IH]; intros cw; cbn.
  - auto.
  - intros Hin. destruct (IH _ Hin) as [Hcw | (nw & Hnw & Hw)].
    + unfold merge_words in Hcw. apply in_app_or in Hcw.
      destruct Hcw as [Hcw | Hsk]; [now left|].
      right. exists next. split; [now left | eapply In_skipn; eassumption].
    + right. exists nw. split; [now right | assumption].
Qed.

(** X5. The reconciler works on words: for two or more transcripts the
    words of its result are obtained from the word lists of the
    transcripts alone, by appending to the combined words, transcript
    after transcript, the words after the overlap found.  How the words
    are spaced inside the transcripts does not matter. *)
Theorem reconciled_words (first second : str) (rest : list str) :
  split (clean_combined_transcription (first :: second :: rest))
  = fold_left merge_words (map split (second :: rest)) (split first).
Proof.
  cbn [clean_combined_transcription].
  now rewrite split_strip, fold_merge_step_words.
Qed.

(** X6. The reconciler invents no word and drops none of the first
    transcript: every word of its result is a word of one of the
    transcripts, and the words of the first transcript are the first words
    of the result. *)
Theorem reconciled_words_come_from_transcripts (transcriptions : list str) :
  (forall w,
     In w (split (clean_combined_transcription transcriptions)) ->
     exists t, In t transcriptions /\ In w (split t))
  /\
  (forall first rest,
     transcriptions = first :: rest ->
     exists tail,
       split (clean_combined_transcription transcriptions) = split first ++ tail).
Proof.
  split.
  - destruct transcriptions as [|first [|second rest]].
    + intros w [].
    + intros w Hw. exists first. split; [now left | exact Hw].
    + intros w. rewrite reconciled_words. intros Hw.
      apply fold_merge_words_in in Hw.
      destruct Hw as [Hw | (nw & Hnw & Hw)].
      * exists first. split; [now left | exact Hw].
      * apply in_map_iff in Hnw. destruct Hnw as (t & <- & Ht).
        exists t. split; [now right | exact Hw].
  - intros first rest ->. destruct rest as [|second rest].
    + exists []. now rewrite app_nil_r.
    + rewrite reconciled_words. apply fold_merge_words_prefix.
Qed.

(** X7. A transcript of at most ten words that repeats the last words of
    the combined text adds nothing: the words of the result are the words
    of the combined text. *)
Theorem repeated_tail_is_absorbed (combined next : str) :
  split next <> [] ->
  (length (split next) <= 10)%nat ->
  (exists before, split combined = before ++ split next) ->
  split (clean_combined_transcription [combined; next]) = split combined.
Proof.
  intros Hne Hlen [before Hsuffix].
  rewrite reconciled_words. cbn [map fold_left]. unfold merge_words.
  set (cw := split combined) in *. set (nw := split next) in *.
  destruct (find_overlap_largest cw nw (max_overlap cw nw)) as (Hle & _ & Hno).
  cbn zeta in Hle, Hno.
  assert (Hmax : max_overlap cw nw = length nw).
  { unfold max_overlap. rewrite Hsuffix, length_app. lia. }
  assert (Hk : find_overlap cw nw (max_overlap cw nw) = length nw).
  { destruct (Nat.eq_dec (find_overlap cw nw (max_overlap cw nw)) (length nw))
      as [|Hneq]; [assumption|].
    exfalso. apply (Hno (length nw)); [lia|].
    unfold last_n. destruct (length nw) eqn:Hl.
    - destruct nw; [congruence | discriminate].
    - rewrite <- Hl, Hsuffix, length_app.
      replace (length before + length nw - length nw)%nat with (length before) by lia.
      rewrite skipn_app, skipn_all, Nat.sub_diag. cbn.
      now rewrite firstn_all. }
  rewrite Hk, skipn_all. apply app_nil_r.
Qed.

Lemma repeated_tail_is_absorbed_witness :
  split (clean_combined_transcription
           [lit "the quick  brown fox"; lit " brown fox "])
  = split (lit "the quick  brown fox").
Proof.
  apply repeated_tail_is_absorbed.
  - vm_compute. discriminate.
  - vm_compute. lia.
  - exists [lit "the"; lit "quick"]. vm_compute. reflexivity.
Defined.

(* ------------------------------------------------------------------ *)
(** ** More on the credential cache *)

(** The ways a call of [get_access_token] can end. *)
Lemma get_access_token_cases {num : Type} `{PyNumber num} {sample : Type}
    (E : Env num sample) (api_key : str) (force_refresh : bool)
    (w w' : World num sample) (r : result (option str)) :
  get_access_token E api_key force_refresh w = (r, w') ->
  match r with
  | Ok (Some tok) =>
      tok <> [] /\ token (access_token_cache w') = Some tok
  | Ok None =>
      access_token_cache w' = access_token_cache w /\
      events w' = events w ++ [TimeRead; TokenPost api_key]
  | Raise e =>
      access_token_cache w' = access_token_cache w /\
      exists cause, e = token_error_for E cause
  | Diverge => False
  end.
Proof.
  destruct (cache_hit force_refresh (access_token_cache w) (time_time E (events w)))
    eqn:Hhit.
  - rewrite get_access_token_hit by exact Hhit. intros [= <- <-].
    unfold cache_hit in Hhit. apply andb_prop in Hhit. destruct Hhit as [Hhit _].
    apply andb_prop in Hhit. destruct Hhit as [_ Htr].
    destruct (token (access_token_cache w)) as [tok|] eqn:Htok; [|discriminate].
    split; [|exact Htok]. intros ->. discriminate.
  - rewrite get_access_token_miss by exact Hhit.
    destruct (post_token E (events w ++ [TimeRead]) api_key) as [response|e].
    + destruct (error_status (token_status_code response)).
      * intros [= <- <-]. split; [reflexivity | eauto].
      * destruct (token_json response) as [data|e].
        -- destruct (truthy (access_token data)) eqn:Htr; intros [= <- <-].
           ++ destruct (access_token data) as [tok|]; [|discriminate].
              split; [|reflexivity]. intros ->. discriminate.
           ++ split; reflexivity.
        -- intros [= <- <-]. split; [reflexivity | eauto].
    + intros [= <- <-]. split; [reflexivity | eauto].
Qed.

(** X8. [get_access_token] always ends.  A token it returns is not empty
    and is the token in the cache afterwards, whether it came from the
    cache or from an exchange.  When it returns [None], it has made one
    exchange and the cache is as it was.  (Nothing is said here of a call
    that raises: [TokenData] takes the value under ["expires_in"] to be a
    number, and on a body where it is not, the source has stored the new
    token before [current_time + expires_in] raises.) *)
Theorem returned_token_is_cached {num : Type} `{PyNumber num} {sample : Type}
    (E : Env num sample) (api_key : str) (force_refresh : bool)
    (w : World num sample) :
  fst (get_access_token E api_key force_refresh w) <> Diverge /\
  (forall tok w',
     get_access_token E api_key force_refresh w = (Ok (Some tok), w') ->
     tok <> [] /\ token (access_token_cache w') = Some tok) /\
  (forall w',
     get_access_token E api_key force_refresh w = (Ok None, w') ->
     access_token_cache w' = access_token_cache w /\
     events w' = events w ++ [TimeRead; TokenPost api_key]).
Proof.
  split; [|split].
  - destruct (get_access_token E api_key force_refresh w) as [r w'] eqn:Hrun.
    intros Hr. cbn [fst] in Hr. subst r.
    exact (get_access_token_cases E api_key force_refresh w w' _ Hrun).
  - intros tok w' Hrun.
    exact (get_access_token_cases E api_key force_refresh w w' _ Hrun).
  - intros w' Hrun.
    exact (get_access_token_cases E api_key force_refresh w w' _ Hrun).
Qed.

(** The first token of [retry_env] is returned and cached; the IAM
    endpoint that sends no token leaves the cache as it was. *)
Example first_token_cached :
  fst (get_access_token retry_env (lit "key") false initial_world)
  = Ok (Some (lit "token-0")) /\
  token (access_token_cache
           (snd (get_access_token retry_env (lit "key") false initial_world)))
  = Some (lit "token-0") /\
  get_access_token (example_env tokenless (chat_always 200) model_hears)
    (lit "key") true (cached_world 5000)
  = (Ok None, log (cached_world 5000) [TimeRead; TokenPost (lit "key")]).
Proof. vm_compute. auto. Qed.

(** X9. The client never caches an empty token: if the cache holds no
    token or a non-empty one before [get_access_token] or
    [make_watsonx_request], it does so after, however the call ends. *)
Theorem client_never_caches_empty_token {num : Type} `{PyNumber num}
    {sample : Type} (E : Env num sample) (payload : Payload) (api_key : str)
    (force_refresh : bool) (max_retries : nat) (w : World num sample) :
  token_cached_ok w ->
  token_cached_ok (snd (get_access_token E api_key force_refresh w)) /\
  token_cached_ok (snd (make_watsonx_request E payload api_key max_retries w)).
Proof.
  intros Hok. split.
  - now apply get_access_token_keeps_token_ok.
  - now apply make_watsonx_request_keeps_token_ok.
Qed.

Lemma client_never_caches_empty_token_witness :
  token_cached_ok
    (snd (get_access_token retry_env (lit "key") true initial_world)) /\
  token_cached_ok
    (snd (make_watsonx_request retry_env example_payload (lit "key") 2 initial_world)).
Proof.
  apply (client_never_caches_empty_token retry_env example_payload (lit "key")
           true 2 initial_world).
  intros tok Htok. cbn in Htok. discriminate.
Defined.

(* ------------------------------------------------------------------ *)
(** ** More on chat requests *)

Lemma sleeps_app {sample} (a b : list (Event sample)) :
  sleeps (a ++ b) = (sleeps a + sleeps b)%nat.
Proof.
  induction a as [|e a IH]; [reflexivity|].
  destruct e; cbn; rewrite ?IH; reflexivity.
Qed.

Lemma token_posts_app {sample} (a b : list (Event sample)) :
  token_posts (a ++ b) = (token_posts a + token_posts b)%nat.
Proof.
  induction a as [|e a IH]; [reflexivity|].
  destruct e; cbn; rewrite ?IH; reflexivity.
Qed.

Section WatsonxMore.
Context {num : Type} `{PyNumber num} {sample : Type} (E : Env num sample).
Variables (payload : Payload) (api_key : str) (max_retries : nat).

(** The ways one attempt can end. *)
Lemma watsonx_attempt_cases (attempt : nat) (w w' : World num sample)
    (r : result (control (option ChatJson))) :
  (attempt <= max_retries)%nat ->
  watsonx_attempt E payload api_key max_retries attempt w = (r, w') ->
  match r with
  | Ok (Return None) => null_body_answered E payload (events w')
  | Ok (Return (Some body)) =>
      exists tok, tok <> [] /\
        last_post_carried (events w') payload tok /\
        token (access_token_cache w') = Some tok
  | Ok Continue => (attempt < max_retries)%nat
  | Raise e => ~ is_request_exception e
  | Diverge => False
  end.
Proof.
  intros Hattempt. unfold watsonx_attempt, try_except, bind.
  destruct (get_access_token E api_key (0 <? attempt)%nat w) as [r0 w1] eqn:Hget.
  pose proof (get_access_token_cases E api_key _ w w1 r0 Hget) as Hcases.
  destruct r0 as [[tok|]|e|]; try contradiction.
  - destruct Hcases as [Hne Hcache].
    assert (Htr : truthy (Some tok) = true) by (destruct tok; [congruence | reflexivity]).
    rewrite Htr. cbn [negb]. unfold interact.
    destruct (post_chat E (events w1) (bearer (Some tok)) payload) as [response|e]
      eqn:Hpost; cbn [result_of].
    + destruct (Z.eqb_spec (status_code response) 200) as [H200|H200].
      * unfold lift. destruct (json response) as [[body|]|[c d|msg|msg]] eqn:Hjson; cbn.
        -- intros [= <- <-]. exists tok. repeat split; auto.
           exists (events w1). reflexivity.
        -- intros [= <- <-]. exists (events w1), (bearer (Some tok)), response.
           split; [reflexivity|]. split; [exact Hpost|]. split; [exact H200|].
           exact Hjson.
        -- intros [= <- <-]. auto.
        -- destruct (Nat.eqb_spec attempt max_retries); cbn; intros [= <- <-].
           ++ auto.
           ++ lia.
        -- intros [= <- <-]. auto.
      * destruct ((status_code response =? 401) && (attempt <? max_retries)%nat)
          eqn:Hretry; cbn.
        -- intros [= <- <-]. apply andb_prop in Hretry.
           now apply Nat.ltb_lt.
        -- intros [= <- <-]. auto.
    + destruct e as [c d|msg|msg]; cbn.
      * intros [= <- <-]. auto.
      * destruct (Nat.eqb_spec attempt max_retries); cbn; intros [= <- <-].
        -- auto.
        -- lia.
      * intros [= <- <-]. auto.
  - cbn. intros [= <- <-]. auto.
  - destruct Hcases as [_ [cause ->]]. cbn. intros [= <- <-]. auto.
Qed.

(** The ways the loop can end when it starts at an attempt that leaves
    at least one iteration and ends at [max_retries]. *)
Lemma watsonx_attempts_cases (remaining attempt : nat) (w w' : World num sample)
    (r : result (option ChatJson)) :
  (attempt + remaining = max_retries + 1)%nat -> (0 < remaining)%nat ->
  watsonx_attempts E payload api_key max_retries remaining attempt w = (r, w') ->
  match r with
  | Ok None => null_body_answered E payload (events w')
  | Ok (Some body) =>
      exists tok, tok <> [] /\
        last_post_carried (events w') payload tok /\
        token (access_token_cache w') = Some tok
  | Raise e => ~ is_request_exception e
  | Diverge => False
  end.
Proof.
  revert attempt w. induction remaining as [|rest IH]; intros attempt w Hsum Hpos;
    [lia|].
  cbn [watsonx_attempts]. unfold bind.
  destruct (watsonx_attempt E payload api_key max_retries attempt w)
    as [r0 w1] eqn:Hrun.
  pose proof (watsonx_attempt_cases attempt w w1 r0 ltac:(lia) Hrun) as Hcases.
  destruct r0 as [[[body|]|]|e|]; try contradiction.
  - intros [= <- <-]. exact Hcases.
  - intros [= <- <-]. exact Hcases.
  - apply IH; lia.
  - intros [= <- <-]. exact Hcases.
Qed.
End WatsonxMore.

(** X10. [make_watsonx_request] always ends, and a [RequestException]
    never escapes it (network failures end as a status-500 error, see
    [failed_to_connect]).  With [max_retries >= 0], as every call in the
    program has it, the [return None] after its loop is never reached:
    the function returns [None] only when the chat endpoint answered 200
    with the JSON body [null], which [response.json()] reads as [None]. *)
Theorem make_watsonx_request_none_is_null_body {num : Type} `{PyNumber num}
    {sample : Type} (E : Env num sample) (payload : Payload) (api_key : str)
    (max_retries : nat) (w : World num sample) :
  fst (make_watsonx_request E payload api_key max_retries w) <> Diverge /\
  (forall e,
     fst (make_watsonx_request E payload api_key max_retries w) = Raise e ->
     ~ is_request_exception e) /\
  (forall w',
     make_watsonx_request E payload api_key max_retries w = (Ok None, w') ->
     null_body_answered E payload (events w')).
Proof.
  unfold make_watsonx_request.
  destruct (watsonx_attempts E payload api_key max_retries (max_retries + 1) 0 w)
    as [r w1] eqn:Hrun.
  pose proof (watsonx_attempts_cases E payload api_key max_retries
                (max_retries + 1) 0 w w1 r ltac:(lia) ltac:(lia) Hrun) as Hcases.
  cbn [fst]. split; [|split].
  - intros ->. exact Hcases.
  - intros e ->. exact Hcases.
  - intros w' [= -> <-]. exact Hcases.
Qed.

(** A 200 response whose body is [null]: the function returns [None]
    after one request, and the intent endpoint answers with its
    status-500 error. *)
Example null_body_gives_none :
  make_watsonx_request null_body_env example_payload (lit "key") 2 initial_world
  = (Ok None,
     log first_token_world
       [ChatPost (bearer (Some (lit "token-0"))) example_payload]) /\
  fst (recognize_intent_endpoint null_body_env
         [(lit "text", lit "How do I register for GST?")] initial_world)
  = Raise (HTTPException 500 (lit "Failed to get intent recognition response")).
Proof. vm_compute. auto. Qed.

(** X11. When [make_watsonx_request] returns a body, the request that was
    answered 200 is the last event, and the token it carried is not empty
    and is the token in the cache afterwards. *)
Theorem accepted_token_is_cached {num : Type} `{PyNumber num}
    {sample : Type} (E : Env num sample) (payload : Payload) (api_key : str)
    (max_retries : nat) (w w' : World num sample) (body : ChatJson) :
  make_watsonx_request E payload api_key max_retries w = (Ok (Some body), w') ->
  exists tok,
    tok <> [] /\
    last_post_carried (events w') payload tok /\
    token (access_token_cache w') = Some tok.
Proof.
  intros Hrun.
  exact (watsonx_attempts_cases E payload api_key max_retries
           (max_retries + 1) 0 w w' (Ok (Some body)) ltac:(lia) ltac:(lia) Hrun).
Qed.

Lemma accepted_token_is_cached_witness :
  exists tok,
    tok <> [] /\
    last_post_carried
      (events (snd (make_watsonx_request retry_env example_payload (lit "key") 2
                      initial_world)))
      example_payload tok /\
    token (access_token_cache
             (snd (make_watsonx_request retry_env example_payload (lit "key") 2
                     initial_world)))
    = Some tok.
Proof.
  apply (accepted_token_is_cached retry_env example_payload (lit "key") 2
           initial_world
           (snd (make_watsonx_request retry_env example_payload (lit "key") 2
                   initial_world))
           {| is_empty := false;
              content_of :=
                Returns (lit "GST_REGISTRATION The caller asks how to register.") |}).
  vm_compute. reflexivity.
Defined.

Section WatsonxScenarios.
Context {num : Type} `{PyNumber num} {sample : Type} (E : Env num sample).
Variables (payload : Payload) (api_key : str) (max_retries : nat).
Hypothesis Hgrants : always_grants E api_key.

(** With an IAM endpoint that always grants, fetching a token succeeds:
    from the cache, or by one exchange (always by one when forced). *)
Lemma get_access_token_grants (force_refresh : bool) (w : World num sample) :
  exists tok w1 evs,
    get_access_token E api_key force_refresh w = (Ok (Some tok), w1) /\
    tok <> [] /\
    token (access_token_cache w1) = Some tok /\
    events w1 = events w ++ evs /\
    chat_posts evs = 0%nat /\ sleeps evs = 0%nat /\
    (token_posts evs <= 1)%nat /\
    (force_refresh = true -> token_posts evs = 1%nat).
Proof.
  destruct (get_access_token E api_key force_refresh w) as [r w1] eqn:Hget.
  pose proof (get_access_token_cases E api_key force_refresh w w1 r Hget) as Hcases.
  destruct (cache_hit force_refresh (access_token_cache w) (time_time E (events w)))
    eqn:Hhit.
  - rewrite get_access_token_hit in Hget by exact Hhit.
    injection Hget as <- <-.
    destruct (token (access_token_cache w)) as [tok|] eqn:Htok.
    + destruct Hcases as [Hne Hcache].
      exists tok, (log w [TimeRead]), [TimeRead]. repeat split; auto.
      intros ->. discriminate.
    + unfold cache_hit in Hhit. rewrite Htok in Hhit. cbn in Hhit.
      rewrite andb_false_r in Hhit. discriminate.
  - rewrite get_access_token_miss in Hget by exact Hhit.
    destruct (Hgrants (events w ++ [TimeRead])) as (response & data & Hpost & Hst & Hjson & Htr).
    rewrite Hpost, Hst, Hjson, Htr in Hget. injection Hget as <- <-.
    destruct (access_token data) as [tok|] eqn:Htok; [|discriminate].
    destruct Hcases as [Hne Hcache].
    exists tok, (with_cache (log w [TimeRead; TokenPost api_key])
                   {| token := Some tok;
                      expiry := num_sub (num_add (time_time E (events w))
                                                 (expires_in_or_default data))
                                        (num_of_Z 300) |}),
      [TimeRead; TokenPost api_key].
    repeat split; auto.
Qed.

(** The loop when the chat endpoint cannot be reached. *)
Lemma offline_attempts (remaining attempt : nat) (w : World num sample) :
  chat_unreachable E ->
  (attempt + remaining = max_retries + 1)%nat -> (0 < remaining)%nat ->
  exists message w' evs,
    watsonx_attempts E payload api_key max_retries remaining attempt w
    = (Raise (failed_to_connect E max_retries (RequestException message)), w') /\
    events w' = events w ++ evs /\
    chat_posts evs = remaining /\
    sleeps evs = (remaining - 1)%nat.
Proof.
  intros Hdown. revert attempt w.
  induction remaining as [|rest IH]; intros attempt w Hsum Hpos; [lia|].
  destruct (get_access_token_grants (0 <? attempt)%nat w)
    as (tok & w1 & evs1 & Hget & Hne & _ & Hev1 & Hposts1 & Hsleeps1 & _).
  destruct (Hdown (events w1) (bearer (Some tok)) payload) as [message Hpost].
  assert (Htr : truthy (Some tok) = true) by (destruct tok; [congruence | reflexivity]).
  cbn [watsonx_attempts]. unfold bind at 1.
  unfold watsonx_attempt, try_except, bind. rewrite Hget, Htr. cbn [negb].
  unfold interact. rewrite Hpost. cbn [result_of].
  destruct (Nat.eqb_spec attempt max_retries) as [Heq|Hneq].
  - exists message. eexists _, (evs1 ++ [ChatPost (bearer (Some tok)) payload]).
    split; [reflexivity|]. cbn [events]. rewrite Hev1, <- app_assoc.
    split; [reflexivity|].
    rewrite chat_posts_app, sleeps_app, Hposts1, Hsleeps1. cbn. lia.
  - cbn.
    match goal with
    | |- context [watsonx_attempts _ _ _ _ rest (S attempt) ?w2] =>
        destruct (IH (S attempt) w2 ltac:(lia) ltac:(lia))
          as (message' & w' & evs' & Hrun & Hev' & Hposts' & Hsleeps')
    end.
    exists message', w', (evs1 ++ [ChatPost (bearer (Some tok)) payload; Sleep 1] ++ evs').
    split; [exact Hrun|]. rewrite Hev'. cbn [events]. rewrite Hev1.
    split; [now rewrite <- !app_assoc|].
    rewrite !chat_posts_app, !sleeps_app, Hposts1, Hsleeps1, Hposts', Hsleeps'.
    cbn. lia.
Qed.

(** The loop when the chat endpoint answers 401 to everything. *)
Lemma rejected_attempts (remaining attempt : nat) (w : World num sample) :
  chat_rejects E ->
  (attempt + remaining = max_retries + 1)%nat -> (0 < remaining)%nat ->
  exists response tok w' evs,
    watsonx_attempts E payload api_key max_retries remaining attempt w
    = (Raise (HTTPException 401 (lit "WatsonX API Error: " ++ text response)), w') /\
    events w' = events w ++ evs /\
    chat_posts evs = remaining /\
    sleeps evs = 0%nat /\
    ((if (0 <? attempt)%nat then remaining else remaining - 1) <= token_posts evs)%nat /\
    token (access_token_cache w') = Some tok /\
    last_post_carried (events w') payload tok.
Proof.
  intros Hrej. revert attempt w.
  induction remaining as [|rest IH]; intros attempt w Hsum Hpos; [lia|].
  destruct (get_access_token_grants (0 <? attempt)%nat w)
    as (tok & w1 & evs1 & Hget & Hne & Hcache & Hev1 & Hposts1 & Hsleeps1 & Htok1 & Hforced).
  destruct (Hrej (events w1) (bearer (Some tok)) payload) as (response & Hpost & H401).
  pose proof (watsonx_attempt_response E payload api_key max_retries attempt
                w w1 tok response Hget Hne Hpost) as Hrun.
  cbn zeta in Hrun. rewrite H401 in Hrun.
  change (401 =? 200) with false in Hrun. change (401 =? 401) with true in Hrun.
  cbn [andb] in Hrun.
  cbn [watsonx_attempts]. unfold bind at 1. rewrite Hrun.
  destruct (Nat.ltb_spec attempt max_retries) as [Hlt|Hge].
  - match goal with
    | |- context [watsonx_attempts _ _ _ _ rest (S attempt) ?w2] =>
        destruct (IH (S attempt) w2 ltac:(lia) ltac:(lia))
          as (response' & tok' & w' & evs' & Hrun' & Hev' & Hposts' & Hsleeps'
              & Htok' & Hcache' & Hlast')
    end.
    exists response', tok', w', (evs1 ++ [ChatPost (bearer (Some tok)) payload] ++ evs').
    split; [exact Hrun'|].
    split; [rewrite Hev'; cbn [events with_cache log]; rewrite Hev1;
            now rewrite <- !app_assoc|].
    rewrite !chat_posts_app, !sleeps_app, !token_posts_app,
      Hposts1, Hsleeps1, Hposts', Hsleeps'.
    change (0 <? S attempt)%nat with true in Htok'. cbv iota in Htok'.
    cbn [chat_posts sleeps token_posts].
    repeat split; auto; try lia.
    destruct (0 <? attempt)%nat; [rewrite Hforced by reflexivity|]; lia.
  - exists response, tok. eexists _, (evs1 ++ [ChatPost (bearer (Some tok)) payload]).
    split; [reflexivity|]. cbn [events log access_token_cache].
    rewrite Hev1, <- app_assoc. split; [reflexivity|].
    rewrite chat_posts_app, sleeps_app, token_posts_app, Hposts1, Hsleeps1.
    cbn [chat_posts sleeps token_posts].
    repeat split; auto; try lia.
    + destruct (0 <? attempt)%nat; [rewrite Hforced by reflexivity|]; lia.
    + exists (events w ++ evs1). now rewrite <- app_assoc.
Qed.
End WatsonxScenarios.

Lemma fresh_tokens_always_grant
    (chat : list (Event Z) -> answer ChatResponse)
    (model : list (Event Z) -> list Z -> answer str) (api_key : str) :
  always_grants (example_env fresh_tokens chat model) api_key.
Proof. intros history. eexists _, _. repeat split. Qed.

(** X12. When the IAM endpoint grants tokens and the chat endpoint cannot
    be reached, [make_watsonx_request] sends [max_retries + 1] chat
    requests, sleeps one second after each but the last, and then raises
    the status-500 error "Failed to connect to WatsonX API after
    [max_retries + 1] attempts" with the last network error. *)
Theorem unreachable_chat_gives_up {num : Type} `{PyNumber num} {sample : Type}
    (E : Env num sample) (payload : Payload) (api_key : str) (max_retries : nat)
    (w : World num sample) :
  always_grants E api_key ->
  chat_unreachable E ->
  exists message w' evs,
    make_watsonx_request E payload api_key max_retries w
    = (Raise (failed_to_connect E max_retries (RequestException message)), w') /\
    events w' = events w ++ evs /\
    chat_posts evs = (max_retries + 1)%nat /\
    sleeps evs = max_retries.
Proof.
  intros Hgrants Hdown.
  destruct (offline_attempts E payload api_key max_retries Hgrants
              (max_retries + 1) 0 w Hdown ltac:(lia) ltac:(lia))
    as (message & w' & evs & Hrun & Hev & Hposts & Hsleeps).
  exists message, w', evs. repeat split; auto. lia.
Qed.

Lemma unreachable_chat_gives_up_witness :
  exists message w' evs,
    make_watsonx_request offline_env example_payload (lit "key") 2 initial_world
    = (Raise (failed_to_connect offline_env 2 (RequestException message)), w') /\
    events w' = events initial_world ++ evs /\
    chat_posts evs = (2 + 1)%nat /\
    sleeps evs = 2%nat.
Proof.
  apply (unreachable_chat_gives_up offline_env example_payload (lit "key") 2
           initial_world).
  - apply fresh_tokens_always_grant.
  - intros history b p. exists (lit "Connection refused"). reflexivity.
Defined.

(** The chat endpoint is down: three requests, two sleeps, and the error
    names the three attempts. *)
Example offline_request_fails :
  let out := make_watsonx_request offline_env example_payload (lit "key") 2
               initial_world in
  fst out
  = Raise (HTTPException 500
             (lit "Failed to connect to WatsonX API after 3 attempts: Connection refused")) /\
  chat_posts (events (snd out)) = 3%nat /\
  sleeps (events (snd out)) = 2%nat.
Proof. vm_compute. auto. Qed.

(** X13. When the IAM endpoint grants tokens and the chat endpoint answers
    401 to every request, [make_watsonx_request] sends [max_retries + 1]
    chat requests without sleeping in between, exchanges the key again for
    every retry, and raises the 401 of the last response; the token that
    response rejected is still in the cache afterwards (the cache is
    cleared only when another attempt follows). *)
Theorem rejected_everywhere_keeps_last_token {num : Type} `{PyNumber num}
    {sample : Type} (E : Env num sample) (payload : Payload) (api_key : str)
    (max_retries : nat) (w : World num sample) :
  always_grants E api_key ->
  chat_rejects E ->
  exists response tok w' evs,
    make_watsonx_request E payload api_key max_retries w
    = (Raise (HTTPException 401 (lit "WatsonX API Error: " ++ text response)), w') /\
    events w' = events w ++ evs /\
    chat_posts evs = (max_retries + 1)%nat /\
    sleeps evs = 0%nat /\
    (max_retries <= token_posts evs)%nat /\
    token (access_token_cache w') = Some tok /\
    last_post_carried (events w') payload tok.
Proof.
  intros Hgrants Hrej.
  destruct (rejected_attempts E payload api_key max_retries Hgrants
              (max_retries + 1) 0 w Hrej ltac:(lia) ltac:(lia))
    as (response & tok & w' & evs & Hrun & Hev & Hposts & Hsleeps & Htok & Hcache & Hlast).
  change (0 <? 0)%nat with false in Htok. cbv iota in Htok.
  exists response, tok, w', evs. repeat split; auto. lia.
Qed.

Lemma rejected_everywhere_keeps_last_token_witness :
  exists response tok w' evs,
    make_watsonx_request (example_env fresh_tokens (chat_always 401) model_hears)
      example_payload (lit "key") 2 initial_world
    = (Raise (HTTPException 401 (lit "WatsonX API Error: " ++ text response)), w') /\
    events w' = events initial_world ++ evs /\
    chat_posts evs = (2 + 1)%nat /\
    sleeps evs = 0%nat /\
    (2 <= token_posts evs)%nat /\
    token (access_token_cache w') = Some tok /\
    last_post_carried (events w') example_payload tok.
Proof.
  apply (rejected_everywhere_keeps_last_token
           (example_env fresh_tokens (chat_always 401) model_hears)
           example_payload (lit "key") 2 initial_world).
  - apply fresh_tokens_always_grant.
  - intros history b p. eexists. split; reflexivity.
Defined.

(* ------------------------------------------------------------------ *)
(** ** The health endpoint *)

(** X14. [/health] never raises, touches neither cache and talks to no
    endpoint: it reads the clock, and only when a token is cached.  Its
    [token_valid] says exactly whether a [get_access_token(api_key)] made
    at the same moment would be served from the cache: when it is true
    that call returns the cached token without an exchange, when it is
    false that call exchanges the key. *)
Theorem health_tells_cache_hit {num : Type} `{PyNumber num} {sample : Type}
    (E : Env num sample) (api_key : str) (w : World num sample) :
  exists r w',
    health_check E w = (Ok r, w') /\
    access_token_cache w' = access_token_cache w /\
    whisper_model_cache w' = whisper_model_cache w /\
    events w' = events w ++ (if has_cached_token r then [TimeRead] else []) /\
    has_cached_token r = truthy (token (access_token_cache w)) /\
    (token_valid r = true -> has_cached_token r = true) /\
    (token_valid r = true ->
     get_access_token E api_key false w
     = (Ok (token (access_token_cache w)), log w [TimeRead])) /\
    (token_valid r = false ->
     events (snd (get_access_token E api_key false w))
     = events w ++ [TimeRead; TokenPost api_key]).
Proof.
  unfold health_check, bind, get_token_cache, interact, ret. cbn.
  destruct (truthy (token (access_token_cache w))) eqn:Htr; cbn.
  - eexists _, _. split; [reflexivity|]. cbn.
    repeat split; try reflexivity.
    + intros Hvalid. apply get_access_token_hit.
      unfold cache_hit. now rewrite Htr, Hvalid.
    + intros Hvalid. rewrite get_access_token_miss.
      * destruct (post_token E (events w ++ [TimeRead]) api_key) as [response|e];
          [|reflexivity].
        destruct (error_status (token_status_code response)); [reflexivity|].
        destruct (token_json response) as [data|e]; [|reflexivity].
        destruct (truthy (access_token data)); reflexivity.
      * unfold cache_hit. now rewrite Htr, Hvalid.
  - eexists _, _. split; [reflexivity|]. cbn.
    repeat split; try reflexivity; try discriminate.
    + destruct w; cbn. now rewrite app_nil_r.
    + intros _. rewrite get_access_token_miss.
      * destruct (post_token E (events w ++ [TimeRead]) api_key) as [response|e];
          [|reflexivity].
        destruct (error_status (token_status_code response)); [reflexivity|].
        destruct (token_json response) as [data|e]; [|reflexivity].
        destruct (truthy (access_token data)); reflexivity.
      * unfold cache_hit. now rewrite Htr.
Qed.

(** At time 1000: a token cached until 5000 is reported valid, one that
    expired at 500 is reported cached but not valid. *)
Example health_of_cached_worlds :
  option_map (fun r => (has_cached_token r, token_valid r))
    (match fst (health_check retry_env (cached_world 5000)) with
     | Ok r => Some r | _ => None end)
  = Some (true, true) /\
  option_map (fun r => (has_cached_token r, token_valid r))
    (match fst (health_check retry_env (cached_world 500)) with
     | Ok r => Some r | _ => None end)
  = Some (true, false) /\
  option_map (fun r => (has_cached_token r, token_valid r))
    (match fst (health_check retry_env initial_world) with
     | Ok r => Some r | _ => None end)
  = Some (false, false).
Proof. vm_compute. auto. Qed.

(* ------------------------------------------------------------------ *)
(** ** Computations that always end *)

Section AlwaysEnds.
Context {num sample : Type}.

Lemma ends_ret {A} (a : A) : always_ends (num := num) (sample := sample) (ret a).
Proof. intros w. discriminate. Qed.

Lemma ends_raise {A} (e : exn) :
  always_ends (num := num) (sample := sample) (A := A) (raise e).
Proof. intros w. discriminate. Qed.

Lemma ends_lift {A} (a : answer A) :
  always_ends (num := num) (sample := sample) (lift a).
Proof. intros w. destruct a; discriminate. Qed.

Lemma ends_interact {A} (e : Event sample)
    (reply : list (Event sample) -> answer A) :
  always_ends (num := num) (interact e reply).
Proof. intros w. cbn. destruct (reply (events w)); discriminate. Qed.

Lemma ends_bind {A B} (m : M num sample A) (k : A -> M num sample B) :
  always_ends m -> (forall a, always_ends (k a)) -> always_ends (bind m k).
Proof.
  intros Hm Hk w. unfold bind. specialize (Hm w).
  destruct (m w) as [[a|e|] w1]; cbn in *; try discriminate; auto.
  apply Hk.
Qed.

Lemma ends_try_except {A} (m : M num sample A) (handler : exn -> M num sample A) :
  always_ends m -> (forall e, always_ends (handler e)) ->
  always_ends (try_except m handler).
Proof.
  intros Hm Hh w. unfold try_except. specialize (Hm w).
  destruct (m w) as [[a|e|] w1]; cbn in *; try discriminate; auto.
  apply Hh.
Qed.

Lemma ends_reraise_500 {A} (E : Env num sample) (prefix : string)
    (m : M num sample A) :
  always_ends m -> always_ends (reraise_500 E prefix m).
Proof. intros Hm. apply ends_try_except; [exact Hm|]. intros e. apply ends_raise. Qed.

(** What [reraise_500] lets out is a status-500 error. *)
Lemma reraise_500_raises {A} (E : Env num sample) (prefix : string)
    (m : M num sample A) (w w' : World num sample) (e : exn) :
  reraise_500 E prefix m w = (Raise e, w') -> is_http_500 e.
Proof.
  unfold reraise_500, try_except, raise.
  destruct (m w) as [[a|e0|] w1]; intros [= <- <-]. eexists. reflexivity.
Qed.
End AlwaysEnds.

(* ------------------------------------------------------------------ *)
(** ** More on transcription *)

Section TranscriptionMore.
Context {num sample : Type} (zero : sample) (E : Env num sample).

Lemma load_whisper_model_ends : always_ends (load_whisper_model E).
Proof.
  unfold load_whisper_model. apply ends_reraise_500.
  apply ends_bind; [intros w; discriminate|]. intros loaded.
  destruct (negb loaded); [|apply ends_ret].
  apply ends_bind; [apply ends_interact|]. intros _ w. discriminate.
Qed.

Lemma preprocess_audio_ends (path : str) : always_ends (preprocess_audio E path).
Proof.
  unfold preprocess_audio. apply ends_reraise_500.
  apply ends_bind; [apply ends_interact|]. intros [audio sr].
  repeat (apply ends_bind; [apply ends_lift|]; intros ?).
  apply ends_bind; [destruct (negb _); [apply ends_lift | apply ends_ret]|].
  intros ?. apply ends_ret.
Qed.

(** The result of a chunked transcription when the chunks are known. *)
Lemma transcribe_segments_result (p : DecodeParams) (sampling_rate : Z)
    (prefix : string) (segs : list (Segment sample)) (w : World num sample) :
  fst (reraise_500 E prefix (transcribe_segments E p sampling_rate (Some segs)) w)
  = match survivors (chunk_results E p sampling_rate (events w) (map seg_chunk segs)) with
    | [] => Raise (no_transcription_produced E prefix)
    | transcripts => Ok (clean_combined_transcription transcripts)
    end.
Proof.
  unfold reraise_500, try_except, transcribe_segments, bind.
  rewrite transcribe_chunks_run. cbn [app].
  destruct (survivors _); reflexivity.
Qed.

(** At a positive sampling rate each of the three transcriptions ends. *)
Lemma transcribe_tier_ends (t : Tier) (audio_array : list sample)
    (sampling_rate : Z) :
  0 < sampling_rate ->
  always_ends (transcribe_tier zero E t audio_array sampling_rate).
Proof.
  intros Hsr w. destruct t; cbn [transcribe_tier].
  - rewrite transcribe_short_audio_run. cbn.
    destruct (whisper E (events w) audio_array sampling_rate short_params);
      discriminate.
  - unfold transcribe_long_audio, long_chunks.
    destruct (split_chunks_total zero audio_array (30 * sampling_rate)
                (2 * sampling_rate)) as [segs ->]; [lia|].
    rewrite transcribe_segments_result. destruct (survivors _); discriminate.
  - unfold transcribe_very_long_audio, very_long_chunks.
    destruct (split_chunks_total zero audio_array (20 * sampling_rate)
                (1 * sampling_rate)) as [segs ->]; [lia|].
    rewrite transcribe_segments_result. destruct (survivors _); discriminate.
Qed.

Lemma transcribe_tier_raises (t : Tier) (audio_array : list sample)
    (sampling_rate : Z) (w w' : World num sample) (e : exn) :
  transcribe_tier zero E t audio_array sampling_rate w = (Raise e, w') ->
  is_http_500 e.
Proof. destruct t; cbn [transcribe_tier]; apply reraise_500_raises. Qed.

(** From the temporary file to the transcript: the computation ends, and
    what it raises is a status-500 error. *)
Lemma transcribe_by_duration_outcome (path : str) (w : World num sample) :
  match fst (transcribe_by_duration zero E path w) with
  | Ok _ => True
  | Raise e => is_http_500 e
  | Diverge => False
  end.
Proof.
  destruct (preprocess_audio E path w) as [[[audio sr]|e|] w1] eqn:Hpre.
  - rewrite (transcribe_by_duration_tier zero E path w w1 audio sr Hpre).
    destruct (transcribe_tier zero E (select_tier (duration audio 16000)) audio 16000 w1)
      as [[t|e|] w2] eqn:Hrun; cbn; auto.
    + eapply transcribe_tier_raises; eassumption.
    + apply (transcribe_tier_ends (select_tier (duration audio 16000)) audio 16000
               ltac:(lia) w1). now rewrite Hrun.
  - unfold transcribe_by_duration, bind. rewrite Hpre. cbn.
    eapply reraise_500_raises. exact Hpre.
  - exfalso. apply (preprocess_audio_ends path w). now rewrite Hpre.
Qed.

Lemma transcribe_segments_emits_decoding (p : DecodeParams) (sampling_rate : Z)
    (segments : option (list (Segment sample))) :
  emits decoding_event (transcribe_segments E p sampling_rate segments).
Proof.
  unfold transcribe_segments. destruct segments; [|apply emits_diverge].
  apply emits_bind.
  - generalize (@nil str). induction (map seg_chunk l) as [|chunk rest IH];
      intros acc; cbn; [apply emits_ret|].
    apply emits_bind; [|intros; apply IH].
    unfold transcribe_chunk, generate. emits_auto.
  - intros [|]; emits_auto.
Qed.

Lemma transcribe_by_duration_emits (path : str) :
  emits decoding_event (transcribe_by_duration zero E path).
Proof.
  unfold transcribe_by_duration.
  apply emits_bind; [unfold preprocess_audio; emits_auto|].
  intros [audio sr].
  unfold transcribe_very_long_audio, transcribe_long_audio,
    transcribe_short_audio, generate.
  destruct (Qgtb _ _); [|destruct (Qgtb _ _)];
    apply emits_reraise_500; try apply transcribe_segments_emits_decoding.
  emits_auto.
Qed.
End TranscriptionMore.

(** X15. The speech model is loaded at most once: after a call of
    [load_whisper_model] that returned, the cache is set and another call
    returns at once without an event.  A call that fails raises a
    status-500 error after one load attempt and leaves the cache empty, so
    the next call loads again. *)
Theorem whisper_model_loaded_once {num sample : Type} (E : Env num sample)
    (w w1 : World num sample) :
  (load_whisper_model E w = (Ok tt, w1) ->
   whisper_model_cache w1 = true /\
   load_whisper_model E w1 = (Ok tt, w1) /\
   events w1 = events w ++ (if whisper_model_cache w then [] else [ModelLoad]))
  /\
  (forall e,
     load_whisper_model E w = (Raise e, w1) ->
     is_http_500 e /\
     whisper_model_cache w = false /\
     w1 = log w [ModelLoad]).
Proof.
  unfold load_whisper_model, reraise_500, try_except, bind, get_model_cache,
    interact, set_model_cache, ret, raise.
  destruct (whisper_model_cache w) eqn:Hloaded; cbn.
  - split.
    + intros [= <-]. rewrite Hloaded. cbn. rewrite app_nil_r. auto.
    + intros e. discriminate.
  - destruct (from_pretrained E (events w)) as [[]|e0]; cbn.
    + split; [|intros e; discriminate].
      intros [= <-]. cbn. auto.
    + split; [discriminate|].
      intros e [= <- <-]. split; [eexists; reflexivity|]. split; reflexivity.
Qed.

(** X16. [transcribe_audio_file] always ends.  When reading the upload
    raises, it raises that error if it is an [HTTPException] and the
    status-500 "Critical error in transcription" error otherwise; when the
    content is larger than 100 * 1024 * 1024 bytes it raises the
    status-413 error; in both cases nothing but the read has happened (no
    model load, no temporary file).  On every other upload, one of exactly
    100 MB included, it returns a transcript, or raises a status-500
    error, or raises an [HTTPException] that writing the temporary file
    raised. *)
Theorem transcribe_audio_file_ends_413_or_500 {num sample : Type} (zero : sample)
    (E : Env num sample) (upload : UploadFile) (w : World num sample) :
  match file upload with
  | Raises e =>
      transcribe_audio_file zero E upload w
      = (Raise (passed_on E "Critical error in transcription: " e),
         log w [FileRead])
  | Returns content =>
      if 104857600 <? len content
      then transcribe_audio_file zero E upload w
           = (Raise file_too_large, log w [FileRead])
      else match fst (transcribe_audio_file zero E upload w) with
           | Ok _ => True
           | Raise e =>
               is_http_500 e \/
               (is_http e /\
                exists history, temp_write E history content = Raises e)
           | Diverge => False
           end
  end.
Proof.
  destruct (file upload) as [content|e] eqn:Hfile.
  - destruct (104857600 <? len content) eqn:Hsize.
    + unfold transcribe_audio_file, reraise_http, try_except, bind, interact.
      rewrite Hfile. cbn [result_of]. change max_size with 104857600.
      rewrite Hsize. reflexivity.
    + unfold transcribe_audio_file, reraise_http, try_except.
      unfold bind at 1. unfold interact at 1.
      rewrite Hfile. cbn [result_of]. change max_size with 104857600.
      rewrite Hsize. fold (log w [FileRead]).
      unfold bind at 1.
      destruct (load_whisper_model E (log w [FileRead])) as [[[]|e|] w1] eqn:Hload.
      * unfold bind at 1, interact at 1.
        destruct (temp_write E (events w1) content) as [path|e] eqn:Htemp;
          cbn [result_of].
        -- unfold try_finally, interact.
           match goal with
           | |- context [transcribe_by_duration zero E path ?w2] =>
               pose proof (transcribe_by_duration_outcome zero E path w2) as Hout;
               destruct (transcribe_by_duration zero E path w2) as [[t|e|] w3]
           end; cbn in *; auto.
           destruct Hout as [detail ->]. cbn. left. eexists. reflexivity.
        -- destruct e; cbn;
             [right; split; [exact I | eauto] | left; eexists; reflexivity ..].
      * destruct (reraise_500_raises E _ _ _ _ _ Hload) as [detail ->].
        cbn. left. eexists. reflexivity.
      * exfalso. apply (load_whisper_model_ends E (log w [FileRead])).
        now rewrite Hload.
  - unfold transcribe_audio_file, reraise_http, try_except, bind, interact.
    rewrite Hfile. cbn [result_of].
    destruct e; reflexivity.
Qed.

(** An upload that cannot be read, and one of 100 MB and a byte. *)
Example unreadable_and_oversized_uploads :
  transcribe_audio_file 0 deaf_env
    {| filename := lit "call.mp3";
       file := Raises (Exception (lit "I/O operation on closed file")) |}
    initial_world
  = (Raise (HTTPException 500
              (lit "Critical error in transcription: I/O operation on closed file")),
     log initial_world [FileRead]) /\
  forall content,
    len content = 104857601 ->
    transcribe_audio_file 0 deaf_env
      {| filename := lit "call.mp3"; file := Returns content |} initial_world
    = (Raise file_too_large, log initial_world [FileRead]).
Proof.
  split; [vm_compute; reflexivity|].
  intros content Hlen.
  unfold transcribe_audio_file, reraise_http, try_except, bind, interact.
  cbn [file result_of]. change max_size with 104857600. rewrite Hlen.
  reflexivity.
Qed.

(** X17. Once the temporary file is written it is always removed: after
    the write, [transcribe_audio_file] only decodes and transcribes, and
    its last event is the [os.unlink] of that file, whether transcription
    returned or raised. *)
Theorem temp_file_always_removed {num sample : Type} (zero : sample)
    (E : Env num sample) (upload : UploadFile) (w w1 : World num sample)
    (content : list Byte.byte) (path : str) :
  file upload = Returns content ->
  len content <= 104857600 ->
  load_whisper_model E (log w [FileRead]) = (Ok tt, w1) ->
  temp_write E (events w1) content = Returns path ->
  exists evs,
    events (snd (transcribe_audio_file zero E upload w))
    = events w1 ++ [TempWrite content] ++ evs ++ [Unlink path] /\
    Forall decoding_event evs.
Proof.
  intros Hfile Hsize Hload Htemp.
  unfold transcribe_audio_file, reraise_http, try_except, bind at 1, interact at 1.
  rewrite Hfile. cbn [result_of]. fold (log w [FileRead]).
  change max_size with 104857600.
  destruct (Z.ltb_spec 104857600 (len content)); [lia|].
  unfold bind at 1. rewrite Hload.
  unfold bind at 1, interact at 1. rewrite Htemp. cbn [result_of].
  unfold try_finally, interact.
  match goal with
  | |- context [transcribe_by_duration zero E path ?w2] =>
      pose proof (transcribe_by_duration_outcome zero E path w2) as Hout;
      destruct (transcribe_by_duration_emits zero E path w2) as (evs & Hev & Hdec);
      destruct (transcribe_by_duration zero E path w2) as [[t|e|] w3]
  end; cbn in *; try contradiction.
  - exists evs. rewrite Hev. split; [now rewrite <- !app_assoc | exact Hdec].
  - exists evs. destruct Hout as [detail ->]. cbn. rewrite Hev.
    split; [now rewrite <- !app_assoc | exact Hdec].
Qed.

Lemma temp_file_always_removed_witness :
  exists evs,
    events (snd (transcribe_audio_file 0 deaf_env mp3_upload initial_world))
    = events (snd (load_whisper_model deaf_env (log initial_world [FileRead])))
      ++ [TempWrite []] ++ evs ++ [Unlink (lit "/tmp/tmpa1b2c3.mp3")] /\
    Forall decoding_event evs.
Proof.
  apply (temp_file_always_removed 0 deaf_env mp3_upload initial_world
           (snd (load_whisper_model deaf_env (log initial_world [FileRead])))
           [] (lit "/tmp/tmpa1b2c3.mp3")).
  - reflexivity.
  - vm_compute. discriminate.
  - vm_compute. reflexivity.
  - reflexivity.
Defined.

(** The speech model fails on a short upload: the events are the read,
    the model load, the temporary file, the decoding, the model call and
    the removal of the file. *)
Example failed_transcription_events :
  events (snd (transcribe_audio_file 0 deaf_env mp3_upload initial_world))
  = [FileRead; ModelLoad; TempWrite []; AudioLoad (lit "/tmp/tmpa1b2c3.mp3");
     Generate ramp70 16000 short_params; Unlink (lit "/tmp/tmpa1b2c3.mp3")].
Proof. vm_compute. reflexivity. Qed.

(* ------------------------------------------------------------------ *)
(** ** The chat endpoints: validation *)


Lemma bind_ok_inv {num sample A B} (m : M num sample A) (k : A -> M num sample B)
    (w w' : World num sample) (b : B) :
  bind m k w = (Ok b, w') ->
  exists a w1, m w = (Ok a, w1) /\ k a w1 = (Ok b, w').
Proof.
  unfold bind. destruct (m w) as [[a|e|] w1]; try discriminate. eauto.
Qed.

Lemma reraise_http_ok_inv {num sample A} (E : Env num sample) (prefix : string)
    (m : M num sample A) (w w' : World num sample) (a : A) :
  reraise_http E prefix m w = (Ok a, w') -> m w = (Ok a, w').
Proof.
  unfold reraise_http, try_except, raise.
  destruct (m w) as [[a0|e|] w1]; try discriminate; [auto|].
  destruct e; discriminate.
Qed.

(** How both chat endpoints end: the reply of the model, stripped. *)
Lemma chat_reply_ok_inv {num sample A} (result : option ChatJson) (failure : exn)
    (make : str -> A) (w w' : World num sample) (a : A) :
  match result with
  | Some body =>
      if is_empty body
      then raise failure
      else bind (lift (content_of body)) (fun reply => ret (make (strip reply)))
  | None => raise failure
  end w = (Ok a, w') ->
  exists reply, a = make (strip reply).
Proof.
  destruct result as [body|]; [|discriminate].
  destruct (is_empty body); [discriminate|].
  unfold bind, lift, ret. destruct (content_of body) as [reply|e]; cbn;
    [|discriminate].
  intros [= <- <-]. eauto.
Qed.

(** X18. [recognize_intent_endpoint] checks before it sends: when one of
    API_KEY, PROJECT_ID, MODEL_ID is unset or empty it raises the
    status-500 "Missing required environment variables" error, whatever
    the body; otherwise, when the body has no ["text"] or an empty one, it
    raises the status-400 "Text content is required" error.  In both cases
    nothing has happened: no token is fetched and no request sent.  And an
    intent it returns is stripped. *)
Theorem recognize_intent_validates_first {num : Type} `{PyNumber num}
    {sample : Type} (E : Env num sample) (content : list (str * str))
    (w : World num sample) :
  (environment_set E = false ->
   recognize_intent_endpoint E content w = (Raise missing_environment, w))
  /\
  (environment_set E = true ->
   dict_get_str content (lit "text") = [] ->
   recognize_intent_endpoint E content w = (Raise text_required, w))
  /\
  (forall r w',
     recognize_intent_endpoint E content w = (Ok r, w') ->
     trimmed (intent r) /\ ir_success r = true /\
     environment_set E = true /\ dict_get_str content (lit "text") <> []).
Proof.
  unfold environment_set.
  split; [|split].
  - intros Henv. unfold recognize_intent_endpoint, reraise_http, try_except.
    rewrite Henv. reflexivity.
  - intros Henv Htext. unfold recognize_intent_endpoint, reraise_http, try_except.
    rewrite Henv, Htext. reflexivity.
  - intros r w' Hrun. apply reraise_http_ok_inv in Hrun.
    unfold recognize_intent_endpoint in Hrun.
    destruct (truthy (getenv E (lit "API_KEY")) && truthy (getenv E (lit "PROJECT_ID"))
              && truthy (getenv E (lit "MODEL_ID"))); [|discriminate].
    destruct (dict_get_str content (lit "text")) as [|c text] eqn:Htext;
      [discriminate|].
    cbn [negb nonempty] in Hrun.
    apply bind_ok_inv in Hrun. destruct Hrun as (result & w1 & _ & Hrun).
    apply (chat_reply_ok_inv result _
             (fun reply => {| intent := reply; ir_success := true;
                              ir_message := lit "Intent recognition completed successfully" |}))
      in Hrun.
    destruct Hrun as [reply ->]. cbn [intent ir_success].
    split; [apply strip_trimmed | split; [reflexivity | split; [reflexivity | discriminate]]].
Qed.

(** X19. [generate_resolution_endpoint] checks before it sends: the
    environment first (status 500), then that ["content"] and ["intent"]
    are both there and not empty (status 400 "Both content and intent are
    required").  An intent that is not empty but holds only whitespace
    passes that check and then fails in [intent.split()[0]]: the endpoint
    raises a status-500 "Resolution generation failed" error.  In each of
    these cases nothing has happened.  And a resolution it returns is
    stripped. *)
Theorem generate_resolution_validates_first {num : Type} `{PyNumber num}
    {sample : Type} (E : Env num sample) (data : list (str * str))
    (w : World num sample) :
  (environment_set E = false ->
   generate_resolution_endpoint E data w = (Raise missing_environment, w))
  /\
  (environment_set E = true ->
   dict_get_str data (lit "content") = [] \/ dict_get_str data (lit "intent") = [] ->
   generate_resolution_endpoint E data w = (Raise content_and_intent_required, w))
  /\
  (environment_set E = true ->
   dict_get_str data (lit "content") <> [] ->
   dict_get_str data (lit "intent") <> [] ->
   split (dict_get_str data (lit "intent")) = [] ->
   generate_resolution_endpoint E data w
   = (Raise (HTTPException 500
               (lit "Resolution generation failed: "
                ++ exn_str E (Exception (lit "list index out of range")))),
      w))
  /\
  (forall r w',
     generate_resolution_endpoint E data w = (Ok r, w') ->
     trimmed (resolution r) /\ rr_success r = true).
Proof.
  unfold environment_set.
  split; [|split; [|split]].
  - intros Henv. unfold generate_resolution_endpoint, reraise_http, try_except.
    rewrite Henv. reflexivity.
  - intros Henv Hmissing.
    unfold generate_resolution_endpoint, reraise_http, try_except.
    rewrite Henv. cbn [negb].
    destruct Hmissing as [-> | ->]; cbn [nonempty negb orb];
      [reflexivity | rewrite orb_true_r; reflexivity].
  - intros Henv Hcontent Hintent Hsplit.
    unfold generate_resolution_endpoint, reraise_http, try_except.
    rewrite Henv. cbn [negb].
    destruct (dict_get_str data (lit "content")) as [|c0 content]; [congruence|].
    destruct (dict_get_str data (lit "intent")) as [|c1 intent_text]; [congruence|].
    cbn [nonempty negb orb]. rewrite Hsplit. reflexivity.
  - intros r w' Hrun. apply reraise_http_ok_inv in Hrun.
    unfold generate_resolution_endpoint in Hrun.
    destruct (truthy (getenv E (lit "API_KEY")) && truthy (getenv E (lit "PROJECT_ID"))
              && truthy (getenv E (lit "MODEL_ID"))); [|discriminate].
    destruct (negb (nonempty (dict_get_str data (lit "content")))
              || negb (nonempty (dict_get_str data (lit "intent"))));
      [discriminate|].
    cbn [negb] in Hrun.
    apply bind_ok_inv in Hrun. destruct Hrun as (category & w1 & _ & Hrun).
    apply bind_ok_inv in Hrun. destruct Hrun as (template & w2 & _ & Hrun).
    apply bind_ok_inv in Hrun. destruct Hrun as (result & w3 & _ & Hrun).
    apply (chat_reply_ok_inv result _
             (fun reply => {| resolution := reply; rr_success := true;
                              rr_message := lit "Resolution generated successfully" |}))
      in Hrun.
    destruct Hrun as [reply ->]. cbn [resolution rr_success].
    split; [apply strip_trimmed | reflexivity].
Qed.

(** No PROJECT_ID: both endpoints refuse before anything else. *)
Example unset_project_refused :
  recognize_intent_endpoint no_project_env [(lit "text", lit "hello")] initial_world
  = (Raise missing_environment, initial_world) /\
  generate_resolution_endpoint no_project_env
    (resolution_request "hello" "OTHER") initial_world
  = (Raise missing_environment, initial_world).
Proof. vm_compute. auto. Qed.

(** An intent of three spaces is not "empty" and has no first word. *)
Example blank_intent_is_a_server_error :
  generate_resolution_endpoint retry_env (resolution_request "hello" "   ")
    initial_world
  = (Raise (HTTPException 500
              (lit "Resolution generation failed: list index out of range")),
     initial_world).
Proof. vm_compute. reflexivity. Qed.





(** X21. An upload in which the speech model hears nothing: when
    [transcribe_audio_file] returns the empty string, [/transcribe]
    succeeds with an empty transcription, while [/analyze], with the
    environment set, raises the status-400 "Text content is required"
    error of its intent step, in the world transcription left: no token is
    fetched and no chat request sent. *)
Theorem silent_audio_fails_full_analysis {num : Type} `{PyNumber num}
    {sample : Type} (zero : sample) (E : Env num sample) (upload : UploadFile)
    (w w1 : World num sample)
    (Hmp3 : endswith (lower (filename upload)) (lit ".mp3") = true)
    (Henv : environment_set E = true)
    (Hrun : transcribe_audio_file zero E upload w = (Ok [], w1)) :
  transcribe_audio_endpoint zero E upload w
  = (Ok {| tr_transcription := [];
           tr_success := true;
           tr_message := lit "Transcription completed successfully" |}, w1)
  /\
  full_analysis_endpoint zero E upload w = (Raise text_required, w1).
Proof.
  split.
  - unfold transcribe_audio_endpoint, reraise_http, try_except, bind.
    rewrite Hmp3. cbn [negb]. rewrite Hrun. reflexivity.
  - assert (Hkey : truthy (getenv E (lit "API_KEY")) = true).
    { unfold environment_set in Henv.
      apply andb_true_iff in Henv. destruct Henv as [Henv _].
      apply andb_true_iff in Henv. tauto. }
    unfold full_analysis_endpoint, reraise_http, try_except, bind.
    rewrite Hmp3, Hkey. cbn [negb]. rewrite Hrun.
    unfold recognize_intent_endpoint, reraise_http, try_except.
    unfold environment_set in Henv. rewrite Henv. reflexivity.
Qed.

Lemma silent_audio_fails_full_analysis_witness :
  full_analysis_endpoint 0 silent_env mp3_upload initial_world
  = (Raise text_required,
     snd (transcribe_audio_file 0 silent_env mp3_upload initial_world)).
Proof.
  apply (silent_audio_fails_full_analysis 0 silent_env mp3_upload initial_world
           (snd (transcribe_audio_file 0 silent_env mp3_upload initial_world)));
    vm_compute; reflexivity.
Defined.

(** X22. A blank reply in the intent step: when, in [/analyze],
    transcription returns and intent recognition returns an empty intent
    (the reply of the model is stripped, so a reply of whitespace gives
    one), the endpoint raises the status-400 "Both content and intent are
    required" error of its resolution step, in the world intent
    recognition left: no resolution request is sent. *)
Theorem blank_intent_fails_full_analysis {num : Type} `{PyNumber num}
    {sample : Type} (zero : sample) (E : Env num sample) (upload : UploadFile)
    (w w1 w2 : World num sample) (transcription : str) (r : IntentResponse)
    (Hmp3 : endswith (lower (filename upload)) (lit ".mp3") = true)
    (Hkey : truthy (getenv E (lit "API_KEY")) = true)
    (Hrun : transcribe_audio_file zero E upload w = (Ok transcription, w1))
    (Hintent : recognize_intent_endpoint E [(lit "text", transcription)] w1
               = (Ok r, w2))
    (Hblank : intent r = []) :
  full_analysis_endpoint zero E upload w
  = (Raise content_and_intent_required, w2).
Proof.
  unfold full_analysis_endpoint, reraise_http, try_except, bind.
  rewrite Hmp3, Hkey. cbn [negb]. rewrite Hrun, Hintent, Hblank.
  apply reraise_http_ok_inv in Hintent.
  unfold recognize_intent_endpoint in Hintent.
  unfold generate_resolution_endpoint, reraise_http, try_except.
  destruct (truthy (getenv E (lit "API_KEY")) && truthy (getenv E (lit "PROJECT_ID"))
            && truthy (getenv E (lit "MODEL_ID"))); [|discriminate].
  replace (dict_get_str [(lit "content", transcription); (lit "intent", [])]
             (lit "intent")) with (@nil N) by reflexivity.
  cbn [negb nonempty]. rewrite orb_true_r. reflexivity.
Qed.

Lemma blank_intent_fails_full_analysis_witness :
  full_analysis_endpoint 0 blank_intent_env mp3_upload initial_world
  = (Raise content_and_intent_required,
     snd (full_analysis_endpoint 0 blank_intent_env mp3_upload initial_world))
  /\ chat_posts
       (events (snd (full_analysis_endpoint 0 blank_intent_env mp3_upload
                       initial_world))) = 1%nat.
Proof.
  split; [|vm_compute; reflexivity].
  apply (blank_intent_fails_full_analysis 0 blank_intent_env mp3_upload
           initial_world
           (snd (transcribe_audio_file 0 blank_intent_env mp3_upload initial_world))
           (snd (full_analysis_endpoint 0 blank_intent_env mp3_upload initial_world))
           (lit "How do I register for GST?")
           {| intent := []; ir_success := true;
              ir_message := lit "Intent recognition completed successfully" |});
    vm_compute; reflexivity.
Defined.
